(** * Energy ingestion engine: a shallow embedding of the ingestion and
    analytics services, and the properties of their write and read paths.

    Conventions of the embedding.
    - A JavaScript [number] is an exact rational ([Q]): the DTO validators
      ([@IsNumber()]) exclude NaN and the infinities, and the arithmetic of
      the services (differences, sums, one quotient, [Math.round]) is read
      without rounding error.  Arithmetic results are compared with [==].
    - An observation timestamp is the instant [new Date(dto.timestamp)]
      denotes, in milliseconds since the epoch ([Z]); [@IsDateString()]
      guarantees that the string parses.
    - The Prisma client is a record of tables: device tables and
      current-state tables are finite maps on their unique key, the two
      reading ledgers are lists in insertion order.  A transaction whose
      steps cannot fail is the sequential composition of its steps.
    - The row id of a reading (a uuid in the schema) is its position in the
      ledger; the audit column [receivedAt] is not represented. *)

From Stdlib Require Import ZArith QArith Qround Qminmax Lqa Lia Permutation.
From Stdlib Require Import Sorted.
From stdpp Require Import base option list gmap strings.
From stdpp Require Import sorting.

Local Open Scope string_scope.
Local Open Scope list_scope.

(** ** Request payloads (ingestion/dto) *)

Module MeterTelemetryDto.
Record t : Type := mk {
  meterId : string;
  kwhConsumedAc : Q;
  voltage : Q;
  timestamp : Z
}.
End MeterTelemetryDto.

Module VehicleTelemetryDto.
Record t : Type := mk {
  vehicleId : string;
  soc : Q;
  kwhDeliveredDc : Q;
  batteryTemp : Q;
  timestamp : Z
}.
End VehicleTelemetryDto.

(** ** Rows of the persistent store (prisma schema) *)

Module Meter.
Record t : Type := mk {
  meterId : string;
  name : string;
  location : option string
}.
End Meter.

Module Vehicle.
Record t : Type := mk {
  vehicleId : string;
  name : string;
  batteryCapacity : option Q;
  meterId : option string
}.
End Vehicle.

Module MeterReading.
Record t : Type := mk {
  id : nat;
  meterId : string;
  kwhConsumedAc : Q;
  voltage : Q;
  timestamp : Z
}.
End MeterReading.

Module VehicleReading.
Record t : Type := mk {
  id : nat;
  vehicleId : string;
  soc : Q;
  kwhDeliveredDc : Q;
  batteryTemp : Q;
  timestamp : Z
}.
End VehicleReading.

Module MeterCurrentState.
Record t : Type := mk {
  meterId : string;
  kwhConsumedAc : Q;
  voltage : Q;
  lastTimestamp : Z
}.
End MeterCurrentState.

Module VehicleCurrentState.
Record t : Type := mk {
  vehicleId : string;
  soc : Q;
  kwhDeliveredDc : Q;
  batteryTemp : Q;
  lastTimestamp : Z
}.
End VehicleCurrentState.

(** The tables reachable through [PrismaService]. *)
Record Store : Type := mkStore {
  meter : gmap string Meter.t;
  vehicle : gmap string Vehicle.t;
  meterReading : list MeterReading.t;
  vehicleReading : list VehicleReading.t;
  meterCurrentState : gmap string MeterCurrentState.t;
  vehicleCurrentState : gmap string VehicleCurrentState.t
}.

Definition emptyStore : Store :=
  mkStore ∅ ∅ [] [] ∅ ∅.

(** What a service call can throw. *)
Inductive Exception : Type :=
| BadRequestException
    (* the global ValidationPipe rejected the payload *)
| NotFoundException (message : string)
    (* thrown by AnalyticsService *)
| PrismaRecordNotFound
    (* prisma [update] on a unique key that selects no row *).

(** ** JavaScript collections used by the batch path *)

(** [[...new Set(xs)]]: the distinct elements, in order of first occurrence. *)
Definition jsSetAdd (seen : list string) (x : string) : list string :=
  if bool_decide (x ∈ seen) then seen else seen ++ [x].

Definition jsSetOf (xs : list string) : list string :=
  fold_left jsSetAdd xs [].

(** [Map<string, V>]: entries in insertion order, one entry per key;
    [set] on a present key replaces the value in place. *)
Module JsMap.
Section WithValue.
Context {V : Type}.

Fixpoint get (m : list (string * V)) (k : string) : option V :=
  match m with
  | [] => None
  | (k', v) :: rest => if bool_decide (k' = k) then Some v else get rest k
  end.

Fixpoint set (m : list (string * V)) (k : string) (v : V)
  : list (string * V) :=
  match m with
  | [] => [(k, v)]
  | (k', v') :: rest =>
      if bool_decide (k' = k) then (k, v) :: rest
      else (k', v') :: set rest k v
  end.
End WithValue.
End JsMap.

(** ** Validation decorators of the DTO classes *)

Definition isNotEmpty (s : string) : bool :=
  negb (bool_decide (s = "")).

Definition validateMeterTelemetry (dto : MeterTelemetryDto.t) : bool :=
  isNotEmpty (MeterTelemetryDto.meterId dto)
  && Qle_bool 0 (MeterTelemetryDto.kwhConsumedAc dto)
  && Qle_bool 0 (MeterTelemetryDto.voltage dto)
  && Qle_bool (MeterTelemetryDto.voltage dto) 500.

Definition validateVehicleTelemetry (dto : VehicleTelemetryDto.t) : bool :=
  isNotEmpty (VehicleTelemetryDto.vehicleId dto)
  && Qle_bool 0 (VehicleTelemetryDto.soc dto)
  && Qle_bool (VehicleTelemetryDto.soc dto) 100
  && Qle_bool 0 (VehicleTelemetryDto.kwhDeliveredDc dto)
  && Qle_bool (-50) (VehicleTelemetryDto.batteryTemp dto)
  && Qle_bool (VehicleTelemetryDto.batteryTemp dto) 100.

(** ** Prisma operations used by the services *)

(** [tx.meter.upsert({ where: { meterId }, update: {}, create: {...} })] *)
Definition meter_upsert (meterId : string) (db : Store) : Store :=
  match meter db !! meterId with
  | Some _ => db
  | None =>
      mkStore
        (<[meterId := Meter.mk meterId ("Meter " +:+ meterId) None]> (meter db))
        (vehicle db) (meterReading db) (vehicleReading db)
        (meterCurrentState db) (vehicleCurrentState db)
  end.

(** [tx.vehicle.upsert({ where: { vehicleId }, update: {}, create: {...} })] *)
Definition vehicle_upsert (vehicleId : string) (db : Store) : Store :=
  match vehicle db !! vehicleId with
  | Some _ => db
  | None =>
      mkStore (meter db)
        (<[vehicleId :=
             Vehicle.mk vehicleId ("Vehicle " +:+ vehicleId) None None]>
           (vehicle db))
        (meterReading db) (vehicleReading db)
        (meterCurrentState db) (vehicleCurrentState db)
  end.

(** The row [tx.meterReading.create] / [createMany] builds from a payload. *)
Definition meterReadingRow (id : nat) (dto : MeterTelemetryDto.t)
  : MeterReading.t :=
  MeterReading.mk id
    (MeterTelemetryDto.meterId dto)
    (MeterTelemetryDto.kwhConsumedAc dto)
    (MeterTelemetryDto.voltage dto)
    (MeterTelemetryDto.timestamp dto).

Definition vehicleReadingRow (id : nat) (dto : VehicleTelemetryDto.t)
  : VehicleReading.t :=
  VehicleReading.mk id
    (VehicleTelemetryDto.vehicleId dto)
    (VehicleTelemetryDto.soc dto)
    (VehicleTelemetryDto.kwhDeliveredDc dto)
    (VehicleTelemetryDto.batteryTemp dto)
    (VehicleTelemetryDto.timestamp dto).

(** [tx.meterReading.create({ data })]: appends and returns the new row. *)
Definition meterReading_create (dto : MeterTelemetryDto.t) (db : Store)
  : Store * MeterReading.t :=
  let row := meterReadingRow (length (meterReading db)) dto in
  (mkStore (meter db) (vehicle db) (meterReading db ++ [row])
     (vehicleReading db) (meterCurrentState db) (vehicleCurrentState db),
   row).

Definition vehicleReading_create (dto : VehicleTelemetryDto.t) (db : Store)
  : Store * VehicleReading.t :=
  let row := vehicleReadingRow (length (vehicleReading db)) dto in
  (mkStore (meter db) (vehicle db) (meterReading db)
     (vehicleReading db ++ [row]) (meterCurrentState db)
     (vehicleCurrentState db),
   row).

(** [tx.meterReading.createMany({ data })]: appends the rows in input order. *)
Definition meterReading_createMany (data : list MeterTelemetryDto.t)
  (db : Store) : Store :=
  fold_left (fun d dto => fst (meterReading_create dto d)) data db.

Definition vehicleReading_createMany (data : list VehicleTelemetryDto.t)
  (db : Store) : Store :=
  fold_left (fun d dto => fst (vehicleReading_create dto d)) data db.

(** [tx.meterCurrentState.upsert({ where: { meterId }, update, create })]:
    [update] assigns every column but the key of the selected row, whose
    key column is [meterId]; [create] builds the same row.  Either way the
    row stored under [meterId] afterwards is the one below. *)
Definition meterCurrentState_upsert (meterId : string)
  (dto : MeterTelemetryDto.t) (db : Store) : Store :=
  let row :=
    MeterCurrentState.mk meterId
      (MeterTelemetryDto.kwhConsumedAc dto)
      (MeterTelemetryDto.voltage dto)
      (MeterTelemetryDto.timestamp dto) in
  mkStore (meter db) (vehicle db) (meterReading db) (vehicleReading db)
    (<[meterId := row]> (meterCurrentState db)) (vehicleCurrentState db).

Definition vehicleCurrentState_upsert (vehicleId : string)
  (dto : VehicleTelemetryDto.t) (db : Store) : Store :=
  let row :=
    VehicleCurrentState.mk vehicleId
      (VehicleTelemetryDto.soc dto)
      (VehicleTelemetryDto.kwhDeliveredDc dto)
      (VehicleTelemetryDto.batteryTemp dto)
      (VehicleTelemetryDto.timestamp dto) in
  mkStore (meter db) (vehicle db) (meterReading db) (vehicleReading db)
    (meterCurrentState db) (<[vehicleId := row]> (vehicleCurrentState db)).

(** Modelled from the spec: the Prisma schema is not among the sources, so
    the column [meterId] of a vehicle is taken as the specification
    describes it, a nullable reference that the store does not check against
    the meter table.  With that,
    [prisma.vehicle.update({ where: { vehicleId }, data: { meterId } })]
    fails exactly when no row has the key (Prisma's record-not-found error)
    and otherwise assigns the column. *)
Definition vehicle_update_meterId (vehicleId meterId : string) (db : Store)
  : Exception + Store :=
  match vehicle db !! vehicleId with
  | None => inl PrismaRecordNotFound
  | Some v =>
      inr (mkStore (meter db)
             (<[vehicleId :=
                  Vehicle.mk (Vehicle.vehicleId v) (Vehicle.name v)
                    (Vehicle.batteryCapacity v) (Some meterId)]>
                (vehicle db))
             (meterReading db) (vehicleReading db)
             (meterCurrentState db) (vehicleCurrentState db))
  end.

(** ** IngestionService *)

Record IngestMeterResult : Type := mkIngestMeterResult {
  im_success : bool;
  im_meterId : string;
  im_readingId : nat
}.

Record IngestVehicleResult : Type := mkIngestVehicleResult {
  iv_success : bool;
  iv_vehicleId : string;
  iv_readingId : nat
}.

Record BatchMeterResult : Type := mkBatchMeterResult {
  bm_success : bool;
  bm_count : nat;
  bm_meterIds : list string
}.

Record BatchVehicleResult : Type := mkBatchVehicleResult {
  bv_success : bool;
  bv_count : nat;
  bv_vehicleIds : list string
}.

Definition ingestMeterTelemetry (dto : MeterTelemetryDto.t) (db : Store)
  : Store * IngestMeterResult :=
  let db1 := meter_upsert (MeterTelemetryDto.meterId dto) db in
  let '(db2, reading) := meterReading_create dto db1 in
  let db3 := meterCurrentState_upsert (MeterTelemetryDto.meterId dto) dto db2 in
  (db3,
   mkIngestMeterResult true (MeterTelemetryDto.meterId dto)
     (MeterReading.id reading)).

Definition ingestVehicleTelemetry (dto : VehicleTelemetryDto.t) (db : Store)
  : Store * IngestVehicleResult :=
  let db1 := vehicle_upsert (VehicleTelemetryDto.vehicleId dto) db in
  let '(db2, reading) := vehicleReading_create dto db1 in
  let db3 :=
    vehicleCurrentState_upsert (VehicleTelemetryDto.vehicleId dto) dto db2 in
  (db3,
   mkIngestVehicleResult true (VehicleTelemetryDto.vehicleId dto)
     (VehicleReading.id reading)).

(** The reduction loop of the batch path:
    [for (const reading of readings) { const existing = latest.get(id);
       if (!existing ||
           new Date(reading.timestamp) > new Date(existing.timestamp))
         latest.set(id, reading); }] *)
Definition latestByMeterStep
  (latestByMeter : list (string * MeterTelemetryDto.t))
  (reading : MeterTelemetryDto.t) : list (string * MeterTelemetryDto.t) :=
  match JsMap.get latestByMeter (MeterTelemetryDto.meterId reading) with
  | None =>
      JsMap.set latestByMeter (MeterTelemetryDto.meterId reading) reading
  | Some existing =>
      if (MeterTelemetryDto.timestamp reading
          >? MeterTelemetryDto.timestamp existing)%Z
      then JsMap.set latestByMeter (MeterTelemetryDto.meterId reading) reading
      else latestByMeter
  end.

Definition latestByVehicleStep
  (latestByVehicle : list (string * VehicleTelemetryDto.t))
  (reading : VehicleTelemetryDto.t) : list (string * VehicleTelemetryDto.t) :=
  match JsMap.get latestByVehicle (VehicleTelemetryDto.vehicleId reading) with
  | None =>
      JsMap.set latestByVehicle (VehicleTelemetryDto.vehicleId reading) reading
  | Some existing =>
      if (VehicleTelemetryDto.timestamp reading
          >? VehicleTelemetryDto.timestamp existing)%Z
      then
        JsMap.set latestByVehicle (VehicleTelemetryDto.vehicleId reading)
          reading
      else latestByVehicle
  end.

Definition batchIngestMeterTelemetry (readings : list MeterTelemetryDto.t)
  (db : Store) : Store * BatchMeterResult :=
  let meterIds := jsSetOf (map MeterTelemetryDto.meterId readings) in
  let db1 := fold_left (fun d meterId => meter_upsert meterId d) meterIds db in
  let db2 := meterReading_createMany readings db1 in
  let latestByMeter := fold_left latestByMeterStep readings [] in
  let db3 :=
    fold_left
      (fun d '(meterId, latest) => meterCurrentState_upsert meterId latest d)
      latestByMeter db2 in
  (db3, mkBatchMeterResult true (length readings) meterIds).

Definition batchIngestVehicleTelemetry (readings : list VehicleTelemetryDto.t)
  (db : Store) : Store * BatchVehicleResult :=
  let vehicleIds := jsSetOf (map VehicleTelemetryDto.vehicleId readings) in
  let db1 :=
    fold_left (fun d vehicleId => vehicle_upsert vehicleId d) vehicleIds db in
  let db2 := vehicleReading_createMany readings db1 in
  let latestByVehicle := fold_left latestByVehicleStep readings [] in
  let db3 :=
    fold_left
      (fun d '(vehicleId, latest) =>
         vehicleCurrentState_upsert vehicleId latest d)
      latestByVehicle db2 in
  (db3, mkBatchVehicleResult true (length readings) vehicleIds).

Definition associateVehicleWithMeter (vehicleId meterId : string) (db : Store)
  : Exception + (Store * bool) :=
  match vehicle_update_meterId vehicleId meterId db with
  | inl e => inl e
  | inr db' => inr (db', true)
  end.

(** ** IngestionController: the single-reading routes, behind the global
    ValidationPipe of [main.ts] *)

Module IngestionController.
Definition ingestMeterTelemetry (dto : MeterTelemetryDto.t) (db : Store)
  : Exception + (Store * IngestMeterResult) :=
  if validateMeterTelemetry dto then inr (ingestMeterTelemetry dto db)
  else inl BadRequestException.

Definition ingestVehicleTelemetry (dto : VehicleTelemetryDto.t) (db : Store)
  : Exception + (Store * IngestVehicleResult) :=
  if validateVehicleTelemetry dto then inr (ingestVehicleTelemetry dto db)
  else inl BadRequestException.
End IngestionController.

(** ** AnalyticsService *)

Local Open Scope Q_scope.

Definition EFFICIENCY_THRESHOLD_WARNING : Q := 85.
Definition EFFICIENCY_THRESHOLD_CRITICAL : Q := 75.

Inductive EfficiencyStatus : Type := HEALTHY | WARNING | CRITICAL.

Module PerformanceSummaryDto.
Record t : Type := mk {
  vehicleId : string;
  meterId : option string;
  periodStart : Z;
  periodEnd : Z;
  totalAcConsumed : Q;
  totalDcDelivered : Q;
  efficiencyRatio : Q;
  avgBatteryTemp : Q;
  vehicleReadingCount : nat;
  meterReadingCount : nat;
  efficiencyStatus : EfficiencyStatus
}.
End PerformanceSummaryDto.

Module CurrentStateDto.
Record t : Type := mk {
  vehicleId : string;
  currentSoc : Q;
  currentBatteryTemp : Q;
  lastKwhDeliveredDc : Q;
  lastUpdated : Z
}.
End CurrentStateDto.

Module FleetStats.
Record t : Type := mk {
  totalVehicles : nat;
  totalMeters : nat;
  activeVehicles : nat;
  activeMeters : nat;
  avgFleetSoc : Q;
  avgFleetBatteryTemp : Q
}.
End FleetStats.

(** [x < y] on numbers, as a boolean. *)
Definition Qltb (x y : Q) : bool := negb (Qle_bool y x).

(** [Math.round]: the nearest integer, halves towards plus infinity. *)
Definition Math_round (x : Q) : Z := Qfloor (x + (1 # 2)).

(** [Math.round(x * 100) / 100] *)
Definition round2 (x : Q) : Q := inject_Z (Math_round (x * 100)) / 100.

(** [orderBy: { timestamp: 'asc' }]: rows of equal timestamp keep their
    ledger order. *)
Fixpoint insertAsc {A : Type} (ts : A -> Z) (x : A) (sorted : list A)
  : list A :=
  match sorted with
  | [] => [x]
  | y :: rest =>
      if (ts x <? ts y)%Z then x :: y :: rest
      else y :: insertAsc ts x rest
  end.

Definition orderByAsc {A : Type} (ts : A -> Z) (rows : list A) : list A :=
  fold_left (fun sorted x => insertAsc ts x sorted) rows [].

(** [prisma.vehicleReading.findMany({ where: { vehicleId, timestamp:
    { gte, lte } }, orderBy: { timestamp: 'asc' } })] *)
Definition vehicleReading_findMany (vehicleId : string) (gte lte : Z)
  (db : Store) : list VehicleReading.t :=
  orderByAsc VehicleReading.timestamp
    (List.filter
       (fun r =>
          bool_decide (VehicleReading.vehicleId r = vehicleId)
          && (gte <=? VehicleReading.timestamp r)%Z
          && (VehicleReading.timestamp r <=? lte)%Z)
       (vehicleReading db)).

Definition meterReading_findMany (meterId : string) (gte lte : Z)
  (db : Store) : list MeterReading.t :=
  orderByAsc MeterReading.timestamp
    (List.filter
       (fun r =>
          bool_decide (MeterReading.meterId r = meterId)
          && (gte <=? MeterReading.timestamp r)%Z
          && (MeterReading.timestamp r <=? lte)%Z)
       (meterReading db)).

(** [vehicleReadings[i].kwhDeliveredDc] for an index inside the array. *)
Definition kwhDeliveredDcAt (vehicleReadings : list VehicleReading.t)
  (i : nat) : Q :=
  match vehicleReadings !! i with
  | Some r => VehicleReading.kwhDeliveredDc r
  | None => 0
  end.

Definition kwhConsumedAcAt (meterReadings : list MeterReading.t) (i : nat)
  : Q :=
  match meterReadings !! i with
  | Some r => MeterReading.kwhConsumedAc r
  | None => 0
  end.

(** The vehicle block of [getPerformanceSummary]: last minus first, and
    on a negative difference the loop over [i = 1 .. length - 1] that adds
    the positive deltas. *)
Definition totalDcDeliveredOf (vehicleReadings : list VehicleReading.t) : Q :=
  let vehicleReadingCount := length vehicleReadings in
  if (0 <? vehicleReadingCount)%nat then
    let totalDcDelivered :=
      kwhDeliveredDcAt vehicleReadings (length vehicleReadings - 1)%nat
      - kwhDeliveredDcAt vehicleReadings 0 in
    if Qltb totalDcDelivered 0 then
      fold_left
        (fun total i =>
           let delta :=
             kwhDeliveredDcAt vehicleReadings i
             - kwhDeliveredDcAt vehicleReadings (i - 1)%nat in
           if Qltb 0 delta then total + delta else total)
        (seq 1 (length vehicleReadings - 1)%nat) 0
    else totalDcDelivered
  else 0.

(** [vehicleReadings.reduce((sum, r) => sum + r.batteryTemp, 0) /
    vehicleReadingCount], or [0] without readings. *)
Definition avgBatteryTempOf (vehicleReadings : list VehicleReading.t) : Q :=
  let vehicleReadingCount := length vehicleReadings in
  if (0 <? vehicleReadingCount)%nat then
    fold_left (fun sum r => sum + VehicleReading.batteryTemp r)
      vehicleReadings 0
    / inject_Z (Z.of_nat vehicleReadingCount)
  else 0.

(** The meter block of [getPerformanceSummary]. *)
Definition totalAcConsumedOf (meterReadings : list MeterReading.t) : Q :=
  let meterReadingCount := length meterReadings in
  if (0 <? meterReadingCount)%nat then
    let totalAcConsumed :=
      kwhConsumedAcAt meterReadings (length meterReadings - 1)%nat
      - kwhConsumedAcAt meterReadings 0 in
    if Qltb totalAcConsumed 0 then
      fold_left
        (fun total i =>
           let delta :=
             kwhConsumedAcAt meterReadings i
             - kwhConsumedAcAt meterReadings (i - 1)%nat in
           if Qltb 0 delta then total + delta else total)
        (seq 1 (length meterReadings - 1)%nat) 0
    else totalAcConsumed
  else 0.

Definition efficiencyRatioOf (totalDcDelivered totalAcConsumed : Q) : Q :=
  if Qltb 0 totalAcConsumed
  then (totalDcDelivered / totalAcConsumed) * 100
  else 0.

Definition efficiencyStatusOf (efficiencyRatio : Q) : EfficiencyStatus :=
  if Qltb 0 efficiencyRatio then
    if Qltb efficiencyRatio EFFICIENCY_THRESHOLD_CRITICAL then CRITICAL
    else if Qltb efficiencyRatio EFFICIENCY_THRESHOLD_WARNING then WARNING
    else HEALTHY
  else HEALTHY.

(** [if (vehicle.meterId)]: [null] and the empty string are falsy. *)
Definition truthyMeterId (meterId : option string) : option string :=
  match meterId with
  | Some m => if isNotEmpty m then Some m else None
  | None => None
  end.

(** The meter readings the summary is computed from. *)
Definition meterReadingsFor (vehicle : Vehicle.t) (periodStart periodEnd : Z)
  (db : Store) : list MeterReading.t :=
  match truthyMeterId (Vehicle.meterId vehicle) with
  | Some meterId => meterReading_findMany meterId periodStart periodEnd db
  | None => []
  end.

(** [getPerformanceSummary(vehicleId)], with [new Date()] passed as [now]. *)
Definition getPerformanceSummary (vehicleId : string) (now : Z) (db : Store)
  : Exception + PerformanceSummaryDto.t :=
  let periodEnd := now in
  let periodStart := (periodEnd - 24 * 60 * 60 * 1000)%Z in
  match vehicle db !! vehicleId with
  | None => inl (NotFoundException ("Vehicle " +:+ vehicleId +:+ " not found"))
  | Some vehicle =>
      let vehicleReadings :=
        vehicleReading_findMany vehicleId periodStart periodEnd db in
      let totalDcDelivered := totalDcDeliveredOf vehicleReadings in
      let totalBatteryTemp := avgBatteryTempOf vehicleReadings in
      let vehicleReadingCount := length vehicleReadings in
      let meterReadings := meterReadingsFor vehicle periodStart periodEnd db in
      let totalAcConsumed := totalAcConsumedOf meterReadings in
      let meterReadingCount := length meterReadings in
      let efficiencyRatio :=
        efficiencyRatioOf totalDcDelivered totalAcConsumed in
      let efficiencyStatus := efficiencyStatusOf efficiencyRatio in
      inr (PerformanceSummaryDto.mk vehicleId (Vehicle.meterId vehicle)
             periodStart periodEnd
             (round2 totalAcConsumed)
             (round2 totalDcDelivered)
             (round2 efficiencyRatio)
             (round2 totalBatteryTemp)
             vehicleReadingCount meterReadingCount efficiencyStatus)
  end.

(** [getCurrentState(vehicleId)] *)
Definition getCurrentState (vehicleId : string) (db : Store)
  : Exception + CurrentStateDto.t :=
  match vehicleCurrentState db !! vehicleId with
  | None =>
      inl (NotFoundException
             ("No current state found for vehicle " +:+ vehicleId))
  | Some currentState =>
      inr (CurrentStateDto.mk
             (VehicleCurrentState.vehicleId currentState)
             (VehicleCurrentState.soc currentState)
             (VehicleCurrentState.batteryTemp currentState)
             (VehicleCurrentState.kwhDeliveredDc currentState)
             (VehicleCurrentState.lastTimestamp currentState))
  end.

(** [findMany()] on a current-state table: every row. *)
Definition vehicleCurrentState_findMany (db : Store)
  : list VehicleCurrentState.t :=
  (map_to_list (vehicleCurrentState db)).*2.

Definition meterCurrentState_findMany (db : Store)
  : list MeterCurrentState.t :=
  (map_to_list (meterCurrentState db)).*2.

(** The two filters of [getFleetStats]. *)
Definition activeVehicleStatesOf (now : Z) (db : Store)
  : list VehicleCurrentState.t :=
  let fiveMinutesAgo := (now - 5 * 60 * 1000)%Z in
  List.filter
    (fun v => (VehicleCurrentState.lastTimestamp v >=? fiveMinutesAgo)%Z)
    (vehicleCurrentState_findMany db).

Definition activeMeterStatesOf (now : Z) (db : Store)
  : list MeterCurrentState.t :=
  let fiveMinutesAgo := (now - 5 * 60 * 1000)%Z in
  List.filter
    (fun m => (MeterCurrentState.lastTimestamp m >=? fiveMinutesAgo)%Z)
    (meterCurrentState_findMany db).

(** [getFleetStats()], with [Date.now()] passed as [now]. *)
Definition getFleetStats (now : Z) (db : Store) : FleetStats.t :=
  let totalVehicles := size (vehicle db) in
  let totalMeters := size (meter db) in
  let activeVehicleStates := activeVehicleStatesOf now db in
  let activeMeterStates := activeMeterStatesOf now db in
  let avgFleetSoc :=
    if (0 <? length activeVehicleStates)%nat then
      fold_left (fun sum v => sum + VehicleCurrentState.soc v)
        activeVehicleStates 0
      / inject_Z (Z.of_nat (length activeVehicleStates))
    else 0 in
  let avgFleetBatteryTemp :=
    if (0 <? length activeVehicleStates)%nat then
      fold_left (fun sum v => sum + VehicleCurrentState.batteryTemp v)
        activeVehicleStates 0
      / inject_Z (Z.of_nat (length activeVehicleStates))
    else 0 in
  FleetStats.mk totalVehicles totalMeters
    (length activeVehicleStates) (length activeMeterStates)
    (round2 avgFleetSoc) (round2 avgFleetBatteryTemp).

(** ** The batch reduction, per device *)

Section Reduction.
Context {R : Type} (key : R -> string) (ts : R -> Z).

(** The readings of one device in a batch, in input order. *)
Definition readingsOf (k : string) (readings : list R) : list R :=
  List.filter (fun r => bool_decide (key r = k)) readings.

(** The loop body of the reduction, for either kind of reading. *)
Definition latestStep (latest : list (string * R)) (reading : R)
  : list (string * R) :=
  match JsMap.get latest (key reading) with
  | None => JsMap.set latest (key reading) reading
  | Some existing =>
      if (ts reading >? ts existing)%Z
      then JsMap.set latest (key reading) reading
      else latest
  end.

(** What the loop does to the entry of one device. *)
Definition keepLatest (existing : option R) (reading : R) : option R :=
  match existing with
  | None => Some reading
  | Some e => if (ts reading >? ts e)%Z then Some reading else Some e
  end.

(** [w] carries the maximal timestamp of [rs] and is the first reading
    of [rs] to carry it. *)
Definition firstOfNewest (w : R) (rs : list R) : Prop :=
  exists before after,
    rs = before ++ w :: after
    /\ Forall (fun r => (ts r < ts w)%Z) before
    /\ Forall (fun r => (ts r <= ts w)%Z) after.

(** [w] carries the maximal timestamp of [rs] and is the last reading of
    [rs] to carry it: the winner as the specification words it. *)
Definition lastOfNewest (w : R) (rs : list R) : Prop :=
  exists before after,
    rs = before ++ w :: after
    /\ Forall (fun r => (ts r <= ts w)%Z) before
    /\ Forall (fun r => (ts r < ts w)%Z) after.

(** The readings of [rs] that carry its maximal timestamp are equal. *)
Definition newestUnique (rs : list R) : Prop :=
  forall r1 r2,
    r1 ∈ rs -> r2 ∈ rs ->
    Forall (fun r => (ts r <= ts r1)%Z) rs ->
    Forall (fun r => (ts r <= ts r2)%Z) rs ->
    r1 = r2.
End Reduction.

(** The current-state row the hot path writes for a reading. *)
Definition meterRowOf (meterId : string) (reading : MeterTelemetryDto.t)
  : MeterCurrentState.t :=
  MeterCurrentState.mk meterId
    (MeterTelemetryDto.kwhConsumedAc reading)
    (MeterTelemetryDto.voltage reading)
    (MeterTelemetryDto.timestamp reading).

Definition vehicleRowOf (vehicleId : string) (reading : VehicleTelemetryDto.t)
  : VehicleCurrentState.t :=
  VehicleCurrentState.mk vehicleId
    (VehicleTelemetryDto.soc reading)
    (VehicleTelemetryDto.kwhDeliveredDc reading)
    (VehicleTelemetryDto.batteryTemp reading)
    (VehicleTelemetryDto.timestamp reading).

(** ** Sequences of ingestion calls *)

Inductive Operation : Type :=
| IngestMeter (dto : MeterTelemetryDto.t)
| IngestVehicle (dto : VehicleTelemetryDto.t)
| BatchIngestMeter (readings : list MeterTelemetryDto.t)
| BatchIngestVehicle (readings : list VehicleTelemetryDto.t).

Definition perform (op : Operation) (db : Store) : Store :=
  match op with
  | IngestMeter dto => fst (ingestMeterTelemetry dto db)
  | IngestVehicle dto => fst (ingestVehicleTelemetry dto db)
  | BatchIngestMeter readings => fst (batchIngestMeterTelemetry readings db)
  | BatchIngestVehicle readings =>
      fst (batchIngestVehicleTelemetry readings db)
  end.

Definition performAll (ops : list Operation) (db : Store) : Store :=
  fold_left (fun d op => perform op d) ops db.

(** The observation timestamps accepted so far for a device: those of its
    rows in the ledger. *)
Definition meterTimestamps (meterId : string) (db : Store) : list Z :=
  MeterReading.timestamp
    <$> readingsOf MeterReading.meterId meterId (meterReading db).

Definition vehicleTimestamps (vehicleId : string) (db : Store) : list Z :=
  VehicleReading.timestamp
    <$> readingsOf VehicleReading.vehicleId vehicleId (vehicleReading db).

Definition maximum (l : list Z) : option Z :=
  match l with
  | [] => None
  | t :: rest => Some (fold_left Z.max rest t)
  end.

(** The observation timestamps one call carries for a device. *)
Definition carriedForMeter (meterId : string) (op : Operation) : list Z :=
  match op with
  | IngestMeter dto =>
      MeterTelemetryDto.timestamp
        <$> readingsOf MeterTelemetryDto.meterId meterId [dto]
  | BatchIngestMeter readings =>
      MeterTelemetryDto.timestamp
        <$> readingsOf MeterTelemetryDto.meterId meterId readings
  | _ => []
  end.

Definition carriedForVehicle (vehicleId : string) (op : Operation) : list Z :=
  match op with
  | IngestVehicle dto =>
      VehicleTelemetryDto.timestamp
        <$> readingsOf VehicleTelemetryDto.vehicleId vehicleId [dto]
  | BatchIngestVehicle readings =>
      VehicleTelemetryDto.timestamp
        <$> readingsOf VehicleTelemetryDto.vehicleId vehicleId readings
  | _ => []
  end.

(** A device of either kind, and the two columns compared below. *)
Inductive Device : Type :=
| MeterDevice (meterId : string)
| VehicleDevice (vehicleId : string).

Definition carriedFor (device : Device) (op : Operation) : list Z :=
  match device with
  | MeterDevice meterId => carriedForMeter meterId op
  | VehicleDevice vehicleId => carriedForVehicle vehicleId op
  end.

Definition timestampsOf (device : Device) (db : Store) : list Z :=
  match device with
  | MeterDevice meterId => meterTimestamps meterId db
  | VehicleDevice vehicleId => vehicleTimestamps vehicleId db
  end.

Definition lastTimestampOf (device : Device) (db : Store) : option Z :=
  match device with
  | MeterDevice meterId =>
      MeterCurrentState.lastTimestamp <$> meterCurrentState db !! meterId
  | VehicleDevice vehicleId =>
      VehicleCurrentState.lastTimestamp
        <$> vehicleCurrentState db !! vehicleId
  end.

(** A write stream is correctly ordered for a device when the newest
    timestamp each call carries for it is not older than any timestamp
    accepted for it before the call. *)
Fixpoint correctlyOrdered (seen : list Z) (carried : list (list Z)) : bool :=
  match carried with
  | [] => true
  | c :: rest =>
      match maximum c with
      | None => true
      | Some t => forallb (fun s => (s <=? t)%Z) seen
      end
      && correctlyOrdered (seen ++ c) rest
  end.

(** ** Names for the locals of [getPerformanceSummary] *)

(** [periodStart] for a call at [now]. *)
Definition periodStartOf (now : Z) : Z := (now - 24 * 60 * 60 * 1000)%Z.

(** [vehicleReadings] and [meterReadings] of a call at [now]. *)
Definition vehicleSeries (vehicleId : string) (now : Z) (db : Store)
  : list VehicleReading.t :=
  vehicleReading_findMany vehicleId (periodStartOf now) now db.

Definition meterSeries (vehicle : Vehicle.t) (now : Z) (db : Store)
  : list MeterReading.t :=
  meterReadingsFor vehicle (periodStartOf now) now db.

(** [efficiencyRatio] as the status test reads it, before it is rounded for
    the response. *)
Definition unroundedRatio (vehicleId : string) (vehicle : Vehicle.t)
  (now : Z) (db : Store) : Q :=
  efficiencyRatioOf
    (totalDcDeliveredOf (vehicleSeries vehicleId now db))
    (totalAcConsumedOf (meterSeries vehicle now db)).

(** ** Arithmetic mean *)

Definition Qsum (l : list Q) : Q := fold_right Qplus 0 l.

Definition mean (l : list Q) : Q :=
  match l with
  | [] => 0
  | _ => Qsum l / inject_Z (Z.of_nat (length l))
  end.

(** ** The cumulative-delta rule, as the specification words it *)

(** Sum over the consecutive pairs of [max(0, r[i] - r[i-1])]. *)
Fixpoint sumNonNegativeDeltas (r : list Q) : Q :=
  match r with
  | [] => 0
  | a :: rest =>
      match rest with
      | [] => 0
      | b :: _ => Qmax 0 (b - a) + sumNonNegativeDeltas rest
      end
  end.

(** [r[n-1] - r[0]] when that is not negative, the sum above when it is,
    [0] for the empty series. *)
Definition cumulativeDelta (r : list Q) : Q :=
  match r with
  | [] => 0
  | first :: _ =>
      let total := List.last r 0 - first in
      if Qle_bool 0 total then total else sumNonNegativeDeltas r
  end.

(** The body of the two reset loops, over an arbitrary accessor. *)
Definition addPositiveDelta (valueAt : nat -> Q) (total : Q) (i : nat) : Q :=
  let delta := valueAt i - valueAt (i - 1)%nat in
  if Qltb 0 delta then total + delta else total.

(** ** Sample stores and payloads used to exercise the statements *)

(** A store whose rows for "VEH-001" and "METER-001" are newer than the
    readings submitted next. *)
Definition newerStore : Store :=
  fst (ingestMeterTelemetry (MeterTelemetryDto.mk "METER-001" 1005 231 7200000)
    (fst (ingestVehicleTelemetry
            (VehicleTelemetryDto.mk "VEH-001" 50 804 30 7200000) emptyStore))).

(** The end-to-end scenario: two meter readings (1000 then 1005 kWh) and two
    vehicle readings (800 then 804 kWh) one hour apart, the vehicle
    associated with the meter. *)
Definition associated (vehicleId meterId : string) (db : Store) : Store :=
  match associateVehicleWithMeter vehicleId meterId db with
  | inr (db', _) => db'
  | inl _ => db
  end.

Definition scenarioStore : Store :=
  associated "VEH-001" "METER-001"
    (fst (ingestVehicleTelemetry
            (VehicleTelemetryDto.mk "VEH-001" 50 804 30 3600000)
    (fst (ingestVehicleTelemetry
            (VehicleTelemetryDto.mk "VEH-001" 50 800 30 0)
    (fst (ingestMeterTelemetry
            (MeterTelemetryDto.mk "METER-001" 1005 231 3600000)
    (fst (ingestMeterTelemetry
            (MeterTelemetryDto.mk "METER-001" 1000 230 0)
            emptyStore)))))))).

(** The same devices with 1000 kWh drawn and 849.99 kWh delivered: an
    exact ratio of 84.999. *)
Definition nearThresholdStore : Store :=
  associated "VEH-001" "METER-001"
    (fst (ingestVehicleTelemetry
            (VehicleTelemetryDto.mk "VEH-001" 50 (164999 # 100) 30 3600000)
    (fst (ingestVehicleTelemetry
            (VehicleTelemetryDto.mk "VEH-001" 50 800 30 0)
    (fst (ingestMeterTelemetry
            (MeterTelemetryDto.mk "METER-001" 2000 231 3600000)
    (fst (ingestMeterTelemetry
            (MeterTelemetryDto.mk "METER-001" 1000 230 0)
            emptyStore)))))))).

(** Vehicle readings of "VEH-001", one per minute, carrying the given
    counter values. *)
Definition vehicleReadingsOf (values : list Q) : list VehicleReading.t :=
  imap (fun i value =>
          VehicleReading.mk i "VEH-001" 50 value 30 (Z.of_nat i * 60000))
    values.

Definition meterReadingsOf (values : list Q) : list MeterReading.t :=
  imap (fun i value =>
          MeterReading.mk i "METER-001" value 230 (Z.of_nat i * 60000))
    values.

(** Two readings of one meter with the same observation timestamp and
    different measurements. *)
Definition tieFirst : MeterTelemetryDto.t :=
  MeterTelemetryDto.mk "METER-001" 1000 230 3600000.

Definition tieSecond : MeterTelemetryDto.t :=
  MeterTelemetryDto.mk "METER-001" 1005 231 3600000.

(** A newer reading followed by an older one, for a vehicle through the
    single-reading path and for a meter through the batch path. *)
Definition outOfOrderVehicle : list Operation :=
  [ IngestVehicle (VehicleTelemetryDto.mk "VEH-001" 50 804 30 7200000);
    IngestVehicle (VehicleTelemetryDto.mk "VEH-001" 40 800 29 3600000) ].

Definition outOfOrderMeter : list Operation :=
  [ IngestMeter (MeterTelemetryDto.mk "METER-001" 1010 232 7200000);
    BatchIngestMeter [tieFirst; MeterTelemetryDto.mk "METER-001" 990 229 0] ].

(** An ordered stream: a batch, then newer single readings. *)
Definition orderedStream : list Operation :=
  [ BatchIngestMeter [tieFirst; MeterTelemetryDto.mk "METER-001" 990 229 0];
    IngestVehicle (VehicleTelemetryDto.mk "VEH-001" 40 800 29 3600000);
    IngestMeter (MeterTelemetryDto.mk "METER-001" 1010 232 7200000);
    IngestVehicle (VehicleTelemetryDto.mk "VEH-001" 50 804 30 7200000) ].

(** A vehicle batch with one device and two distinct timestamps. *)
Definition vehicleBatch : list VehicleTelemetryDto.t :=
  [ VehicleTelemetryDto.mk "VEH-001" 50 804 30 7200000;
    VehicleTelemetryDto.mk "VEH-001" 40 800 29 3600000 ].

(** ** PrismaService.cleanDatabase *)

(** The six [deleteMany()] of the transaction, in its order. *)
Definition meterCurrentState_deleteMany (db : Store) : Store :=
  mkStore (meter db) (vehicle db) (meterReading db) (vehicleReading db)
    ∅ (vehicleCurrentState db).

Definition vehicleCurrentState_deleteMany (db : Store) : Store :=
  mkStore (meter db) (vehicle db) (meterReading db) (vehicleReading db)
    (meterCurrentState db) ∅.

Definition meterReading_deleteMany (db : Store) : Store :=
  mkStore (meter db) (vehicle db) [] (vehicleReading db)
    (meterCurrentState db) (vehicleCurrentState db).

Definition vehicleReading_deleteMany (db : Store) : Store :=
  mkStore (meter db) (vehicle db) (meterReading db) []
    (meterCurrentState db) (vehicleCurrentState db).

Definition vehicle_deleteMany (db : Store) : Store :=
  mkStore (meter db) ∅ (meterReading db) (vehicleReading db)
    (meterCurrentState db) (vehicleCurrentState db).

Definition meter_deleteMany (db : Store) : Store :=
  mkStore ∅ (vehicle db) (meterReading db) (vehicleReading db)
    (meterCurrentState db) (vehicleCurrentState db).

(** [cleanDatabase()], with [process.env.NODE_ENV] passed as [NODE_ENV];
    the left result is the message of the [Error] thrown. *)
Definition cleanDatabase (NODE_ENV : option string) (db : Store)
  : string + Store :=
  if bool_decide (NODE_ENV = Some "production")
  then inl "Cannot clean database in production"
  else
    inr (meter_deleteMany
           (vehicle_deleteMany
              (vehicleReading_deleteMany
                 (meterReading_deleteMany
                    (vehicleCurrentState_deleteMany
                       (meterCurrentState_deleteMany db)))))).

(** ** Calls of the ingestion routes, one after the other *)

Inductive Call : Type :=
| Ingestion (op : Operation)
| Associate (vehicleId meterId : string).

(** The store after a call; a call that throws leaves it as it was. *)
Definition serve (call : Call) (db : Store) : Store :=
  match call with
  | Ingestion op => perform op db
  | Associate vehicleId meterId => associated vehicleId meterId db
  end.

Definition serveAll (calls : list Call) (db : Store) : Store :=
  fold_left (fun d call => serve call d) calls db.

(** ** The ledger rows as payloads *)

Definition meterReadingDto (r : MeterReading.t) : MeterTelemetryDto.t :=
  MeterTelemetryDto.mk (MeterReading.meterId r)
    (MeterReading.kwhConsumedAc r) (MeterReading.voltage r)
    (MeterReading.timestamp r).

Definition vehicleReadingDto (r : VehicleReading.t) : VehicleTelemetryDto.t :=
  VehicleTelemetryDto.mk (VehicleReading.vehicleId r)
    (VehicleReading.soc r) (VehicleReading.kwhDeliveredDc r)
    (VehicleReading.batteryTemp r) (VehicleReading.timestamp r).

(** The device rows auto-registration creates. *)
Definition newMeter (meterId : string) : Meter.t :=
  Meter.mk meterId ("Meter " +:+ meterId) None.

Definition newVehicle (vehicleId : string) : Vehicle.t :=
  Vehicle.mk vehicleId ("Vehicle " +:+ vehicleId) None None.

(** In a batch, a later reading of the same device is strictly newer. *)
Definition newerLater {R : Type} (key : R -> string) (ts : R -> Z)
  (a b : R) : Prop :=
  key a = key b -> (ts a < ts b)%Z.

(** The 24-hour window of a summary computed at [now], bounds included. *)
Definition inPeriod (now t : Z) : Prop :=
  (periodStartOf now <= t)%Z /\ (t <= now)%Z.

(** Rows in ascending order of timestamp. *)
Definition ascending {A : Type} (ts : A -> Z) (l : list A) : Prop :=
  StronglySorted (fun a b => (ts a <= ts b)%Z) l.

(** The payloads an ingestion call carries, by kind, and their device ids. *)
Definition meterPayloadsOf (op : Operation) : list MeterTelemetryDto.t :=
  match op with
  | IngestMeter dto => [dto]
  | BatchIngestMeter readings => readings
  | _ => []
  end.

Definition vehiclePayloadsOf (op : Operation) : list VehicleTelemetryDto.t :=
  match op with
  | IngestVehicle dto => [dto]
  | BatchIngestVehicle readings => readings
  | _ => []
  end.

Definition meterIdsOf (op : Operation) : list string :=
  MeterTelemetryDto.meterId <$> meterPayloadsOf op.

Definition vehicleIdsOf (op : Operation) : list string :=
  VehicleTelemetryDto.vehicleId <$> vehiclePayloadsOf op.

(** Hot and cold storage agree on a kind of device: every current-state row
    is the projection of a ledger row of its device, every ledger row has a
    current-state row for its device, and both belong to a registered
    device. *)
Definition meterTablesAgree (db : Store) : Prop :=
  (forall k row,
      meterCurrentState db !! k = Some row ->
      exists r,
        r ∈ meterReading db
        /\ MeterReading.meterId r = k
        /\ row = meterRowOf k (meterReadingDto r))
  /\ (forall r,
         r ∈ meterReading db ->
         is_Some (meterCurrentState db !! MeterReading.meterId r))
  /\ (forall k,
         is_Some (meterCurrentState db !! k) -> is_Some (meter db !! k)).

Definition vehicleTablesAgree (db : Store) : Prop :=
  (forall k row,
      vehicleCurrentState db !! k = Some row ->
      exists r,
        r ∈ vehicleReading db
        /\ VehicleReading.vehicleId r = k
        /\ row = vehicleRowOf k (vehicleReadingDto r))
  /\ (forall r,
         r ∈ vehicleReading db ->
         is_Some (vehicleCurrentState db !! VehicleReading.vehicleId r))
  /\ (forall k,
         is_Some (vehicleCurrentState db !! k) -> is_Some (vehicle db !! k)).

(** Batches in which every device reports in strictly increasing order of
    observation time. *)
Definition orderedMeterBatch : list MeterTelemetryDto.t :=
  [ MeterTelemetryDto.mk "METER-001" 1000 230 0;
    MeterTelemetryDto.mk "METER-002" 500 229 0;
    MeterTelemetryDto.mk "METER-001" 1005 231 3600000 ].

Definition orderedVehicleBatch : list VehicleTelemetryDto.t :=
  [ VehicleTelemetryDto.mk "VEH-001" 40 800 29 3600000;
    VehicleTelemetryDto.mk "VEH-001" 50 804 30 7200000 ].

(** A vehicle batch that carries nothing for the last 24 hours of
    "VEH-001" at 3600000: a reading of another vehicle and a reading of
    "VEH-001" observed more than a day earlier. *)
Definition unrelatedBatch : Operation :=
  BatchIngestVehicle
    [ VehicleTelemetryDto.mk "VEH-002" 60 300 31 3600000;
      VehicleTelemetryDto.mk "VEH-001" 10 100 25 (-90000000) ].

(** ** Requests to the single-reading routes *)

Inductive Request : Type :=
| PostMeter (dto : MeterTelemetryDto.t)
| PostVehicle (dto : VehicleTelemetryDto.t).

(** The store after a request; a rejected request leaves it as it was. *)
Definition handle (req : Request) (db : Store) : Store :=
  match req with
  | PostMeter dto =>
      match IngestionController.ingestMeterTelemetry dto db with
      | inr (db', _) => db'
      | inl _ => db
      end
  | PostVehicle dto =>
      match IngestionController.ingestVehicleTelemetry dto db with
      | inr (db', _) => db'
      | inl _ => db
      end
  end.

Definition handleAll (reqs : list Request) (db : Store) : Store :=
  fold_left (fun d req => handle req d) reqs db.

(** The bounds the decorators of the two payload classes declare. *)
Definition meterPayloadInBounds (dto : MeterTelemetryDto.t) : Prop :=
  MeterTelemetryDto.meterId dto <> ""
  /\ 0 <= MeterTelemetryDto.kwhConsumedAc dto
  /\ 0 <= MeterTelemetryDto.voltage dto
  /\ MeterTelemetryDto.voltage dto <= 500.

Definition vehiclePayloadInBounds (dto : VehicleTelemetryDto.t) : Prop :=
  VehicleTelemetryDto.vehicleId dto <> ""
  /\ 0 <= VehicleTelemetryDto.soc dto
  /\ VehicleTelemetryDto.soc dto <= 100
  /\ 0 <= VehicleTelemetryDto.kwhDeliveredDc dto
  /\ -50 <= VehicleTelemetryDto.batteryTemp dto
  /\ VehicleTelemetryDto.batteryTemp dto <= 100.

(** The same bounds on the rows of the current-state tables. *)
Definition rowsInBounds (db : Store) : Prop :=
  (forall k row,
      meterCurrentState db !! k = Some row ->
      0 <= MeterCurrentState.kwhConsumedAc row
      /\ 0 <= MeterCurrentState.voltage row
      /\ MeterCurrentState.voltage row <= 500)
  /\ (forall k row,
         vehicleCurrentState db !! k = Some row ->
         0 <= VehicleCurrentState.soc row
         /\ VehicleCurrentState.soc row <= 100
         /\ 0 <= VehicleCurrentState.kwhDeliveredDc row
         /\ -50 <= VehicleCurrentState.batteryTemp row
         /\ VehicleCurrentState.batteryTemp row <= 100).

(** How bad a status is. *)
Definition severity (status : EfficiencyStatus) : nat :=
  match status with
  | HEALTHY => 0
  | WARNING => 1
  | CRITICAL => 2
  end.

(** The scenario store with both ledgers read in the opposite order. *)
Definition scenarioStoreReversed : Store :=
  mkStore (meter scenarioStore) (vehicle scenarioStore)
    (reverse (meterReading scenarioStore))
    (reverse (vehicleReading scenarioStore))
    (meterCurrentState scenarioStore) (vehicleCurrentState scenarioStore).


(** * Properties *)

(** ** The insertion-ordered map *)

Section JsMapFacts.
Context {V : Type}.
Implicit Types (m : list (string * V)) (k : string) (v : V).

Lemma JsMap_get_set m k v k' :
  JsMap.get (JsMap.set m k v) k'
  = if bool_decide (k = k') then Some v else JsMap.get m k'.
Proof.
  induction m as [|[k0 v0] m IH]; cbn.
  - done.
  - destruct (bool_decide_reflect (k0 = k)) as [->|Hne]; cbn.
    + by destruct (bool_decide (k = k')).
    + rewrite IH.
      destruct (bool_decide_reflect (k0 = k')) as [->|Hne'];
        [|done].
      by rewrite bool_decide_eq_false_2 by congruence.
Qed.

Lemma JsMap_set_keys m k v :
  (JsMap.set m k v).*1 = if bool_decide (k ∈ m.*1) then m.*1 else m.*1 ++ [k].
Proof.
  induction m as [|[k0 v0] m IH]; cbn.
  - done.
  - destruct (bool_decide_reflect (k0 = k)) as [->|Hne]; cbn.
    + rewrite bool_decide_eq_true_2; [done|]. apply list_elem_of_here.
    + rewrite IH.
      destruct (bool_decide_reflect (k ∈ m.*1)) as [Hin|Hnin].
      * rewrite bool_decide_eq_true_2; [done|]. by apply list_elem_of_further.
      * rewrite bool_decide_eq_false_2; [done|].
        intros [?|?]%elem_of_cons; congruence.
Qed.

Lemma JsMap_set_NoDup m k v : NoDup m.*1 -> NoDup (JsMap.set m k v).*1.
Proof.
  intros Hnd. rewrite JsMap_set_keys.
  destruct (bool_decide_reflect (k ∈ m.*1)); [done|].
  apply NoDup_app. split; [done|]. split; [|apply NoDup_singleton].
  intros x Hx ->%list_elem_of_singleton. done.
Qed.

Lemma JsMap_get_None m k : k ∉ m.*1 -> JsMap.get m k = None.
Proof.
  induction m as [|[k0 v0] m IH]; cbn; [done|].
  intros Hnin. rewrite bool_decide_eq_false_2.
  - apply IH. intros Hin. apply Hnin. by apply list_elem_of_further.
  - intros ->. apply Hnin. apply list_elem_of_here.
Qed.
End JsMapFacts.

(** ** The reduction loop, device by device *)

Section ReductionFacts.
Context {R : Type} (key : R -> string) (ts : R -> Z).

Lemma latestStep_get (latest : list (string * R)) (reading : R) (k : string) :
  JsMap.get (latestStep key ts latest reading) k
  = if bool_decide (key reading = k)
    then keepLatest ts (JsMap.get latest k) reading
    else JsMap.get latest k.
Proof.
  unfold latestStep.
  destruct (bool_decide_reflect (key reading = k)) as [<-|Hne].
  - destruct (JsMap.get latest (key reading)) as [e|] eqn:He; cbn.
    + destruct (ts reading >? ts e)%Z.
      * by rewrite JsMap_get_set, bool_decide_eq_true_2.
      * done.
    + by rewrite JsMap_get_set, bool_decide_eq_true_2.
  - destruct (JsMap.get latest (key reading)) as [e|] eqn:He.
    + destruct (ts reading >? ts e)%Z; [|done].
      by rewrite JsMap_get_set, bool_decide_eq_false_2.
    + by rewrite JsMap_get_set, bool_decide_eq_false_2.
Qed.

Lemma latestStep_NoDup (latest : list (string * R)) (reading : R) :
  NoDup latest.*1 -> NoDup (latestStep key ts latest reading).*1.
Proof.
  intros Hnd. unfold latestStep.
  destruct (JsMap.get latest (key reading)) as [e|].
  - destruct (ts reading >? ts e)%Z; [by apply JsMap_set_NoDup|done].
  - by apply JsMap_set_NoDup.
Qed.

Lemma latest_NoDup (readings : list R) (latest : list (string * R)) :
  NoDup latest.*1 -> NoDup (fold_left (latestStep key ts) readings latest).*1.
Proof.
  revert latest. induction readings as [|r readings IH]; intros latest Hnd.
  - done.
  - cbn. apply IH. by apply latestStep_NoDup.
Qed.

Lemma latest_get (readings : list R) (latest : list (string * R)) (k : string) :
  JsMap.get (fold_left (latestStep key ts) readings latest) k
  = fold_left (keepLatest ts) (readingsOf key k readings) (JsMap.get latest k).
Proof.
  revert latest. induction readings as [|r readings IH]; intros latest.
  - done.
  - cbn [fold_left]. rewrite IH, latestStep_get. unfold readingsOf. cbn.
    by destruct (bool_decide (key r = k)).
Qed.

(** The entry kept for a device is the first of its newest readings. *)
Lemma keepLatest_firstOfNewest (rs : list R) :
  match fold_left (keepLatest ts) rs None with
  | Some w => firstOfNewest ts w rs
  | None => rs = []
  end.
Proof.
  induction rs as [|r rs IH] using rev_ind; [done|].
  rewrite fold_left_app. cbn [fold_left].
  destruct (fold_left (keepLatest ts) rs None) as [w|]; cbn.
  - destruct IH as (before & after & -> & Hb & Ha).
    destruct (Z.gtb_spec (ts r) (ts w)) as [Hgt|Hle].
    + exists (before ++ w :: after), []. split; [done|].
      split; [|constructor].
      apply Forall_app. split.
      * eapply Forall_impl; [exact Hb|]. cbn. lia.
      * constructor; [lia|]. eapply Forall_impl; [exact Ha|]. cbn. lia.
    + exists before, (after ++ [r]). split; [by rewrite <- app_assoc|].
      split; [done|]. apply Forall_app. split; [done|].
      constructor; [lia|constructor].
  - subst rs. exists [], []. by repeat split; constructor.
Qed.

Lemma firstOfNewest_elem w rs : firstOfNewest ts w rs -> w ∈ rs.
Proof.
  intros (before & after & -> & _). apply elem_of_app. right.
  apply list_elem_of_here.
Qed.

Lemma firstOfNewest_max w rs :
  firstOfNewest ts w rs -> Forall (fun r => (ts r <= ts w)%Z) rs.
Proof.
  intros (before & after & -> & Hb & Ha). apply Forall_app. split.
  - eapply Forall_impl; [exact Hb|]. cbn. lia.
  - constructor; [lia|done].
Qed.
End ReductionFacts.

(** ** Maximum of a list of timestamps *)

Lemma fold_left_max_spec (l : list Z) (t : Z) :
  let m := fold_left Z.max l t in
  m ∈ t :: l /\ Forall (fun s => (s <= m)%Z) (t :: l).
Proof.
  revert t. induction l as [|x l IH]; intros t; cbn.
  - split; [apply list_elem_of_here|]. constructor; [lia|constructor].
  - destruct (IH (Z.max t x)) as [Hin Hall]. cbn in Hin, Hall. split.
    + apply elem_of_cons in Hin as [Heq|Hin].
      * rewrite Heq. destruct (Z.max_spec t x) as [[_ ->]|[_ ->]].
        -- apply list_elem_of_further, list_elem_of_here.
        -- apply list_elem_of_here.
      * by do 2 apply list_elem_of_further.
    + inversion Hall as [|? ? Hm Hl]; subst.
      constructor; [lia|]. constructor; [lia|done].
Qed.

Lemma maximum_Some (l : list Z) (t : Z) :
  maximum l = Some t <-> t ∈ l /\ Forall (fun s => (s <= t)%Z) l.
Proof.
  destruct l as [|x l]; cbn.
  - split; [done|]. intros [Hin _]. by apply elem_of_nil in Hin.
  - pose proof (fold_left_max_spec l x) as [Hin Hall]. cbn in Hin, Hall.
    split.
    + intros [= <-]. done.
    + intros [Hin' Hall']. f_equal.
      rewrite Forall_forall in Hall, Hall'.
      apply Z.le_antisymm.
      * by apply Hall'.
      * by apply Hall.
Qed.

Lemma maximum_None (l : list Z) : maximum l = None <-> l = [].
Proof. by destruct l. Qed.

Lemma maximum_app_newer (seen c : list Z) (t : Z) :
  maximum c = Some t ->
  Forall (fun s => (s <= t)%Z) seen ->
  maximum (seen ++ c) = Some t.
Proof.
  intros [Hin Hall]%maximum_Some Hseen. apply maximum_Some. split.
  - apply elem_of_app. by right.
  - apply Forall_app. by split.
Qed.

(** ** Readings of one device *)

Lemma readingsOf_app {R : Type} (key : R -> string) (k : string)
  (l1 l2 : list R) :
  readingsOf key k (l1 ++ l2) = readingsOf key k l1 ++ readingsOf key k l2.
Proof. apply List.filter_app. Qed.

Lemma readingsOf_key {R : Type} (key : R -> string) (k : string)
  (l : list R) (r : R) :
  r ∈ readingsOf key k l <-> r ∈ l /\ key r = k.
Proof.
  unfold readingsOf. rewrite !list_elem_of_In, filter_In.
  by rewrite bool_decide_eq_true.
Qed.


(** ** The winner of a reduction under permutation *)

Section WinnerFacts.
Context {R : Type} (ts : R -> Z).

Lemma keepLatest_winner (rs : list R) :
  rs <> [] ->
  exists w,
    fold_left (keepLatest ts) rs None = Some w /\ firstOfNewest ts w rs.
Proof.
  intros Hne. pose proof (keepLatest_firstOfNewest ts rs) as H.
  destruct (fold_left (keepLatest ts) rs None) as [w|]; [by exists w|done].
Qed.

Lemma firstOfNewest_perm_ts (rs rs' : list R) (w w' : R) :
  Permutation rs rs' ->
  firstOfNewest ts w rs -> firstOfNewest ts w' rs' -> ts w = ts w'.
Proof.
  intros Hp Hw Hw'.
  pose proof (firstOfNewest_elem ts _ _ Hw) as Hin.
  pose proof (firstOfNewest_elem ts _ _ Hw') as Hin'.
  pose proof (firstOfNewest_max ts _ _ Hw) as Hmax.
  pose proof (firstOfNewest_max ts _ _ Hw') as Hmax'.
  rewrite Forall_forall in Hmax, Hmax'.
  apply Z.le_antisymm.
  - apply Hmax'. by rewrite <- Hp.
  - apply Hmax. by rewrite Hp.
Qed.

Lemma firstOfNewest_perm_unique (rs rs' : list R) (w w' : R) :
  Permutation rs rs' -> newestUnique ts rs ->
  firstOfNewest ts w rs -> firstOfNewest ts w' rs' -> w = w'.
Proof.
  intros Hp Huniq Hw Hw'. apply Huniq.
  - by eapply firstOfNewest_elem.
  - rewrite Hp. by eapply firstOfNewest_elem.
  - by apply firstOfNewest_max.
  - rewrite Hp. by apply firstOfNewest_max.
Qed.

Lemma keepLatest_maximum (rs : list R) :
  ts <$> fold_left (keepLatest ts) rs None = maximum (ts <$> rs).
Proof.
  pose proof (keepLatest_firstOfNewest ts rs) as H.
  destruct (fold_left (keepLatest ts) rs None) as [w|]; cbn.
  - symmetry. apply maximum_Some. split.
    + apply list_elem_of_fmap. exists w. split; [done|].
      by eapply firstOfNewest_elem.
    + apply Forall_fmap. by apply firstOfNewest_max.
  - by rewrite H.
Qed.
End WinnerFacts.

(** ** The write paths on the meter tables *)

Lemma meter_upsert_hot meterId db :
  meterCurrentState (meter_upsert meterId db) = meterCurrentState db
  /\ vehicleCurrentState (meter_upsert meterId db) = vehicleCurrentState db
  /\ meterReading (meter_upsert meterId db) = meterReading db
  /\ vehicleReading (meter_upsert meterId db) = vehicleReading db
  /\ vehicle (meter_upsert meterId db) = vehicle db.
Proof. unfold meter_upsert. destruct (meter db !! meterId); auto. Qed.

Lemma ingestMeterTelemetry_state dto db :
  meterCurrentState (fst (ingestMeterTelemetry dto db))
  = <[MeterTelemetryDto.meterId dto :=
        meterRowOf (MeterTelemetryDto.meterId dto) dto]>
      (meterCurrentState db).
Proof.
  unfold ingestMeterTelemetry. cbn.
  by destruct (meter_upsert_hot (MeterTelemetryDto.meterId dto) db)
    as (-> & _).
Qed.

Lemma meter_upserts_tables (ids : list string) (db : Store) :
  let db' := fold_left (fun d meterId => meter_upsert meterId d) ids db in
  meterCurrentState db' = meterCurrentState db
  /\ vehicleCurrentState db' = vehicleCurrentState db
  /\ meterReading db' = meterReading db
  /\ vehicleReading db' = vehicleReading db.
Proof.
  revert db. induction ids as [|k ids IH]; intros db; [done|].
  cbn [fold_left]. destruct (IH (meter_upsert k db)) as (-> & -> & -> & ->).
  by destruct (meter_upsert_hot k db) as (-> & -> & -> & -> & _).
Qed.

Lemma meterReading_create_timestamps dto db k :
  meterTimestamps k (fst (meterReading_create dto db))
  = meterTimestamps k db
    ++ (MeterTelemetryDto.timestamp
          <$> readingsOf MeterTelemetryDto.meterId k [dto]).
Proof.
  unfold meterTimestamps. cbn [meterReading_create fst meterReading].
  rewrite readingsOf_app, fmap_app. f_equal.
  unfold readingsOf. cbn.
  by destruct (bool_decide (MeterTelemetryDto.meterId dto = k)).
Qed.

Lemma meterReading_createMany_tables (data : list MeterTelemetryDto.t)
  (db : Store) :
  let db' := meterReading_createMany data db in
  meterCurrentState db' = meterCurrentState db
  /\ vehicleCurrentState db' = vehicleCurrentState db
  /\ vehicleReading db' = vehicleReading db
  /\ forall k,
       meterTimestamps k db'
       = meterTimestamps k db
         ++ (MeterTelemetryDto.timestamp
               <$> readingsOf MeterTelemetryDto.meterId k data).
Proof.
  revert db. induction data as [|dto data IH]; intros db.
  - cbn. repeat split; try done. intros k. by rewrite app_nil_r.
  - unfold meterReading_createMany in *. cbn [fold_left].
    destruct (IH (fst (meterReading_create dto db))) as (-> & -> & -> & Hts).
    repeat split; try done. intros k.
    rewrite Hts, meterReading_create_timestamps, <- app_assoc, <- fmap_app.
    by rewrite <- readingsOf_app.
Qed.

Lemma meterState_upserts_tables
  (latest : list (string * MeterTelemetryDto.t)) (db : Store) :
  let db' :=
    fold_left
      (fun d '(meterId, r) => meterCurrentState_upsert meterId r d)
      latest db in
  vehicleCurrentState db' = vehicleCurrentState db
  /\ vehicleReading db' = vehicleReading db
  /\ meterReading db' = meterReading db.
Proof.
  revert db. induction latest as [|[k r] latest IH]; intros db; [done|].
  cbn [fold_left].
  by destruct (IH (meterCurrentState_upsert k r db)) as (-> & -> & ->).
Qed.

Lemma meterState_upserts_lookup
  (latest : list (string * MeterTelemetryDto.t)) (db : Store) (k : string) :
  NoDup latest.*1 ->
  meterCurrentState
    (fold_left
       (fun d '(meterId, r) => meterCurrentState_upsert meterId r d)
       latest db) !! k
  = match JsMap.get latest k with
    | Some r => Some (meterRowOf k r)
    | None => meterCurrentState db !! k
    end.
Proof.
  revert db. induction latest as [|[k0 r0] latest IH]; intros db Hnd; [done|].
  cbn [fold_left JsMap.get]. cbn in Hnd. apply NoDup_cons in Hnd as [Hk0 Hnd].
  rewrite IH by done.
  destruct (bool_decide_reflect (k0 = k)) as [->|Hne].
  - rewrite JsMap_get_None by done. cbn. by rewrite lookup_insert_eq.
  - destruct (JsMap.get latest k); [done|]. cbn. by rewrite lookup_insert_ne.
Qed.

Lemma batchIngestMeterTelemetry_state readings db k :
  meterCurrentState (fst (batchIngestMeterTelemetry readings db)) !! k
  = match fold_left (keepLatest MeterTelemetryDto.timestamp)
            (readingsOf MeterTelemetryDto.meterId k readings) None with
    | Some w => Some (meterRowOf k w)
    | None => meterCurrentState db !! k
    end.
Proof.
  unfold batchIngestMeterTelemetry. cbn [fst].
  change (fold_left latestByMeterStep readings [])
    with (fold_left
            (latestStep MeterTelemetryDto.meterId
               MeterTelemetryDto.timestamp)
            readings []).
  rewrite meterState_upserts_lookup by (apply latest_NoDup; constructor).
  rewrite latest_get. cbn [JsMap.get].
  destruct (fold_left _ (readingsOf _ k readings) None); [done|].
  destruct (meterReading_createMany_tables readings
              (fold_left (fun d meterId => meter_upsert meterId d)
                 (jsSetOf (map MeterTelemetryDto.meterId readings)) db))
    as (-> & _).
  by destruct (meter_upserts_tables
                 (jsSetOf (map MeterTelemetryDto.meterId readings)) db)
    as (-> & _).
Qed.

Lemma batchIngestMeterTelemetry_tables readings db :
  let db' := fst (batchIngestMeterTelemetry readings db) in
  vehicleCurrentState db' = vehicleCurrentState db
  /\ vehicleReading db' = vehicleReading db
  /\ forall k,
       meterTimestamps k db'
       = meterTimestamps k db
         ++ (MeterTelemetryDto.timestamp
               <$> readingsOf MeterTelemetryDto.meterId k readings).
Proof.
  unfold batchIngestMeterTelemetry. cbn [fst].
  set (db1 := fold_left (fun d meterId => meter_upsert meterId d)
                (jsSetOf (map MeterTelemetryDto.meterId readings)) db).
  set (db2 := meterReading_createMany readings db1).
  destruct (meterState_upserts_tables
              (fold_left latestByMeterStep readings []) db2)
    as (Ha & Hb & Hc).
  destruct (meterReading_createMany_tables readings db1)
    as (_ & Hd & He & Hf).
  destruct (meter_upserts_tables
              (jsSetOf (map MeterTelemetryDto.meterId readings)) db)
    as (_ & Hg & Hh & Hi).
  fold db1 in Hg, Hh, Hi. fold db2 in Hd, He, Hf.
  split; [congruence|]. split; [congruence|].
  intros k. unfold meterTimestamps at 1. rewrite Hc.
  fold (meterTimestamps k db2). rewrite Hf. unfold meterTimestamps.
  by rewrite Hh.
Qed.

Lemma ingestMeterTelemetry_tables dto db :
  let db' := fst (ingestMeterTelemetry dto db) in
  vehicleCurrentState db' = vehicleCurrentState db
  /\ vehicleReading db' = vehicleReading db
  /\ forall k,
       meterTimestamps k db'
       = meterTimestamps k db
         ++ (MeterTelemetryDto.timestamp
               <$> readingsOf MeterTelemetryDto.meterId k [dto]).
Proof.
  unfold ingestMeterTelemetry. cbn.
  destruct (meter_upsert_hot (MeterTelemetryDto.meterId dto) db)
    as (_ & Hb & Hc & Hd & _).
  split; [done|]. split; [done|]. intros k.
  pose proof (meterReading_create_timestamps dto
                (meter_upsert (MeterTelemetryDto.meterId dto) db) k) as H.
  unfold meterTimestamps in *. cbn in H. rewrite H. by rewrite Hc.
Qed.

Lemma batchIngestMeterTelemetry_winner readings db k :
  k ∈ MeterTelemetryDto.meterId <$> readings ->
  exists w,
    firstOfNewest MeterTelemetryDto.timestamp w
      (readingsOf MeterTelemetryDto.meterId k readings)
    /\ meterCurrentState (fst (batchIngestMeterTelemetry readings db)) !! k
       = Some (meterRowOf k w)
    /\ meterCurrentState (fst (ingestMeterTelemetry w db)) !! k
       = Some (meterRowOf k w).
Proof.
  intros (r & -> & Hr)%list_elem_of_fmap.
  destruct (keepLatest_winner MeterTelemetryDto.timestamp
              (readingsOf MeterTelemetryDto.meterId
                 (MeterTelemetryDto.meterId r) readings))
    as (w & Hfold & Hw).
  { intros Hnil.
    assert (Hin : r ∈ readingsOf MeterTelemetryDto.meterId
                    (MeterTelemetryDto.meterId r) readings)
      by by apply readingsOf_key.
    rewrite Hnil in Hin. by apply elem_of_nil in Hin. }
  exists w. split; [done|].
  rewrite batchIngestMeterTelemetry_state, Hfold. split; [done|].
  pose proof (firstOfNewest_elem _ _ _ Hw) as [_ Hkey]%readingsOf_key.
  rewrite ingestMeterTelemetry_state, Hkey. by rewrite lookup_insert_eq.
Qed.

Lemma batchIngestMeterTelemetry_perm readings readings' db k :
  Permutation (readingsOf MeterTelemetryDto.meterId k readings)
    (readingsOf MeterTelemetryDto.meterId k readings') ->
  let before :=
    meterCurrentState (fst (batchIngestMeterTelemetry readings db)) in
  let after :=
    meterCurrentState (fst (batchIngestMeterTelemetry readings' db)) in
  (MeterCurrentState.lastTimestamp <$> before !! k
   = MeterCurrentState.lastTimestamp <$> after !! k)
  /\ (newestUnique MeterTelemetryDto.timestamp
        (readingsOf MeterTelemetryDto.meterId k readings) ->
      before !! k = after !! k).
Proof.
  intros Hp before after. unfold before, after.
  rewrite !batchIngestMeterTelemetry_state.
  pose proof (keepLatest_firstOfNewest MeterTelemetryDto.timestamp
                (readingsOf MeterTelemetryDto.meterId k readings)) as Hw.
  pose proof (keepLatest_firstOfNewest MeterTelemetryDto.timestamp
                (readingsOf MeterTelemetryDto.meterId k readings')) as Hw'.
  destruct (fold_left _ (readingsOf _ k readings) None) as [w|];
    destruct (fold_left _ (readingsOf _ k readings') None) as [w'|].
  - split.
    + cbn. f_equal. by eapply firstOfNewest_perm_ts.
    + intros Huniq. do 2 f_equal. by eapply firstOfNewest_perm_unique.
  - rewrite Hw' in Hp. apply Permutation_nil_r in Hp.
    apply firstOfNewest_elem in Hw. rewrite Hp in Hw.
    by apply elem_of_nil in Hw.
  - rewrite Hw in Hp. apply Permutation_nil in Hp.
    apply firstOfNewest_elem in Hw'. rewrite Hp in Hw'.
    by apply elem_of_nil in Hw'.
  - done.
Qed.

(** What one call does to the row and to the accepted timestamps of a
    meter. *)
Lemma perform_IngestMeter_meter dto db k :
  (MeterCurrentState.lastTimestamp
     <$> meterCurrentState (perform (IngestMeter dto) db) !! k
   = match maximum (carriedForMeter k (IngestMeter dto)) with
     | Some t => Some t
     | None => MeterCurrentState.lastTimestamp <$> meterCurrentState db !! k
     end)
  /\ meterTimestamps k (perform (IngestMeter dto) db)
     = meterTimestamps k db ++ carriedForMeter k (IngestMeter dto).
Proof.
  cbn [perform carriedForMeter]. split.
  - rewrite ingestMeterTelemetry_state. unfold readingsOf. cbn.
    destruct (bool_decide_reflect (MeterTelemetryDto.meterId dto = k))
      as [->|Hne]; cbn.
    + by rewrite lookup_insert_eq.
    + by rewrite lookup_insert_ne.
  - by destruct (ingestMeterTelemetry_tables dto db) as (_ & _ & ->).
Qed.

Lemma perform_BatchIngestMeter_meter readings db k :
  (MeterCurrentState.lastTimestamp
     <$> meterCurrentState (perform (BatchIngestMeter readings) db) !! k
   = match maximum (carriedForMeter k (BatchIngestMeter readings)) with
     | Some t => Some t
     | None => MeterCurrentState.lastTimestamp <$> meterCurrentState db !! k
     end)
  /\ meterTimestamps k (perform (BatchIngestMeter readings) db)
     = meterTimestamps k db
       ++ carriedForMeter k (BatchIngestMeter readings).
Proof.
  cbn [perform carriedForMeter]. split.
  - rewrite batchIngestMeterTelemetry_state, <- keepLatest_maximum.
    by destruct (fold_left _ (readingsOf _ k readings) None).
  - by destruct (batchIngestMeterTelemetry_tables readings db)
      as (_ & _ & ->).
Qed.

Lemma perform_IngestMeter_vehicle dto db k :
  (VehicleCurrentState.lastTimestamp
     <$> vehicleCurrentState (perform (IngestMeter dto) db) !! k
   = match maximum (carriedForVehicle k (IngestMeter dto)) with
     | Some t => Some t
     | None =>
         VehicleCurrentState.lastTimestamp <$> vehicleCurrentState db !! k
     end)
  /\ vehicleTimestamps k (perform (IngestMeter dto) db)
     = vehicleTimestamps k db ++ carriedForVehicle k (IngestMeter dto).
Proof.
  cbn [perform carriedForVehicle maximum]. unfold vehicleTimestamps.
  destruct (ingestMeterTelemetry_tables dto db) as (-> & -> & _).
  by rewrite app_nil_r.
Qed.

Lemma perform_BatchIngestMeter_vehicle readings db k :
  (VehicleCurrentState.lastTimestamp
     <$> vehicleCurrentState (perform (BatchIngestMeter readings) db) !! k
   = match maximum (carriedForVehicle k (BatchIngestMeter readings)) with
     | Some t => Some t
     | None =>
         VehicleCurrentState.lastTimestamp <$> vehicleCurrentState db !! k
     end)
  /\ vehicleTimestamps k (perform (BatchIngestMeter readings) db)
     = vehicleTimestamps k db
       ++ carriedForVehicle k (BatchIngestMeter readings).
Proof.
  cbn [perform carriedForVehicle maximum]. unfold vehicleTimestamps.
  destruct (batchIngestMeterTelemetry_tables readings db) as (-> & -> & _).
  by rewrite app_nil_r.
Qed.

(** ** The write paths on the vehicle tables *)

Lemma vehicle_upsert_hot vehicleId db :
  vehicleCurrentState (vehicle_upsert vehicleId db) = vehicleCurrentState db
  /\ meterCurrentState (vehicle_upsert vehicleId db) = meterCurrentState db
  /\ vehicleReading (vehicle_upsert vehicleId db) = vehicleReading db
  /\ meterReading (vehicle_upsert vehicleId db) = meterReading db
  /\ meter (vehicle_upsert vehicleId db) = meter db.
Proof. unfold vehicle_upsert. destruct (vehicle db !! vehicleId); auto. Qed.

Lemma ingestVehicleTelemetry_state dto db :
  vehicleCurrentState (fst (ingestVehicleTelemetry dto db))
  = <[VehicleTelemetryDto.vehicleId dto :=
        vehicleRowOf (VehicleTelemetryDto.vehicleId dto) dto]>
      (vehicleCurrentState db).
Proof.
  unfold ingestVehicleTelemetry. cbn.
  by destruct (vehicle_upsert_hot (VehicleTelemetryDto.vehicleId dto) db)
    as (-> & _).
Qed.

Lemma vehicle_upserts_tables (ids : list string) (db : Store) :
  let db' := fold_left (fun d vehicleId => vehicle_upsert vehicleId d) ids db in
  vehicleCurrentState db' = vehicleCurrentState db
  /\ meterCurrentState db' = meterCurrentState db
  /\ vehicleReading db' = vehicleReading db
  /\ meterReading db' = meterReading db.
Proof.
  revert db. induction ids as [|k ids IH]; intros db; [done|].
  cbn [fold_left]. destruct (IH (vehicle_upsert k db)) as (-> & -> & -> & ->).
  by destruct (vehicle_upsert_hot k db) as (-> & -> & -> & -> & _).
Qed.

Lemma vehicleReading_create_timestamps dto db k :
  vehicleTimestamps k (fst (vehicleReading_create dto db))
  = vehicleTimestamps k db
    ++ (VehicleTelemetryDto.timestamp
          <$> readingsOf VehicleTelemetryDto.vehicleId k [dto]).
Proof.
  unfold vehicleTimestamps. cbn [vehicleReading_create fst vehicleReading].
  rewrite readingsOf_app, fmap_app. f_equal.
  unfold readingsOf. cbn.
  by destruct (bool_decide (VehicleTelemetryDto.vehicleId dto = k)).
Qed.

Lemma vehicleReading_createMany_tables (data : list VehicleTelemetryDto.t)
  (db : Store) :
  let db' := vehicleReading_createMany data db in
  vehicleCurrentState db' = vehicleCurrentState db
  /\ meterCurrentState db' = meterCurrentState db
  /\ meterReading db' = meterReading db
  /\ forall k,
       vehicleTimestamps k db'
       = vehicleTimestamps k db
         ++ (VehicleTelemetryDto.timestamp
               <$> readingsOf VehicleTelemetryDto.vehicleId k data).
Proof.
  revert db. induction data as [|dto data IH]; intros db.
  - cbn. repeat split; try done. intros k. by rewrite app_nil_r.
  - unfold vehicleReading_createMany in *. cbn [fold_left].
    destruct (IH (fst (vehicleReading_create dto db))) as (-> & -> & -> & Hts).
    repeat split; try done. intros k.
    rewrite Hts, vehicleReading_create_timestamps, <- app_assoc, <- fmap_app.
    by rewrite <- readingsOf_app.
Qed.

Lemma vehicleState_upserts_tables
  (latest : list (string * VehicleTelemetryDto.t)) (db : Store) :
  let db' :=
    fold_left
      (fun d '(vehicleId, r) => vehicleCurrentState_upsert vehicleId r d)
      latest db in
  meterCurrentState db' = meterCurrentState db
  /\ meterReading db' = meterReading db
  /\ vehicleReading db' = vehicleReading db.
Proof.
  revert db. induction latest as [|[k r] latest IH]; intros db; [done|].
  cbn [fold_left].
  by destruct (IH (vehicleCurrentState_upsert k r db)) as (-> & -> & ->).
Qed.

Lemma vehicleState_upserts_lookup
  (latest : list (string * VehicleTelemetryDto.t)) (db : Store) (k : string) :
  NoDup latest.*1 ->
  vehicleCurrentState
    (fold_left
       (fun d '(vehicleId, r) => vehicleCurrentState_upsert vehicleId r d)
       latest db) !! k
  = match JsMap.get latest k with
    | Some r => Some (vehicleRowOf k r)
    | None => vehicleCurrentState db !! k
    end.
Proof.
  revert db. induction latest as [|[k0 r0] latest IH]; intros db Hnd; [done|].
  cbn [fold_left JsMap.get]. cbn in Hnd. apply NoDup_cons in Hnd as [Hk0 Hnd].
  rewrite IH by done.
  destruct (bool_decide_reflect (k0 = k)) as [->|Hne].
  - rewrite JsMap_get_None by done. cbn. by rewrite lookup_insert_eq.
  - destruct (JsMap.get latest k); [done|]. cbn. by rewrite lookup_insert_ne.
Qed.

Lemma batchIngestVehicleTelemetry_state readings db k :
  vehicleCurrentState (fst (batchIngestVehicleTelemetry readings db)) !! k
  = match fold_left (keepLatest VehicleTelemetryDto.timestamp)
            (readingsOf VehicleTelemetryDto.vehicleId k readings) None with
    | Some w => Some (vehicleRowOf k w)
    | None => vehicleCurrentState db !! k
    end.
Proof.
  unfold batchIngestVehicleTelemetry. cbn [fst].
  change (fold_left latestByVehicleStep readings [])
    with (fold_left
            (latestStep VehicleTelemetryDto.vehicleId
               VehicleTelemetryDto.timestamp)
            readings []).
  rewrite vehicleState_upserts_lookup by (apply latest_NoDup; constructor).
  rewrite latest_get. cbn [JsMap.get].
  destruct (fold_left _ (readingsOf _ k readings) None); [done|].
  destruct (vehicleReading_createMany_tables readings
              (fold_left (fun d vehicleId => vehicle_upsert vehicleId d)
                 (jsSetOf (map VehicleTelemetryDto.vehicleId readings)) db))
    as (-> & _).
  by destruct (vehicle_upserts_tables
                 (jsSetOf (map VehicleTelemetryDto.vehicleId readings)) db)
    as (-> & _).
Qed.

Lemma batchIngestVehicleTelemetry_tables readings db :
  let db' := fst (batchIngestVehicleTelemetry readings db) in
  meterCurrentState db' = meterCurrentState db
  /\ meterReading db' = meterReading db
  /\ forall k,
       vehicleTimestamps k db'
       = vehicleTimestamps k db
         ++ (VehicleTelemetryDto.timestamp
               <$> readingsOf VehicleTelemetryDto.vehicleId k readings).
Proof.
  unfold batchIngestVehicleTelemetry. cbn [fst].
  set (db1 := fold_left (fun d vehicleId => vehicle_upsert vehicleId d)
                (jsSetOf (map VehicleTelemetryDto.vehicleId readings)) db).
  set (db2 := vehicleReading_createMany readings db1).
  destruct (vehicleState_upserts_tables
              (fold_left latestByVehicleStep readings []) db2)
    as (Ha & Hb & Hc).
  destruct (vehicleReading_createMany_tables readings db1)
    as (_ & Hd & He & Hf).
  destruct (vehicle_upserts_tables
              (jsSetOf (map VehicleTelemetryDto.vehicleId readings)) db)
    as (_ & Hg & Hh & Hi).
  fold db1 in Hg, Hh, Hi. fold db2 in Hd, He, Hf.
  split; [congruence|]. split; [congruence|].
  intros k. unfold vehicleTimestamps at 1. rewrite Hc.
  fold (vehicleTimestamps k db2). rewrite Hf. unfold vehicleTimestamps.
  by rewrite Hh.
Qed.

Lemma ingestVehicleTelemetry_tables dto db :
  let db' := fst (ingestVehicleTelemetry dto db) in
  meterCurrentState db' = meterCurrentState db
  /\ meterReading db' = meterReading db
  /\ forall k,
       vehicleTimestamps k db'
       = vehicleTimestamps k db
         ++ (VehicleTelemetryDto.timestamp
               <$> readingsOf VehicleTelemetryDto.vehicleId k [dto]).
Proof.
  unfold ingestVehicleTelemetry. cbn.
  destruct (vehicle_upsert_hot (VehicleTelemetryDto.vehicleId dto) db)
    as (_ & Hb & Hc & Hd & _).
  split; [done|]. split; [done|]. intros k.
  pose proof (vehicleReading_create_timestamps dto
                (vehicle_upsert (VehicleTelemetryDto.vehicleId dto) db) k) as H.
  unfold vehicleTimestamps in *. cbn in H. rewrite H. by rewrite Hc.
Qed.

Lemma batchIngestVehicleTelemetry_winner readings db k :
  k ∈ VehicleTelemetryDto.vehicleId <$> readings ->
  exists w,
    firstOfNewest VehicleTelemetryDto.timestamp w
      (readingsOf VehicleTelemetryDto.vehicleId k readings)
    /\ vehicleCurrentState (fst (batchIngestVehicleTelemetry readings db)) !! k
       = Some (vehicleRowOf k w)
    /\ vehicleCurrentState (fst (ingestVehicleTelemetry w db)) !! k
       = Some (vehicleRowOf k w).
Proof.
  intros (r & -> & Hr)%list_elem_of_fmap.
  destruct (keepLatest_winner VehicleTelemetryDto.timestamp
              (readingsOf VehicleTelemetryDto.vehicleId
                 (VehicleTelemetryDto.vehicleId r) readings))
    as (w & Hfold & Hw).
  { intros Hnil.
    assert (Hin : r ∈ readingsOf VehicleTelemetryDto.vehicleId
                    (VehicleTelemetryDto.vehicleId r) readings)
      by by apply readingsOf_key.
    rewrite Hnil in Hin. by apply elem_of_nil in Hin. }
  exists w. split; [done|].
  rewrite batchIngestVehicleTelemetry_state, Hfold. split; [done|].
  pose proof (firstOfNewest_elem _ _ _ Hw) as [_ Hkey]%readingsOf_key.
  rewrite ingestVehicleTelemetry_state, Hkey. by rewrite lookup_insert_eq.
Qed.

Lemma batchIngestVehicleTelemetry_perm readings readings' db k :
  Permutation (readingsOf VehicleTelemetryDto.vehicleId k readings)
    (readingsOf VehicleTelemetryDto.vehicleId k readings') ->
  let before :=
    vehicleCurrentState (fst (batchIngestVehicleTelemetry readings db)) in
  let after :=
    vehicleCurrentState (fst (batchIngestVehicleTelemetry readings' db)) in
  (VehicleCurrentState.lastTimestamp <$> before !! k
   = VehicleCurrentState.lastTimestamp <$> after !! k)
  /\ (newestUnique VehicleTelemetryDto.timestamp
        (readingsOf VehicleTelemetryDto.vehicleId k readings) ->
      before !! k = after !! k).
Proof.
  intros Hp before after. unfold before, after.
  rewrite !batchIngestVehicleTelemetry_state.
  pose proof (keepLatest_firstOfNewest VehicleTelemetryDto.timestamp
                (readingsOf VehicleTelemetryDto.vehicleId k readings)) as Hw.
  pose proof (keepLatest_firstOfNewest VehicleTelemetryDto.timestamp
                (readingsOf VehicleTelemetryDto.vehicleId k readings')) as Hw'.
  destruct (fold_left _ (readingsOf _ k readings) None) as [w|];
    destruct (fold_left _ (readingsOf _ k readings') None) as [w'|].
  - split.
    + cbn. f_equal. by eapply firstOfNewest_perm_ts.
    + intros Huniq. do 2 f_equal. by eapply firstOfNewest_perm_unique.
  - rewrite Hw' in Hp. apply Permutation_nil_r in Hp.
    apply firstOfNewest_elem in Hw. rewrite Hp in Hw.
    by apply elem_of_nil in Hw.
  - rewrite Hw in Hp. apply Permutation_nil in Hp.
    apply firstOfNewest_elem in Hw'. rewrite Hp in Hw'.
    by apply elem_of_nil in Hw'.
  - done.
Qed.

(** What one call does to the row and to the accepted timestamps of a
    vehicle. *)
Lemma perform_IngestVehicle_vehicle dto db k :
  (VehicleCurrentState.lastTimestamp
     <$> vehicleCurrentState (perform (IngestVehicle dto) db) !! k
   = match maximum (carriedForVehicle k (IngestVehicle dto)) with
     | Some t => Some t
     | None => VehicleCurrentState.lastTimestamp <$> vehicleCurrentState db !! k
     end)
  /\ vehicleTimestamps k (perform (IngestVehicle dto) db)
     = vehicleTimestamps k db ++ carriedForVehicle k (IngestVehicle dto).
Proof.
  cbn [perform carriedForVehicle]. split.
  - rewrite ingestVehicleTelemetry_state. unfold readingsOf. cbn.
    destruct (bool_decide_reflect (VehicleTelemetryDto.vehicleId dto = k))
      as [->|Hne]; cbn.
    + by rewrite lookup_insert_eq.
    + by rewrite lookup_insert_ne.
  - by destruct (ingestVehicleTelemetry_tables dto db) as (_ & _ & ->).
Qed.

Lemma perform_BatchIngestVehicle_vehicle readings db k :
  (VehicleCurrentState.lastTimestamp
     <$> vehicleCurrentState (perform (BatchIngestVehicle readings) db) !! k
   = match maximum (carriedForVehicle k (BatchIngestVehicle readings)) with
     | Some t => Some t
     | None => VehicleCurrentState.lastTimestamp <$> vehicleCurrentState db !! k
     end)
  /\ vehicleTimestamps k (perform (BatchIngestVehicle readings) db)
     = vehicleTimestamps k db
       ++ carriedForVehicle k (BatchIngestVehicle readings).
Proof.
  cbn [perform carriedForVehicle]. split.
  - rewrite batchIngestVehicleTelemetry_state, <- keepLatest_maximum.
    by destruct (fold_left _ (readingsOf _ k readings) None).
  - by destruct (batchIngestVehicleTelemetry_tables readings db)
      as (_ & _ & ->).
Qed.

Lemma perform_IngestVehicle_meter dto db k :
  (MeterCurrentState.lastTimestamp
     <$> meterCurrentState (perform (IngestVehicle dto) db) !! k
   = match maximum (carriedForMeter k (IngestVehicle dto)) with
     | Some t => Some t
     | None =>
         MeterCurrentState.lastTimestamp <$> meterCurrentState db !! k
     end)
  /\ meterTimestamps k (perform (IngestVehicle dto) db)
     = meterTimestamps k db ++ carriedForMeter k (IngestVehicle dto).
Proof.
  cbn [perform carriedForMeter maximum]. unfold meterTimestamps.
  destruct (ingestVehicleTelemetry_tables dto db) as (-> & -> & _).
  by rewrite app_nil_r.
Qed.

Lemma perform_BatchIngestVehicle_meter readings db k :
  (MeterCurrentState.lastTimestamp
     <$> meterCurrentState (perform (BatchIngestVehicle readings) db) !! k
   = match maximum (carriedForMeter k (BatchIngestVehicle readings)) with
     | Some t => Some t
     | None =>
         MeterCurrentState.lastTimestamp <$> meterCurrentState db !! k
     end)
  /\ meterTimestamps k (perform (BatchIngestVehicle readings) db)
     = meterTimestamps k db
       ++ carriedForMeter k (BatchIngestVehicle readings).
Proof.
  cbn [perform carriedForMeter maximum]. unfold meterTimestamps.
  destruct (batchIngestVehicleTelemetry_tables readings db) as (-> & -> & _).
  by rewrite app_nil_r.
Qed.

(** C4. A valid reading sent to the single-reading route is accepted, and
    the current state read back for its device carries exactly the submitted
    measurements, with [lastTimestamp] the submitted observation timestamp.
    The store before the call is arbitrary: a row already present for the
    device is replaced whatever its timestamp. *)
Theorem ingest_then_currentState
  (v : VehicleTelemetryDto.t) (m : MeterTelemetryDto.t) (db : Store) :
  validateVehicleTelemetry v = true ->
  validateMeterTelemetry m = true ->
  (exists db' res,
      IngestionController.ingestVehicleTelemetry v db = inr (db', res)
      /\ getCurrentState (VehicleTelemetryDto.vehicleId v) db'
         = inr (CurrentStateDto.mk
                  (VehicleTelemetryDto.vehicleId v)
                  (VehicleTelemetryDto.soc v)
                  (VehicleTelemetryDto.batteryTemp v)
                  (VehicleTelemetryDto.kwhDeliveredDc v)
                  (VehicleTelemetryDto.timestamp v)))
  /\ (exists db' res,
         IngestionController.ingestMeterTelemetry m db = inr (db', res)
         /\ meterCurrentState db' !! MeterTelemetryDto.meterId m
            = Some (MeterCurrentState.mk
                      (MeterTelemetryDto.meterId m)
                      (MeterTelemetryDto.kwhConsumedAc m)
                      (MeterTelemetryDto.voltage m)
                      (MeterTelemetryDto.timestamp m))).
Proof.
  intros Hv Hm. split.
  - exists (fst (ingestVehicleTelemetry v db)),
      (snd (ingestVehicleTelemetry v db)).
    split.
    + unfold IngestionController.ingestVehicleTelemetry. rewrite Hv.
      by destruct (ingestVehicleTelemetry v db).
    + unfold getCurrentState.
      by rewrite ingestVehicleTelemetry_state, lookup_insert_eq.
  - exists (fst (ingestMeterTelemetry m db)), (snd (ingestMeterTelemetry m db)).
    split.
    + unfold IngestionController.ingestMeterTelemetry. rewrite Hm.
      by destruct (ingestMeterTelemetry m db).
    + by rewrite ingestMeterTelemetry_state, lookup_insert_eq.
Qed.

Lemma ingest_then_currentState_witness :
  validateVehicleTelemetry
    (VehicleTelemetryDto.mk "VEH-001" 40 800 29 3600000) = true
  /\ validateMeterTelemetry
       (MeterTelemetryDto.mk "METER-001" 1000 230 3600000) = true
  /\ (exists db' res,
         IngestionController.ingestVehicleTelemetry
           (VehicleTelemetryDto.mk "VEH-001" 40 800 29 3600000) newerStore
         = inr (db', res)
         /\ getCurrentState "VEH-001" db'
            = inr (CurrentStateDto.mk "VEH-001" 40 29 800 3600000%Z))
  /\ (exists db' res,
         IngestionController.ingestMeterTelemetry
           (MeterTelemetryDto.mk "METER-001" 1000 230 3600000) newerStore
         = inr (db', res)
         /\ meterCurrentState db' !! "METER-001"
            = Some (MeterCurrentState.mk "METER-001" 1000 230 3600000%Z)).
Proof.
  split; [reflexivity|]. split; [reflexivity|].
  exact (ingest_then_currentState
           (VehicleTelemetryDto.mk "VEH-001" 40 800 29 3600000)
           (MeterTelemetryDto.mk "METER-001" 1000 230 3600000)
           newerStore eq_refl eq_refl).
Defined.

(** C7. Associating a vehicle that the store does not know fails with the
    store's record-not-found error, the form the not-found failure takes on
    this path.  For a known vehicle the call succeeds and the vehicle's
    meter reference becomes the given id, the other columns of the row, the
    other vehicles and the other tables being left as they were.  The meter
    table is never consulted: in the scenario store, which has no meter
    "METER-404", associating "VEH-001" with it succeeds and leaves the
    dangling reference. *)
Theorem associate_vehicle_with_meter :
  (forall (vehicleId meterId : string) (db : Store),
      match vehicle db !! vehicleId with
      | None =>
          associateVehicleWithMeter vehicleId meterId db
          = inl PrismaRecordNotFound
      | Some v =>
          exists db',
            associateVehicleWithMeter vehicleId meterId db = inr (db', true)
            /\ vehicle db' !! vehicleId
               = Some (Vehicle.mk (Vehicle.vehicleId v) (Vehicle.name v)
                         (Vehicle.batteryCapacity v) (Some meterId))
            /\ (forall other, other <> vehicleId ->
                  vehicle db' !! other = vehicle db !! other)
            /\ meter db' = meter db
            /\ meterReading db' = meterReading db
            /\ vehicleReading db' = vehicleReading db
            /\ meterCurrentState db' = meterCurrentState db
            /\ vehicleCurrentState db' = vehicleCurrentState db
      end)
  /\ meter scenarioStore !! "METER-404" = None
  /\ exists db',
       associateVehicleWithMeter "VEH-001" "METER-404" scenarioStore
       = inr (db', true)
       /\ Vehicle.meterId <$> vehicle db' !! "VEH-001"
          = Some (Some "METER-404")
       /\ meter db' !! "METER-404" = None.
Proof.
  split.
  - intros vehicleId meterId db.
    unfold associateVehicleWithMeter, vehicle_update_meterId.
    destruct (vehicle db !! vehicleId) as [v|] eqn:Hv; [|done].
    eexists; split; [done|]. cbn.
    split; [by rewrite lookup_insert_eq|].
    split; [|done].
    intros other Hne. by rewrite lookup_insert_ne.
  - split; [by vm_compute|].
    eexists. split; [by vm_compute|]. split; by vm_compute.
Qed.

(** C10. The batch operations accept an empty array: they return
    [count = 0] with no device id and leave the store, hence every reading
    and every current-state row, as it was. *)
Theorem batch_ingest_empty (db : Store) :
  batchIngestMeterTelemetry [] db = (db, mkBatchMeterResult true 0 [])
  /\ batchIngestVehicleTelemetry [] db = (db, mkBatchVehicleResult true 0 []).
Proof. split; reflexivity. Qed.

(** ** Numbers *)

Lemma Qltb_spec (x y : Q) : reflect (x < y) (Qltb x y).
Proof.
  unfold Qltb. destruct (Qle_bool y x) eqn:E; constructor.
  - apply Qle_bool_iff in E. lra.
  - apply Qnot_le_lt. intros H. apply Qle_bool_iff in H. congruence.
Qed.



Lemma round2_proper (x y : Q) : x == y -> round2 x == round2 y.
Proof. intros H. unfold round2, Math_round. by rewrite H. Qed.

(** ** The reset loop against the sum of the non-negative deltas *)

Lemma last_lookup_default (l : list Q) (d : Q) :
  List.last l d = default d (l !! (length l - 1)%nat).
Proof.
  induction l as [|a [|b l'] IH]; [done..|].
  change (List.last (a :: b :: l') d) with (List.last (b :: l') d).
  rewrite IH. cbn. by rewrite Nat.sub_0_r.
Qed.

Section ResetLoop.
Variable valueAt : nat -> Q.
Variable r : list Q.
Hypothesis valueAt_r : forall i x, r !! i = Some x -> valueAt i = x.

Lemma sumNonNegativeDeltas_nonneg (l : list Q) : 0 <= sumNonNegativeDeltas l.
Proof.
  induction l as [|a [|b l'] IH]; cbn in *; try lra.
  pose proof (Q.le_max_l 0 (b - a)). lra.
Qed.

Lemma reset_loop_from (n start : nat) (acc : Q) :
  (start + n)%nat = length r ->
  (1 <= start)%nat ->
  fold_left (addPositiveDelta valueAt) (seq start n) acc
  == acc + sumNonNegativeDeltas (drop (start - 1) r).
Proof.
  revert start acc. induction n as [|n IH]; intros start acc Hlen Hstart.
  - cbn [seq fold_left].
    destruct (lookup_lt_is_Some_2 r (start - 1)) as [a Ha]; [lia|].
    rewrite (drop_S _ _ _ Ha), drop_ge by lia. cbn. lra.
  - cbn [seq fold_left]. rewrite IH by lia.
    destruct (lookup_lt_is_Some_2 r (start - 1)) as [a Ha]; [lia|].
    destruct (lookup_lt_is_Some_2 r start) as [b Hb]; [lia|].
    rewrite (drop_S _ _ _ Ha).
    replace (S (start - 1)) with start by lia.
    replace (S start - 1)%nat with start by lia.
    rewrite (drop_S _ _ _ Hb).
    cbn [sumNonNegativeDeltas].
    unfold addPositiveDelta.
    rewrite (valueAt_r _ _ Ha), (valueAt_r _ _ Hb).
    destruct (Qltb_spec 0 (b - a)) as [Hpos|Hneg].
    + rewrite Q.max_r by lra. lra.
    + rewrite Q.max_l by lra. lra.
Qed.

Lemma reset_loop :
  fold_left (addPositiveDelta valueAt) (seq 1 (length r - 1)) 0
  == sumNonNegativeDeltas r.
Proof.
  destruct (Nat.eq_dec (length r) 0%nat) as [Hnil|Hcons].
  - rewrite Hnil, (nil_length_inv _ Hnil). reflexivity.
  - rewrite reset_loop_from by lia. change (1 - 1)%nat with 0%nat.
    rewrite drop_0. lra.
Qed.

Lemma delta_block :
  (if (0 <? length r)%nat then
     let total := valueAt (length r - 1) - valueAt 0 in
     if Qltb total 0 then
       fold_left (addPositiveDelta valueAt) (seq 1 (length r - 1)) 0
     else total
   else 0)
  == cumulativeDelta r.
Proof.
  destruct (Nat.eq_dec (length r) 0%nat) as [Hnil|Hcons].
  - rewrite Hnil, (nil_length_inv _ Hnil). reflexivity.
  - replace (0 <? length r)%nat with true
      by (symmetry; apply Nat.ltb_lt; lia).
    destruct (lookup_lt_is_Some_2 r 0) as [first Hfirst]; [lia|].
    destruct (lookup_lt_is_Some_2 r (length r - 1)) as [final Hfinal]; [lia|].
    cbv zeta.
    rewrite (valueAt_r _ _ Hfirst), (valueAt_r _ _ Hfinal).
    assert (Hshape : exists tl, r = first :: tl).
    { clear -Hfirst. destruct r as [|a tl]; [done|].
      exists tl. cbn in Hfirst. congruence. }
    destruct Hshape as [tl Hshape].
    assert (Hlast : List.last r 0 = final).
    { rewrite last_lookup_default, Hfinal. reflexivity. }
    assert (Hcd : cumulativeDelta r
                  = if Qle_bool 0 (final - first) then final - first
                    else sumNonNegativeDeltas r).
    { rewrite <- Hlast, Hshape. reflexivity. }
    rewrite Hcd. unfold Qltb.
    destruct (Qle_bool 0 (final - first)); cbn [negb].
    + reflexivity.
    + apply reset_loop.
Qed.
End ResetLoop.

Lemma totalDcDeliveredOf_cumulativeDelta
  (vehicleReadings : list VehicleReading.t) :
  totalDcDeliveredOf vehicleReadings
  == cumulativeDelta (VehicleReading.kwhDeliveredDc <$> vehicleReadings).
Proof.
  unfold totalDcDeliveredOf.
  rewrite <- (length_fmap VehicleReading.kwhDeliveredDc vehicleReadings).
  apply (delta_block (kwhDeliveredDcAt vehicleReadings)).
  intros i x. unfold kwhDeliveredDcAt. rewrite list_lookup_fmap.
  destruct (vehicleReadings !! i); cbn; congruence.
Qed.

Lemma totalAcConsumedOf_cumulativeDelta (meterReadings : list MeterReading.t) :
  totalAcConsumedOf meterReadings
  == cumulativeDelta (MeterReading.kwhConsumedAc <$> meterReadings).
Proof.
  unfold totalAcConsumedOf.
  rewrite <- (length_fmap MeterReading.kwhConsumedAc meterReadings).
  apply (delta_block (kwhConsumedAcAt meterReadings)).
  intros i x. unfold kwhConsumedAcAt. rewrite list_lookup_fmap.
  destruct (meterReadings !! i); cbn; congruence.
Qed.

(** ** The performance summary *)

Lemma getPerformanceSummary_found vehicleId now db v :
  vehicle db !! vehicleId = Some v ->
  getPerformanceSummary vehicleId now db
  = inr (PerformanceSummaryDto.mk vehicleId (Vehicle.meterId v)
           (periodStartOf now) now
           (round2 (totalAcConsumedOf (meterSeries v now db)))
           (round2 (totalDcDeliveredOf (vehicleSeries vehicleId now db)))
           (round2 (unroundedRatio vehicleId v now db))
           (round2 (avgBatteryTempOf (vehicleSeries vehicleId now db)))
           (length (vehicleSeries vehicleId now db))
           (length (meterSeries v now db))
           (efficiencyStatusOf (unroundedRatio vehicleId v now db))).
Proof. intros Hv. unfold getPerformanceSummary. by rewrite Hv. Qed.

Lemma cumulativeDelta_nonneg (r : list Q) : 0 <= cumulativeDelta r.
Proof.
  destruct r as [|first tl]; [cbn; lra|].
  unfold cumulativeDelta.
  destruct (Qle_bool 0 (List.last (first :: tl) 0 - first)) eqn:E.
  - by apply Qle_bool_iff.
  - apply sumNonNegativeDeltas_nonneg.
Qed.


(** C3. The total computed from a reading series is the cumulative delta
    of its counter values: last minus first when that is not negative, the
    sum over the consecutive pairs of [max(0, r[i] - r[i-1])] when it is,
    and [0] for the empty series.  This holds for the vehicle block (DC
    delivered) and the meter block (AC consumed), and the totals a summary
    reports are these values for the readings of the 24-hour window, rounded.
    The series 100, 101, 102 yields 2 and the series 100, 101, 5, 6 yields 2. *)
Theorem cumulative_delta_total :
  (forall vehicleReadings : list VehicleReading.t,
      totalDcDeliveredOf vehicleReadings
      == cumulativeDelta (VehicleReading.kwhDeliveredDc <$> vehicleReadings))
  /\ (forall meterReadings : list MeterReading.t,
         totalAcConsumedOf meterReadings
         == cumulativeDelta (MeterReading.kwhConsumedAc <$> meterReadings))
  /\ (forall vehicleId now db,
         match getPerformanceSummary vehicleId now db with
         | inr s =>
             exists v,
               vehicle db !! vehicleId = Some v
               /\ PerformanceSummaryDto.totalDcDelivered s
                  == round2 (cumulativeDelta
                               (VehicleReading.kwhDeliveredDc
                                  <$> vehicleSeries vehicleId now db))
               /\ PerformanceSummaryDto.totalAcConsumed s
                  == round2 (cumulativeDelta
                               (MeterReading.kwhConsumedAc
                                  <$> meterSeries v now db))
         | inl _ => vehicle db !! vehicleId = None
         end)
  /\ totalDcDeliveredOf [] == 0
  /\ totalAcConsumedOf [] == 0
  /\ totalDcDeliveredOf (vehicleReadingsOf [100; 101; 102]) == 2
  /\ totalDcDeliveredOf (vehicleReadingsOf [100; 101; 5; 6]) == 2
  /\ totalAcConsumedOf (meterReadingsOf [100; 101; 102]) == 2
  /\ totalAcConsumedOf (meterReadingsOf [100; 101; 5; 6]) == 2.
Proof.
  split; [exact totalDcDeliveredOf_cumulativeDelta|].
  split; [exact totalAcConsumedOf_cumulativeDelta|].
  split; [|repeat split; reflexivity].
  intros vehicleId now db.
  destruct (vehicle db !! vehicleId) as [v|] eqn:Hv.
  - rewrite (getPerformanceSummary_found _ _ _ _ Hv). exists v. cbn.
    split; [done|]. split; apply round2_proper.
    + apply totalDcDeliveredOf_cumulativeDelta.
    + apply totalAcConsumedOf_cumulativeDelta.
  - unfold getPerformanceSummary. by rewrite Hv.
Qed.





(** C9. The status of a summary is computed from the ratio before
    rounding, and the ratio of the response is that ratio rounded
    afterwards.  With 1000 kWh drawn and 849.99 kWh delivered the exact
    ratio is 84.999: the response carries [efficiencyRatio = 85] together
    with [efficiencyStatus = WARNING], although 85 itself classifies as
    HEALTHY. *)
Theorem status_uses_unrounded_ratio :
  (forall vehicleId now db,
      match getPerformanceSummary vehicleId now db with
      | inr s =>
          exists v,
            vehicle db !! vehicleId = Some v
            /\ PerformanceSummaryDto.efficiencyStatus s
               = efficiencyStatusOf (unroundedRatio vehicleId v now db)
            /\ PerformanceSummaryDto.efficiencyRatio s
               = round2 (unroundedRatio vehicleId v now db)
      | inl _ => vehicle db !! vehicleId = None
      end)
  /\ exists v s,
       vehicle nearThresholdStore !! "VEH-001" = Some v
       /\ getPerformanceSummary "VEH-001" 3600000 nearThresholdStore = inr s
       /\ unroundedRatio "VEH-001" v 3600000 nearThresholdStore
          == 84999 # 1000
       /\ PerformanceSummaryDto.efficiencyRatio s == 85
       /\ PerformanceSummaryDto.efficiencyStatus s = WARNING
       /\ efficiencyStatusOf (PerformanceSummaryDto.efficiencyRatio s)
          = HEALTHY.
Proof.
  split.
  - intros vehicleId now db.
    destruct (vehicle db !! vehicleId) as [v|] eqn:Hv.
    + rewrite (getPerformanceSummary_found _ _ _ _ Hv). by exists v.
    + unfold getPerformanceSummary. by rewrite Hv.
  - eexists _, _. split; [by vm_compute|].
    split; [by vm_compute|]. by vm_compute.
Qed.

(** ** Fleet statistics *)

Lemma fold_left_Qplus_sum {A : Type} (f : A -> Q) (l : list A) (acc : Q) :
  fold_left (fun sum x => sum + f x) l acc == acc + Qsum (f <$> l).
Proof.
  unfold Qsum. revert acc.
  induction l as [|x l IH]; intros acc;
    cbn [fold_left fmap list_fmap fold_right].
  - lra.
  - rewrite IH. lra.
Qed.

Lemma average_mean {A : Type} (f : A -> Q) (l : list A) :
  (if (0 <? length l)%nat
   then fold_left (fun sum x => sum + f x) l 0 / inject_Z (Z.of_nat (length l))
   else 0)
  == mean (f <$> l).
Proof.
  destruct l as [|x l]; [reflexivity|].
  change (0 <? length (x :: l))%nat with true. cbv iota.
  assert (Hmean : mean (f <$> x :: l)
                  = Qsum (f <$> x :: l)
                    / inject_Z (Z.of_nat (length (f <$> x :: l)))) by done.
  rewrite Hmean, length_fmap, fold_left_Qplus_sum.
  apply Qmult_comp; [lra|reflexivity].
Qed.


(** ** Batch reduction *)

(** C1, as stated, fails on a tie.  [tieFirst] and [tieSecond] are two
    readings of "METER-001" with the same observation timestamp;
    [tieSecond] is the last of the newest readings, yet the batch leaves the
    row of [tieFirst], which differs from the row a single ingest of
    [tieSecond] writes.  Swapping the two readings changes the row. *)
Lemma batch_tie_keeps_first :
  lastOfNewest MeterTelemetryDto.timestamp tieSecond
    (readingsOf MeterTelemetryDto.meterId "METER-001" [tieFirst; tieSecond])
  /\ meterCurrentState
       (fst (batchIngestMeterTelemetry [tieFirst; tieSecond] emptyStore))
       !! "METER-001"
     = Some (meterRowOf "METER-001" tieFirst)
  /\ meterCurrentState (fst (ingestMeterTelemetry tieSecond emptyStore))
       !! "METER-001"
     = Some (meterRowOf "METER-001" tieSecond)
  /\ meterCurrentState
       (fst (batchIngestMeterTelemetry [tieFirst; tieSecond] emptyStore))
       !! "METER-001"
     <> meterCurrentState (fst (ingestMeterTelemetry tieSecond emptyStore))
          !! "METER-001"
  /\ Permutation [tieFirst; tieSecond] [tieSecond; tieFirst]
  /\ meterCurrentState
       (fst (batchIngestMeterTelemetry [tieFirst; tieSecond] emptyStore))
       !! "METER-001"
     <> meterCurrentState
          (fst (batchIngestMeterTelemetry [tieSecond; tieFirst] emptyStore))
          !! "METER-001".
Proof.
  split.
  { exists [tieFirst], []. split; [reflexivity|].
    split; repeat constructor. cbn. lia. }
  split; [by vm_compute|]. split; [by vm_compute|].
  split; [by vm_compute|]. split; [apply perm_swap|]. by vm_compute.
Qed.

(** C1, amended.  After a batch, the current-state row of a device that
    occurs in it is the row a single ingest of that device's winning reading
    writes, the winner being the first reading, in input order, among those
    of the device that carry its maximal observation timestamp.  For two
    batches whose readings of the device are permutations of each other
    the rows agree on [lastTimestamp], and they are equal when the readings
    of the device that carry the maximal timestamp are all equal. *)
Theorem batch_reduces_to_first_of_newest
  (meterReadings : list MeterTelemetryDto.t)
  (vehicleReadings : list VehicleTelemetryDto.t)
  (meterId vehicleId : string) (db : Store) :
  meterId ∈ MeterTelemetryDto.meterId <$> meterReadings ->
  vehicleId ∈ VehicleTelemetryDto.vehicleId <$> vehicleReadings ->
  (exists w,
      firstOfNewest MeterTelemetryDto.timestamp w
        (readingsOf MeterTelemetryDto.meterId meterId meterReadings)
      /\ meterCurrentState (fst (batchIngestMeterTelemetry meterReadings db))
           !! meterId
         = meterCurrentState (fst (ingestMeterTelemetry w db)) !! meterId)
  /\ (exists w,
         firstOfNewest VehicleTelemetryDto.timestamp w
           (readingsOf VehicleTelemetryDto.vehicleId vehicleId vehicleReadings)
         /\ vehicleCurrentState
              (fst (batchIngestVehicleTelemetry vehicleReadings db))
              !! vehicleId
            = vehicleCurrentState (fst (ingestVehicleTelemetry w db))
                !! vehicleId)
  /\ (forall meterReadings',
         Permutation
           (readingsOf MeterTelemetryDto.meterId meterId meterReadings)
           (readingsOf MeterTelemetryDto.meterId meterId meterReadings') ->
         (MeterCurrentState.lastTimestamp
            <$> meterCurrentState
                  (fst (batchIngestMeterTelemetry meterReadings db))
                  !! meterId
          = MeterCurrentState.lastTimestamp
              <$> meterCurrentState
                    (fst (batchIngestMeterTelemetry meterReadings' db))
                    !! meterId)
         /\ (newestUnique MeterTelemetryDto.timestamp
               (readingsOf MeterTelemetryDto.meterId meterId meterReadings) ->
             meterCurrentState
               (fst (batchIngestMeterTelemetry meterReadings db)) !! meterId
             = meterCurrentState
                 (fst (batchIngestMeterTelemetry meterReadings' db))
                 !! meterId))
  /\ (forall vehicleReadings',
         Permutation
           (readingsOf VehicleTelemetryDto.vehicleId vehicleId vehicleReadings)
           (readingsOf VehicleTelemetryDto.vehicleId vehicleId
              vehicleReadings') ->
         (VehicleCurrentState.lastTimestamp
            <$> vehicleCurrentState
                  (fst (batchIngestVehicleTelemetry vehicleReadings db))
                  !! vehicleId
          = VehicleCurrentState.lastTimestamp
              <$> vehicleCurrentState
                    (fst (batchIngestVehicleTelemetry vehicleReadings' db))
                    !! vehicleId)
         /\ (newestUnique VehicleTelemetryDto.timestamp
               (readingsOf VehicleTelemetryDto.vehicleId vehicleId
                  vehicleReadings) ->
             vehicleCurrentState
               (fst (batchIngestVehicleTelemetry vehicleReadings db))
               !! vehicleId
             = vehicleCurrentState
                 (fst (batchIngestVehicleTelemetry vehicleReadings' db))
                 !! vehicleId)).
Proof.
  intros Hm Hv. split; [|split; [|split]].
  - destruct (batchIngestMeterTelemetry_winner _ db _ Hm) as (w & Hw & Hb & Hi).
    exists w. split; [done|congruence].
  - destruct (batchIngestVehicleTelemetry_winner _ db _ Hv)
      as (w & Hw & Hb & Hi).
    exists w. split; [done|congruence].
  - intros meterReadings' Hp.
    exact (batchIngestMeterTelemetry_perm _ _ db _ Hp).
  - intros vehicleReadings' Hp.
    exact (batchIngestVehicleTelemetry_perm _ _ db _ Hp).
Qed.

Lemma batch_reduces_to_first_of_newest_witness :
  "METER-001" ∈ MeterTelemetryDto.meterId <$> [tieFirst; tieSecond]
  /\ "VEH-001" ∈ VehicleTelemetryDto.vehicleId <$> vehicleBatch
  /\ (exists w,
         firstOfNewest MeterTelemetryDto.timestamp w
           (readingsOf MeterTelemetryDto.meterId "METER-001"
              [tieFirst; tieSecond])
         /\ meterCurrentState
              (fst (batchIngestMeterTelemetry [tieFirst; tieSecond] newerStore))
              !! "METER-001"
            = meterCurrentState (fst (ingestMeterTelemetry w newerStore))
                !! "METER-001")
  /\ (exists w,
         firstOfNewest VehicleTelemetryDto.timestamp w
           (readingsOf VehicleTelemetryDto.vehicleId "VEH-001" vehicleBatch)
         /\ vehicleCurrentState
              (fst (batchIngestVehicleTelemetry vehicleBatch newerStore))
              !! "VEH-001"
            = vehicleCurrentState (fst (ingestVehicleTelemetry w newerStore))
                !! "VEH-001").
Proof.
  assert (Hm : "METER-001"
               ∈ MeterTelemetryDto.meterId <$> [tieFirst; tieSecond])
    by (cbn; constructor).
  assert (Hv : "VEH-001" ∈ VehicleTelemetryDto.vehicleId <$> vehicleBatch)
    by (cbn; constructor).
  split; [exact Hm|]. split; [exact Hv|].
  destruct (batch_reduces_to_first_of_newest [tieFirst; tieSecond] vehicleBatch
              "METER-001" "VEH-001" newerStore Hm Hv) as (H1 & H2 & _).
  split; [exact H1|exact H2].
Defined.

(** ** The newest timestamp across a sequence of calls *)

(** After a call, [lastTimestamp] of a device is the newest timestamp the
    call carried for it, or is unchanged when the call carried none; the
    accepted timestamps grow by those the call carried. *)
Lemma perform_step (device : Device) (op : Operation) (db : Store) :
  lastTimestampOf device (perform op db)
  = match maximum (carriedFor device op) with
    | Some t => Some t
    | None => lastTimestampOf device db
    end
  /\ timestampsOf device (perform op db)
     = timestampsOf device db ++ carriedFor device op.
Proof.
  destruct device as [k|k], op as [dto|dto|readings|readings];
    first [ apply perform_IngestMeter_meter
          | apply perform_IngestVehicle_meter
          | apply perform_BatchIngestMeter_meter
          | apply perform_BatchIngestVehicle_meter
          | apply perform_IngestMeter_vehicle
          | apply perform_IngestVehicle_vehicle
          | apply perform_BatchIngestMeter_vehicle
          | apply perform_BatchIngestVehicle_vehicle ].
Qed.

Lemma correctlyOrdered_invariant (device : Device) (ops : list Operation)
  (db : Store) :
  lastTimestampOf device db = maximum (timestampsOf device db) ->
  correctlyOrdered (timestampsOf device db) (carriedFor device <$> ops)
  = true ->
  lastTimestampOf device (performAll ops db)
  = maximum (timestampsOf device (performAll ops db)).
Proof.
  revert db. induction ops as [|op ops IH]; intros db Hinv Hord; [done|].
  cbn in Hord. apply andb_true_iff in Hord as [Hnew Hrest].
  destruct (perform_step device op db) as [Hlast Hts].
  unfold performAll. cbn [fold_left]. apply IH.
  - rewrite Hlast, Hts.
    destruct (maximum (carriedFor device op)) as [t|] eqn:Hmax.
    + symmetry. apply maximum_app_newer; [done|].
      apply Forall_forall. intros s Hs.
      rewrite forallb_forall in Hnew. apply Z.leb_le, Hnew.
      by apply list_elem_of_In.
    + apply maximum_None in Hmax. by rewrite Hmax, app_nil_r.
  - by rewrite Hts.
Qed.

(** C2, as stated, fails when readings arrive out of order.  A vehicle
    reading observed at 7200000 followed by one observed at 3600000 leaves
    [lastTimestamp = 3600000] while the newest accepted reading is the
    former; a batch of older readings does the same to a meter row. *)
Lemma lastTimestamp_regresses :
  lastTimestampOf (VehicleDevice "VEH-001")
    (performAll outOfOrderVehicle emptyStore) = Some 3600000%Z
  /\ maximum (timestampsOf (VehicleDevice "VEH-001")
                (performAll outOfOrderVehicle emptyStore)) = Some 7200000%Z
  /\ lastTimestampOf (MeterDevice "METER-001")
       (performAll outOfOrderMeter emptyStore) = Some 3600000%Z
  /\ maximum (timestampsOf (MeterDevice "METER-001")
                (performAll outOfOrderMeter emptyStore)) = Some 7200000%Z.
Proof. repeat split; by vm_compute. Qed.

(** C2, amended.  Starting from the empty store, after a sequence of
    ingest and ingestBatch calls that is correctly ordered for a device
    (the newest timestamp each call carries for the device is not older than
    any timestamp accepted for it before that call), [lastTimestamp] of the
    device's current-state row is the maximum observation timestamp over
    all readings accepted for it; there is no row exactly when no reading
    was accepted. *)
Theorem lastTimestamp_is_maximum_when_ordered
  (device : Device) (ops : list Operation) :
  correctlyOrdered [] (carriedFor device <$> ops) = true ->
  lastTimestampOf device (performAll ops emptyStore)
  = maximum (timestampsOf device (performAll ops emptyStore)).
Proof.
  intros Hord. apply correctlyOrdered_invariant.
  - by destruct device.
  - by destruct device.
Qed.

Lemma lastTimestamp_is_maximum_when_ordered_witness :
  correctlyOrdered [] (carriedFor (MeterDevice "METER-001") <$> orderedStream)
  = true
  /\ lastTimestampOf (MeterDevice "METER-001")
       (performAll orderedStream emptyStore)
     = maximum (timestampsOf (MeterDevice "METER-001")
                  (performAll orderedStream emptyStore)).
Proof.
  split; [vm_compute; reflexivity|].
  apply (lastTimestamp_is_maximum_when_ordered (MeterDevice "METER-001")
           orderedStream).
  vm_compute. reflexivity.
Defined.

(** * Further properties of the services *)

(** ** Distinct ids and the keys of the reduction map *)

Lemma jsSetAdd_fold (xs seen : list string) :
  NoDup seen ->
  NoDup (fold_left jsSetAdd xs seen)
  /\ forall x, x ∈ fold_left jsSetAdd xs seen <-> x ∈ seen \/ x ∈ xs.
Proof.
  revert seen. induction xs as [|y xs IH]; intros seen Hnd; cbn.
  - split; [done|]. intros x. rewrite elem_of_nil. tauto.
  - unfold jsSetAdd at 2 4.
    destruct (bool_decide_reflect (y ∈ seen)) as [Hin|Hnin].
    + destruct (IH seen Hnd) as [Hnd' Hmem]. split; [done|].
      intros x. rewrite Hmem, elem_of_cons.
      split; [tauto|]. intros [?|[->|?]]; tauto.
    + assert (Hnd1 : NoDup (seen ++ [y])).
      { apply NoDup_app. split; [done|]. split; [|apply NoDup_singleton].
        by intros x Hx ->%list_elem_of_singleton. }
      destruct (IH _ Hnd1) as [Hnd' Hmem]. split; [done|].
      intros x. rewrite Hmem, elem_of_app, list_elem_of_singleton, elem_of_cons.
      tauto.
Qed.

Lemma jsSetOf_NoDup (xs : list string) : NoDup (jsSetOf xs).
Proof. apply jsSetAdd_fold. constructor. Qed.

Lemma jsSetOf_elem (xs : list string) (x : string) :
  x ∈ jsSetOf xs <-> x ∈ xs.
Proof.
  unfold jsSetOf. destruct (jsSetAdd_fold xs [] (NoDup_nil_2)) as [_ H].
  rewrite H, elem_of_nil. tauto.
Qed.

Lemma JsMap_get_keys {V : Type} (m : list (string * V)) (k : string) :
  is_Some (JsMap.get m k) <-> k ∈ m.*1.
Proof.
  induction m as [|[k0 v0] m IH]; cbn.
  - rewrite elem_of_nil. split; [by intros [? ?]|done].
  - rewrite elem_of_cons.
    destruct (bool_decide_reflect (k0 = k)) as [->|Hne].
    + split; [by left|by eexists].
    + rewrite IH. split; [by right|]. intros [->|?]; [done|done].
Qed.

Lemma latestStep_keys {R : Type} (key : R -> string) (ts : R -> Z)
  (latest : list (string * R)) (reading : R) :
  (latestStep key ts latest reading).*1 = jsSetAdd latest.*1 (key reading).
Proof.
  unfold latestStep, jsSetAdd.
  destruct (JsMap.get latest (key reading)) as [e|] eqn:He.
  - assert (Hin : key reading ∈ latest.*1)
      by (apply JsMap_get_keys; by eexists).
    rewrite (bool_decide_eq_true_2 _ Hin).
    destruct (ts reading >? ts e)%Z; [|done].
    by rewrite JsMap_set_keys, (bool_decide_eq_true_2 _ Hin).
  - assert (Hnin : key reading ∉ latest.*1).
    { intros [v Hv]%JsMap_get_keys. congruence. }
    by rewrite JsMap_set_keys, !(bool_decide_eq_false_2 _ Hnin).
Qed.

Lemma latest_keys {R : Type} (key : R -> string) (ts : R -> Z)
  (readings : list R) (latest : list (string * R)) :
  (fold_left (latestStep key ts) readings latest).*1
  = fold_left jsSetAdd (map key readings) latest.*1.
Proof.
  revert latest. induction readings as [|r readings IH]; intros latest;
    [done|].
  cbn [fold_left map]. by rewrite IH, latestStep_keys.
Qed.

(** ** Equality of stores, table by table *)

Lemma Store_eq (db1 db2 : Store) :
  meter db1 = meter db2 ->
  vehicle db1 = vehicle db2 ->
  meterReading db1 = meterReading db2 ->
  vehicleReading db1 = vehicleReading db2 ->
  meterCurrentState db1 = meterCurrentState db2 ->
  vehicleCurrentState db1 = vehicleCurrentState db2 ->
  db1 = db2.
Proof. destruct db1, db2. cbn. by intros -> -> -> -> -> ->. Qed.

(** ** The ascending order of a range query *)

Lemma insertAsc_perm {A : Type} (ts : A -> Z) (x : A) (l : list A) :
  Permutation (insertAsc ts x l) (x :: l).
Proof.
  induction l as [|y l IH]; cbn; [done|].
  destruct (ts x <? ts y)%Z; [done|].
  rewrite IH. apply perm_swap.
Qed.

Lemma orderByAsc_perm_acc {A : Type} (ts : A -> Z) (rows sorted : list A) :
  Permutation (fold_left (fun s x => insertAsc ts x s) rows sorted)
    (sorted ++ rows).
Proof.
  revert sorted. induction rows as [|x rows IH]; intros sorted; cbn.
  - by rewrite app_nil_r.
  - rewrite IH, insertAsc_perm. apply Permutation_middle.
Qed.

Lemma orderByAsc_perm {A : Type} (ts : A -> Z) (rows : list A) :
  Permutation (orderByAsc ts rows) rows.
Proof. apply (orderByAsc_perm_acc ts rows []). Qed.

Lemma insertAsc_ascending {A : Type} (ts : A -> Z) (x : A) (l : list A) :
  ascending ts l -> ascending ts (insertAsc ts x l).
Proof.
  unfold ascending. induction l as [|y l IH]; intros Hs; cbn.
  - repeat constructor.
  - apply StronglySorted_inv in Hs as [Hl Hy].
    destruct (Z.ltb_spec (ts x) (ts y)) as [Hlt|Hge].
    + constructor; [by constructor|].
      constructor; [lia|]. eapply Forall_impl; [exact Hy|]. cbn. lia.
    + constructor; [by apply IH|].
      rewrite (insertAsc_perm ts x l). by constructor.
Qed.

Lemma orderByAsc_ascending {A : Type} (ts : A -> Z) (rows : list A) :
  ascending ts (orderByAsc ts rows).
Proof.
  unfold orderByAsc.
  assert (H : forall sorted,
             ascending ts sorted ->
             ascending ts
               (fold_left (fun s x => insertAsc ts x s) rows sorted)).
  { induction rows as [|x rows IH]; intros sorted Hs; [done|].
    cbn. apply IH. by apply insertAsc_ascending. }
  apply H. constructor.
Qed.

(** ** The reduction of a batch whose devices report in order *)

Lemma keepLatest_last {R : Type} (key : R -> string) (ts : R -> Z)
  (rs : list R) (k : string) :
  StronglySorted (newerLater key ts) rs ->
  fold_left (keepLatest ts) (readingsOf key k rs) None
  = last (readingsOf key k rs).
Proof.
  induction rs as [|r rs IH] using rev_ind; intros Hs; [done|].
  apply StronglySorted_app in Hs as (Hlater & Hrs & _).
  rewrite readingsOf_app. unfold readingsOf at 2 4. cbn.
  destruct (bool_decide_reflect (key r = k)) as [Hk|Hk].
  - rewrite fold_left_app, last_snoc, (IH Hrs). cbn.
    destruct (last (readingsOf key k rs)) as [w|] eqn:Hw; [|done].
    assert (Hin : w ∈ readingsOf key k rs).
    { apply last_Some in Hw as [l' ->]. apply elem_of_app. right.
      apply list_elem_of_here. }
    apply readingsOf_key in Hin as [Hin Hkw].
    assert (Hlt : (ts w < ts r)%Z).
    { apply (Hlater w r Hin); [apply list_elem_of_here|congruence]. }
    cbn. by rewrite (proj2 (Z.gtb_lt _ _) Hlt).
  - rewrite !app_nil_r. by apply IH.
Qed.

(** ** Registration and the ledger, on the meter tables *)

Lemma meter_upsert_lookup k0 db k :
  meter (meter_upsert k0 db) !! k
  = match meter db !! k with
    | Some m => Some m
    | None => if bool_decide (k = k0) then Some (newMeter k0) else None
    end.
Proof.
  unfold meter_upsert.
  destruct (meter db !! k0) as [m0|] eqn:H0.
  - destruct (meter db !! k) as [m|] eqn:Hk; [done|].
    rewrite bool_decide_eq_false_2; [done|]. congruence.
  - cbn. destruct (bool_decide_reflect (k = k0)) as [->|Hne].
    + by rewrite lookup_insert_eq, H0.
    + rewrite lookup_insert_ne by done. by destruct (meter db !! k).
Qed.

Lemma meter_upserts_lookup (ids : list string) db k :
  meter (fold_left (fun d meterId => meter_upsert meterId d) ids db)
    !! k
  = match meter db !! k with
    | Some m => Some m
    | None => if bool_decide (k ∈ ids) then Some (newMeter k) else None
    end.
Proof.
  revert db. induction ids as [|k0 ids IH]; intros db.
  - cbn. by destruct (meter db !! k).
  - cbn [fold_left]. rewrite IH, meter_upsert_lookup.
    destruct (meter db !! k) as [m|]; [done|].
    destruct (bool_decide_reflect (k = k0)) as [->|Hne].
    + rewrite bool_decide_eq_true_2; [done|]. apply list_elem_of_here.
    + destruct (bool_decide_reflect (k ∈ ids)) as [Hin|Hnin].
      * rewrite bool_decide_eq_true_2; [done|].
        by apply list_elem_of_further.
      * rewrite bool_decide_eq_false_2; [done|].
        intros [?|?]%elem_of_cons; congruence.
Qed.

Lemma meter_upserts_vehicle (ids : list string) db :
  vehicle (fold_left (fun d meterId => meter_upsert meterId d) ids db)
  = vehicle db.
Proof.
  revert db. induction ids as [|k0 ids IH]; intros db; [done|].
  cbn [fold_left]. rewrite IH.
  by destruct (meter_upsert_hot k0 db) as (_ & _ & _ & _ & ->).
Qed.

Lemma meterReading_createMany_rows (data : list MeterTelemetryDto.t) db :
  let db' := meterReading_createMany data db in
  meter db' = meter db
  /\ vehicle db' = vehicle db
  /\ meterReading db'
     = meterReading db
       ++ imap (fun i dto =>
                  meterReadingRow (length (meterReading db) + i) dto)
            data.
Proof.
  revert db. induction data as [|dto data IH]; intros db.
  - cbn. by rewrite app_nil_r.
  - unfold meterReading_createMany in *. cbn [fold_left].
    destruct (IH (fst (meterReading_create dto db))) as (-> & -> & ->).
    cbn. split; [done|]. split; [done|].
    rewrite <- app_assoc. cbn. rewrite Nat.add_0_r. do 2 f_equal.
    apply imap_ext. intros i x _. cbn. f_equal.
    rewrite length_app. cbn. lia.
Qed.

Lemma meterState_upserts_devices
  (latest : list (string * MeterTelemetryDto.t)) db :
  let db' :=
    fold_left
      (fun d '(meterId, r) => meterCurrentState_upsert meterId r d)
      latest db in
  meter db' = meter db /\ vehicle db' = vehicle db.
Proof.
  revert db. induction latest as [|[k r] latest IH]; intros db; [done|].
  cbn [fold_left].
  by destruct (IH (meterCurrentState_upsert k r db)) as (-> & ->).
Qed.

Lemma meterReadingDto_row i dto :
  meterReadingDto (meterReadingRow i dto) = dto.
Proof. by destruct dto. Qed.

Lemma meterReadingDto_rows n (data : list MeterTelemetryDto.t) :
  meterReadingDto <$> imap (fun i dto => meterReadingRow (n + i) dto) data
  = data.
Proof.
  revert n. induction data as [|dto data IH]; intros n; [done|].
  cbn. rewrite meterReadingDto_row. f_equal.
  rewrite <- (IH (S n)) at 2. f_equal. apply imap_ext.
  intros i x _. cbn. f_equal. lia.
Qed.

(** The tables after a single ingest and after a batch. *)
Lemma ingestMeterTelemetry_store dto db :
  let db' := fst (ingestMeterTelemetry dto db) in
  meter db' = meter (meter_upsert (MeterTelemetryDto.meterId dto) db)
  /\ vehicle db' = vehicle db
  /\ meterReading db'
     = meterReading db ++ [meterReadingRow (length (meterReading db)) dto]
  /\ im_readingId (snd (ingestMeterTelemetry dto db))
     = length (meterReading db).
Proof.
  unfold ingestMeterTelemetry. cbn.
  by destruct (meter_upsert_hot (MeterTelemetryDto.meterId dto) db)
    as (_ & _ & -> & _ & ->).
Qed.

Lemma batchIngestMeterTelemetry_store readings db :
  let db' := fst (batchIngestMeterTelemetry readings db) in
  meter db'
  = meter (fold_left (fun d meterId => meter_upsert meterId d)
             (jsSetOf (map MeterTelemetryDto.meterId readings)) db)
  /\ vehicle db' = vehicle db
  /\ meterReading db'
     = meterReading db
       ++ imap (fun i dto =>
                  meterReadingRow (length (meterReading db) + i) dto)
            readings.
Proof.
  unfold batchIngestMeterTelemetry. cbn [fst].
  set (ids := jsSetOf (map MeterTelemetryDto.meterId readings)).
  set (db1 := fold_left (fun d meterId => meter_upsert meterId d) ids db).
  set (db2 := meterReading_createMany readings db1).
  destruct (meterState_upserts_devices
              (fold_left latestByMeterStep readings []) db2) as (-> & ->).
  destruct (meterState_upserts_tables
              (fold_left latestByMeterStep readings []) db2)
    as (_ & _ & ->).
  destruct (meterReading_createMany_rows readings db1) as (Hm & Hv & Hr).
  fold db2 in Hm, Hv, Hr. rewrite Hm, Hv, Hr.
  destruct (meter_upserts_tables ids db) as (_ & _ & Hl & _).
  fold db1 in Hl. rewrite Hl.
  split; [done|]. split; [|done]. apply meter_upserts_vehicle.
Qed.

(** The device tables after one ingestion call. *)
Lemma IngestMeter_meter_table dto db k :
  meter (perform (IngestMeter dto) db) !! k
  = match meter db !! k with
    | Some m => Some m
    | None =>
        if bool_decide (k ∈ meterIdsOf (IngestMeter dto))
        then Some (newMeter k) else None
    end.
Proof.
  cbn [perform]. destruct (ingestMeterTelemetry_store dto db) as (-> & _).
  rewrite meter_upsert_lookup. destruct (meter db !! k); [done|].
  unfold meterIdsOf. cbn.
  destruct (bool_decide_reflect (k = MeterTelemetryDto.meterId dto))
    as [->|Hne].
  - rewrite bool_decide_eq_true_2; [done|]. apply list_elem_of_here.
  - rewrite bool_decide_eq_false_2; [done|].
    by intros ?%list_elem_of_singleton.
Qed.

Lemma BatchIngestMeter_meter_table readings db k :
  meter (perform (BatchIngestMeter readings) db) !! k
  = match meter db !! k with
    | Some m => Some m
    | None =>
        if bool_decide (k ∈ meterIdsOf (BatchIngestMeter readings))
        then Some (newMeter k) else None
    end.
Proof.
  cbn [perform].
  destruct (batchIngestMeterTelemetry_store readings db) as (-> & _).
  rewrite meter_upserts_lookup. destruct (meter db !! k); [done|].
  unfold meterIdsOf. cbn [meterPayloadsOf].
  apply (f_equal (fun b : bool => if b then Some (newMeter k) else None)).
  apply bool_decide_ext. apply jsSetOf_elem.
Qed.

Lemma IngestMeter_vehicle_table dto db k :
  vehicle (perform (IngestMeter dto) db) !! k
  = match vehicle db !! k with
    | Some m => Some m
    | None =>
        if bool_decide (k ∈ vehicleIdsOf (IngestMeter dto))
        then Some (newVehicle k) else None
    end.
Proof.
  cbn [perform]. destruct (ingestMeterTelemetry_store dto db) as (_ & -> & _).
  by destruct (vehicle db !! k).
Qed.

Lemma BatchIngestMeter_vehicle_table readings db k :
  vehicle (perform (BatchIngestMeter readings) db) !! k
  = match vehicle db !! k with
    | Some m => Some m
    | None =>
        if bool_decide (k ∈ vehicleIdsOf (BatchIngestMeter readings))
        then Some (newVehicle k) else None
    end.
Proof.
  cbn [perform].
  destruct (batchIngestMeterTelemetry_store readings db) as (_ & -> & _).
  by destruct (vehicle db !! k).
Qed.

(** The ledgers after one ingestion call. *)
Lemma IngestMeter_ledgers dto db :
  meterReadingDto <$> meterReading (perform (IngestMeter dto) db)
  = (meterReadingDto <$> meterReading db)
    ++ meterPayloadsOf (IngestMeter dto)
  /\ vehicleReading (perform (IngestMeter dto) db) = vehicleReading db.
Proof.
  cbn [perform meterPayloadsOf].
  destruct (ingestMeterTelemetry_store dto db) as (_ & _ & -> & _).
  destruct (ingestMeterTelemetry_tables dto db) as (_ & -> & _).
  split; [|done]. by rewrite fmap_app; cbn; rewrite meterReadingDto_row.
Qed.

Lemma BatchIngestMeter_ledgers readings db :
  meterReadingDto
    <$> meterReading (perform (BatchIngestMeter readings) db)
  = (meterReadingDto <$> meterReading db)
    ++ meterPayloadsOf (BatchIngestMeter readings)
  /\ vehicleReading (perform (BatchIngestMeter readings) db)
     = vehicleReading db.
Proof.
  cbn [perform meterPayloadsOf].
  destruct (batchIngestMeterTelemetry_store readings db) as (_ & _ & ->).
  destruct (batchIngestMeterTelemetry_tables readings db) as (_ & -> & _).
  split; [|done]. by rewrite fmap_app, meterReadingDto_rows.
Qed.

(** The ids a batch returns and the devices its hot path writes. *)
Lemma batchIngestMeterTelemetry_result readings db :
  let db' := fst (batchIngestMeterTelemetry readings db) in
  let res := snd (batchIngestMeterTelemetry readings db) in
  bm_success res = true
  /\ bm_count res = length readings
  /\ NoDup (bm_meterIds res)
  /\ (forall k,
         k ∈ bm_meterIds res
         <-> k ∈ MeterTelemetryDto.meterId <$> readings)
  /\ (fold_left latestByMeterStep readings []).*1 = bm_meterIds res
  /\ (length (bm_meterIds res) <= length readings)%nat
  /\ (forall k,
         k ∈ bm_meterIds res ->
         is_Some (meter db' !! k) /\ is_Some (meterCurrentState db' !! k)).
Proof.
  cbn zeta.
  cbn [batchIngestMeterTelemetry snd bm_success bm_count bm_meterIds].
  split; [done|]. split; [done|].
  split; [apply jsSetOf_NoDup|].
  split; [intros k; apply jsSetOf_elem|].
  split.
  { change (fold_left latestByMeterStep readings [])
      with (fold_left
              (latestStep MeterTelemetryDto.meterId
                 MeterTelemetryDto.timestamp)
              readings []).
    by rewrite latest_keys. }
  split.
  { rewrite <- (length_map MeterTelemetryDto.meterId readings).
    apply submseteq_length, NoDup_submseteq; [apply jsSetOf_NoDup|].
    intros k. by rewrite jsSetOf_elem. }
  intros k Hk. apply (proj1 (jsSetOf_elem _ _)) in Hk. split.
  - pose proof (BatchIngestMeter_meter_table readings db k) as H.
    cbn [perform] in H. rewrite H.
    destruct (meter db !! k); [by eexists|].
    rewrite bool_decide_eq_true_2; [by eexists|exact Hk].
  - destruct (batchIngestMeterTelemetry_winner readings db k Hk)
      as (w & _ & -> & _).
    by eexists.
Qed.

(** Single ingests of the readings of a list, one after the other. *)
Lemma IngestMeter_sequence readings db :
  let db' := performAll (IngestMeter <$> readings) db in
  (forall k,
      meter db' !! k
      = match meter db !! k with
        | Some m => Some m
        | None =>
            if bool_decide (k ∈ MeterTelemetryDto.meterId <$> readings)
            then Some (newMeter k) else None
        end)
  /\ vehicle db' = vehicle db
  /\ meterReading db'
     = meterReading db
       ++ imap (fun i dto =>
                  meterReadingRow (length (meterReading db) + i) dto)
            readings
  /\ vehicleReading db' = vehicleReading db
  /\ (forall k,
         meterCurrentState db' !! k
         = match last (readingsOf MeterTelemetryDto.meterId k readings) with
           | Some r => Some (meterRowOf k r)
           | None => meterCurrentState db !! k
           end)
  /\ vehicleCurrentState db' = vehicleCurrentState db.
Proof.
  revert db. induction readings as [|r readings IH]; intros db.
  - cbn. rewrite app_nil_r. repeat split; try done.
    intros k. by destruct (meter db !! k).
  - cbn zeta. unfold performAll. cbn [fmap list_fmap fold_left].
    destruct (IH (perform (IngestMeter r) db))
      as (Hm & Hv & Hl & Hvl & Hs & Hvs).
    unfold performAll in Hm, Hv, Hl, Hvl, Hs, Hvs.
    cbn [perform] in *.
    destruct (ingestMeterTelemetry_store r db) as (Hm1 & Hv1 & Hl1 & _).
    destruct (ingestMeterTelemetry_tables r db) as (Hvs1 & Hvl1 & _).
    split; [|split; [|split; [|split; [|split]]]].
    + intros k. rewrite Hm, Hm1, meter_upsert_lookup.
      destruct (meter db !! k); [done|].
      destruct (bool_decide_reflect (k = MeterTelemetryDto.meterId r))
        as [->|Hne].
      * rewrite (bool_decide_eq_true_2 (_ ∈ _ :: _)); [done|].
        apply list_elem_of_here.
      * apply (f_equal
                 (fun b : bool => if b then Some (newMeter k) else None)).
        apply bool_decide_ext. rewrite elem_of_cons.
        split; [by right|]. by intros [?|?].
    + congruence.
    + rewrite Hl, Hl1, <- app_assoc. cbn. rewrite Nat.add_0_r.
      do 2 f_equal. apply imap_ext. intros i x _. cbn. f_equal.
      rewrite length_app. cbn. lia.
    + congruence.
    + intros k. rewrite Hs, ingestMeterTelemetry_state.
      unfold readingsOf. cbn [List.filter].
      destruct (bool_decide_reflect (MeterTelemetryDto.meterId r = k))
        as [<-|Hne].
      * fold (readingsOf MeterTelemetryDto.meterId
                (MeterTelemetryDto.meterId r) readings).
        destruct (readingsOf MeterTelemetryDto.meterId
                    (MeterTelemetryDto.meterId r) readings) as [|x l] eqn:E.
        -- cbn. by rewrite lookup_insert_eq.
        -- rewrite last_cons_cons.
           destruct (last (x :: l)) eqn:El; [done|].
           by apply last_None in El.
      * fold (readingsOf MeterTelemetryDto.meterId k readings).
        destruct (last (readingsOf MeterTelemetryDto.meterId k readings));
          [done|].
        by rewrite lookup_insert_ne.
    + congruence.
Qed.

Lemma BatchIngestMeter_as_sequence readings db :
  StronglySorted
    (newerLater MeterTelemetryDto.meterId MeterTelemetryDto.timestamp)
    readings ->
  perform (BatchIngestMeter readings) db
  = performAll (IngestMeter <$> readings) db.
Proof.
  intros Hs.
  destruct (IngestMeter_sequence readings db)
    as (Hm & Hv & Hl & Hvl & Hst & Hvs).
  cbn [perform].
  destruct (batchIngestMeterTelemetry_store readings db) as (Hm' & Hv' & Hl').
  destruct (batchIngestMeterTelemetry_tables readings db)
    as (Hvs' & Hvl' & _).
  apply Store_eq;
    first
      [ congruence
      | apply map_eq; intros k;
        pose proof (BatchIngestMeter_meter_table readings db k) as H;
        cbn [perform] in H; by rewrite H, Hm
      | apply map_eq; intros k;
        by rewrite batchIngestMeterTelemetry_state, Hst, keepLatest_last ].
Qed.

(** The current-state tables after one ingestion call. *)
Lemma IngestMeter_meter_state dto db k :
  meterCurrentState (perform (IngestMeter dto) db) !! k
  = match fold_left (keepLatest MeterTelemetryDto.timestamp)
            (readingsOf MeterTelemetryDto.meterId k
               (meterPayloadsOf (IngestMeter dto))) None with
    | Some w => Some (meterRowOf k w)
    | None => meterCurrentState db !! k
    end.
Proof.
  cbn [perform meterPayloadsOf]. rewrite ingestMeterTelemetry_state.
  unfold readingsOf. cbn.
  destruct (bool_decide_reflect (MeterTelemetryDto.meterId dto = k))
    as [<-|Hne]; cbn.
  - by rewrite lookup_insert_eq.
  - by rewrite lookup_insert_ne.
Qed.

Lemma BatchIngestMeter_meter_state readings db k :
  meterCurrentState (perform (BatchIngestMeter readings) db) !! k
  = match fold_left (keepLatest MeterTelemetryDto.timestamp)
            (readingsOf MeterTelemetryDto.meterId k
               (meterPayloadsOf (BatchIngestMeter readings))) None with
    | Some w => Some (meterRowOf k w)
    | None => meterCurrentState db !! k
    end.
Proof. apply batchIngestMeterTelemetry_state. Qed.

Lemma IngestMeter_vehicle_state dto db k :
  vehicleCurrentState (perform (IngestMeter dto) db) !! k
  = match fold_left (keepLatest VehicleTelemetryDto.timestamp)
            (readingsOf VehicleTelemetryDto.vehicleId k
               (vehiclePayloadsOf (IngestMeter dto))) None with
    | Some w => Some (vehicleRowOf k w)
    | None => vehicleCurrentState db !! k
    end.
Proof.
  cbn [perform vehiclePayloadsOf].
  by destruct (ingestMeterTelemetry_tables dto db) as (-> & _).
Qed.

Lemma BatchIngestMeter_vehicle_state readings db k :
  vehicleCurrentState (perform (BatchIngestMeter readings) db) !! k
  = match fold_left (keepLatest VehicleTelemetryDto.timestamp)
            (readingsOf VehicleTelemetryDto.vehicleId k
               (vehiclePayloadsOf (BatchIngestMeter readings))) None with
    | Some w => Some (vehicleRowOf k w)
    | None => vehicleCurrentState db !! k
    end.
Proof.
  cbn [perform vehiclePayloadsOf].
  by destruct (batchIngestMeterTelemetry_tables readings db) as (-> & _).
Qed.

Lemma IngestMeter_vehicle_ledger dto db :
  vehicleReading (perform (IngestMeter dto) db)
  = vehicleReading db
    ++ imap
         (fun i dto =>
            vehicleReadingRow (length (vehicleReading db) + i) dto)
         (vehiclePayloadsOf (IngestMeter dto)).
Proof.
  cbn [perform vehiclePayloadsOf imap].
  destruct (ingestMeterTelemetry_tables dto db) as (_ & -> & _).
  by rewrite app_nil_r.
Qed.

Lemma BatchIngestMeter_vehicle_ledger readings db :
  vehicleReading (perform (BatchIngestMeter readings) db)
  = vehicleReading db
    ++ imap
         (fun i dto =>
            vehicleReadingRow (length (vehicleReading db) + i) dto)
         (vehiclePayloadsOf (BatchIngestMeter readings)).
Proof.
  cbn [perform vehiclePayloadsOf imap].
  destruct (batchIngestMeterTelemetry_tables readings db) as (_ & -> & _).
  by rewrite app_nil_r.
Qed.

Lemma IngestMeter_meter_ledger dto db :
  meterReading (perform (IngestMeter dto) db)
  = meterReading db
    ++ imap
         (fun i dto =>
            meterReadingRow (length (meterReading db) + i) dto)
         (meterPayloadsOf (IngestMeter dto)).
Proof.
  cbn [perform meterPayloadsOf imap].
  destruct (ingestMeterTelemetry_store dto db) as (_ & _ & -> & _).
  by rewrite Nat.add_0_r.
Qed.

Lemma BatchIngestMeter_meter_ledger readings db :
  meterReading (perform (BatchIngestMeter readings) db)
  = meterReading db
    ++ imap
         (fun i dto =>
            meterReadingRow (length (meterReading db) + i) dto)
         (meterPayloadsOf (BatchIngestMeter readings)).
Proof.
  cbn [perform meterPayloadsOf].
  by destruct (batchIngestMeterTelemetry_store readings db) as (_ & _ & ->).
Qed.

(** ** Registration and the ledger, on the vehicle tables *)

Lemma vehicle_upsert_lookup k0 db k :
  vehicle (vehicle_upsert k0 db) !! k
  = match vehicle db !! k with
    | Some m => Some m
    | None => if bool_decide (k = k0) then Some (newVehicle k0) else None
    end.
Proof.
  unfold vehicle_upsert.
  destruct (vehicle db !! k0) as [m0|] eqn:H0.
  - destruct (vehicle db !! k) as [m|] eqn:Hk; [done|].
    rewrite bool_decide_eq_false_2; [done|]. congruence.
  - cbn. destruct (bool_decide_reflect (k = k0)) as [->|Hne].
    + by rewrite lookup_insert_eq, H0.
    + rewrite lookup_insert_ne by done. by destruct (vehicle db !! k).
Qed.

Lemma vehicle_upserts_lookup (ids : list string) db k :
  vehicle (fold_left (fun d vehicleId => vehicle_upsert vehicleId d) ids db)
    !! k
  = match vehicle db !! k with
    | Some m => Some m
    | None => if bool_decide (k ∈ ids) then Some (newVehicle k) else None
    end.
Proof.
  revert db. induction ids as [|k0 ids IH]; intros db.
  - cbn. by destruct (vehicle db !! k).
  - cbn [fold_left]. rewrite IH, vehicle_upsert_lookup.
    destruct (vehicle db !! k) as [m|]; [done|].
    destruct (bool_decide_reflect (k = k0)) as [->|Hne].
    + rewrite bool_decide_eq_true_2; [done|]. apply list_elem_of_here.
    + destruct (bool_decide_reflect (k ∈ ids)) as [Hin|Hnin].
      * rewrite bool_decide_eq_true_2; [done|].
        by apply list_elem_of_further.
      * rewrite bool_decide_eq_false_2; [done|].
        intros [?|?]%elem_of_cons; congruence.
Qed.

Lemma vehicle_upserts_meter (ids : list string) db :
  meter (fold_left (fun d vehicleId => vehicle_upsert vehicleId d) ids db)
  = meter db.
Proof.
  revert db. induction ids as [|k0 ids IH]; intros db; [done|].
  cbn [fold_left]. rewrite IH.
  by destruct (vehicle_upsert_hot k0 db) as (_ & _ & _ & _ & ->).
Qed.

Lemma vehicleReading_createMany_rows (data : list VehicleTelemetryDto.t) db :
  let db' := vehicleReading_createMany data db in
  vehicle db' = vehicle db
  /\ meter db' = meter db
  /\ vehicleReading db'
     = vehicleReading db
       ++ imap (fun i dto =>
                  vehicleReadingRow (length (vehicleReading db) + i) dto)
            data.
Proof.
  revert db. induction data as [|dto data IH]; intros db.
  - cbn. by rewrite app_nil_r.
  - unfold vehicleReading_createMany in *. cbn [fold_left].
    destruct (IH (fst (vehicleReading_create dto db))) as (-> & -> & ->).
    cbn. split; [done|]. split; [done|].
    rewrite <- app_assoc. cbn. rewrite Nat.add_0_r. do 2 f_equal.
    apply imap_ext. intros i x _. cbn. f_equal.
    rewrite length_app. cbn. lia.
Qed.

Lemma vehicleState_upserts_devices
  (latest : list (string * VehicleTelemetryDto.t)) db :
  let db' :=
    fold_left
      (fun d '(vehicleId, r) => vehicleCurrentState_upsert vehicleId r d)
      latest db in
  vehicle db' = vehicle db /\ meter db' = meter db.
Proof.
  revert db. induction latest as [|[k r] latest IH]; intros db; [done|].
  cbn [fold_left].
  by destruct (IH (vehicleCurrentState_upsert k r db)) as (-> & ->).
Qed.

Lemma vehicleReadingDto_row i dto :
  vehicleReadingDto (vehicleReadingRow i dto) = dto.
Proof. by destruct dto. Qed.

Lemma vehicleReadingDto_rows n (data : list VehicleTelemetryDto.t) :
  vehicleReadingDto <$> imap (fun i dto => vehicleReadingRow (n + i) dto) data
  = data.
Proof.
  revert n. induction data as [|dto data IH]; intros n; [done|].
  cbn. rewrite vehicleReadingDto_row. f_equal.
  rewrite <- (IH (S n)) at 2. f_equal. apply imap_ext.
  intros i x _. cbn. f_equal. lia.
Qed.

(** The tables after a single ingest and after a batch. *)
Lemma ingestVehicleTelemetry_store dto db :
  let db' := fst (ingestVehicleTelemetry dto db) in
  vehicle db' = vehicle (vehicle_upsert (VehicleTelemetryDto.vehicleId dto) db)
  /\ meter db' = meter db
  /\ vehicleReading db'
     = vehicleReading db ++ [vehicleReadingRow (length (vehicleReading db)) dto]
  /\ iv_readingId (snd (ingestVehicleTelemetry dto db))
     = length (vehicleReading db).
Proof.
  unfold ingestVehicleTelemetry. cbn.
  by destruct (vehicle_upsert_hot (VehicleTelemetryDto.vehicleId dto) db)
    as (_ & _ & -> & _ & ->).
Qed.

Lemma batchIngestVehicleTelemetry_store readings db :
  let db' := fst (batchIngestVehicleTelemetry readings db) in
  vehicle db'
  = vehicle (fold_left (fun d vehicleId => vehicle_upsert vehicleId d)
             (jsSetOf (map VehicleTelemetryDto.vehicleId readings)) db)
  /\ meter db' = meter db
  /\ vehicleReading db'
     = vehicleReading db
       ++ imap (fun i dto =>
                  vehicleReadingRow (length (vehicleReading db) + i) dto)
            readings.
Proof.
  unfold batchIngestVehicleTelemetry. cbn [fst].
  set (ids := jsSetOf (map VehicleTelemetryDto.vehicleId readings)).
  set (db1 := fold_left (fun d vehicleId => vehicle_upsert vehicleId d) ids db).
  set (db2 := vehicleReading_createMany readings db1).
  destruct (vehicleState_upserts_devices
              (fold_left latestByVehicleStep readings []) db2) as (-> & ->).
  destruct (vehicleState_upserts_tables
              (fold_left latestByVehicleStep readings []) db2)
    as (_ & _ & ->).
  destruct (vehicleReading_createMany_rows readings db1) as (Hm & Hv & Hr).
  fold db2 in Hm, Hv, Hr. rewrite Hm, Hv, Hr.
  destruct (vehicle_upserts_tables ids db) as (_ & _ & Hl & _).
  fold db1 in Hl. rewrite Hl.
  split; [done|]. split; [|done]. apply vehicle_upserts_meter.
Qed.

(** The device tables after one ingestion call. *)
Lemma IngestVehicle_vehicle_table dto db k :
  vehicle (perform (IngestVehicle dto) db) !! k
  = match vehicle db !! k with
    | Some m => Some m
    | None =>
        if bool_decide (k ∈ vehicleIdsOf (IngestVehicle dto))
        then Some (newVehicle k) else None
    end.
Proof.
  cbn [perform]. destruct (ingestVehicleTelemetry_store dto db) as (-> & _).
  rewrite vehicle_upsert_lookup. destruct (vehicle db !! k); [done|].
  unfold vehicleIdsOf. cbn.
  destruct (bool_decide_reflect (k = VehicleTelemetryDto.vehicleId dto))
    as [->|Hne].
  - rewrite bool_decide_eq_true_2; [done|]. apply list_elem_of_here.
  - rewrite bool_decide_eq_false_2; [done|].
    by intros ?%list_elem_of_singleton.
Qed.

Lemma BatchIngestVehicle_vehicle_table readings db k :
  vehicle (perform (BatchIngestVehicle readings) db) !! k
  = match vehicle db !! k with
    | Some m => Some m
    | None =>
        if bool_decide (k ∈ vehicleIdsOf (BatchIngestVehicle readings))
        then Some (newVehicle k) else None
    end.
Proof.
  cbn [perform].
  destruct (batchIngestVehicleTelemetry_store readings db) as (-> & _).
  rewrite vehicle_upserts_lookup. destruct (vehicle db !! k); [done|].
  unfold vehicleIdsOf. cbn [vehiclePayloadsOf].
  apply (f_equal (fun b : bool => if b then Some (newVehicle k) else None)).
  apply bool_decide_ext. apply jsSetOf_elem.
Qed.

Lemma IngestVehicle_meter_table dto db k :
  meter (perform (IngestVehicle dto) db) !! k
  = match meter db !! k with
    | Some m => Some m
    | None =>
        if bool_decide (k ∈ meterIdsOf (IngestVehicle dto))
        then Some (newMeter k) else None
    end.
Proof.
  cbn [perform]. destruct (ingestVehicleTelemetry_store dto db) as (_ & -> & _).
  by destruct (meter db !! k).
Qed.

Lemma BatchIngestVehicle_meter_table readings db k :
  meter (perform (BatchIngestVehicle readings) db) !! k
  = match meter db !! k with
    | Some m => Some m
    | None =>
        if bool_decide (k ∈ meterIdsOf (BatchIngestVehicle readings))
        then Some (newMeter k) else None
    end.
Proof.
  cbn [perform].
  destruct (batchIngestVehicleTelemetry_store readings db) as (_ & -> & _).
  by destruct (meter db !! k).
Qed.

(** The ledgers after one ingestion call. *)
Lemma IngestVehicle_ledgers dto db :
  vehicleReadingDto <$> vehicleReading (perform (IngestVehicle dto) db)
  = (vehicleReadingDto <$> vehicleReading db)
    ++ vehiclePayloadsOf (IngestVehicle dto)
  /\ meterReading (perform (IngestVehicle dto) db) = meterReading db.
Proof.
  cbn [perform vehiclePayloadsOf].
  destruct (ingestVehicleTelemetry_store dto db) as (_ & _ & -> & _).
  destruct (ingestVehicleTelemetry_tables dto db) as (_ & -> & _).
  split; [|done]. by rewrite fmap_app; cbn; rewrite vehicleReadingDto_row.
Qed.

Lemma BatchIngestVehicle_ledgers readings db :
  vehicleReadingDto
    <$> vehicleReading (perform (BatchIngestVehicle readings) db)
  = (vehicleReadingDto <$> vehicleReading db)
    ++ vehiclePayloadsOf (BatchIngestVehicle readings)
  /\ meterReading (perform (BatchIngestVehicle readings) db)
     = meterReading db.
Proof.
  cbn [perform vehiclePayloadsOf].
  destruct (batchIngestVehicleTelemetry_store readings db) as (_ & _ & ->).
  destruct (batchIngestVehicleTelemetry_tables readings db) as (_ & -> & _).
  split; [|done]. by rewrite fmap_app, vehicleReadingDto_rows.
Qed.

(** The ids a batch returns and the devices its hot path writes. *)
Lemma batchIngestVehicleTelemetry_result readings db :
  let db' := fst (batchIngestVehicleTelemetry readings db) in
  let res := snd (batchIngestVehicleTelemetry readings db) in
  bv_success res = true
  /\ bv_count res = length readings
  /\ NoDup (bv_vehicleIds res)
  /\ (forall k,
         k ∈ bv_vehicleIds res
         <-> k ∈ VehicleTelemetryDto.vehicleId <$> readings)
  /\ (fold_left latestByVehicleStep readings []).*1 = bv_vehicleIds res
  /\ (length (bv_vehicleIds res) <= length readings)%nat
  /\ (forall k,
         k ∈ bv_vehicleIds res ->
         is_Some (vehicle db' !! k) /\ is_Some (vehicleCurrentState db' !! k)).
Proof.
  cbn zeta.
  cbn [batchIngestVehicleTelemetry snd bv_success bv_count bv_vehicleIds].
  split; [done|]. split; [done|].
  split; [apply jsSetOf_NoDup|].
  split; [intros k; apply jsSetOf_elem|].
  split.
  { change (fold_left latestByVehicleStep readings [])
      with (fold_left
              (latestStep VehicleTelemetryDto.vehicleId
                 VehicleTelemetryDto.timestamp)
              readings []).
    by rewrite latest_keys. }
  split.
  { rewrite <- (length_map VehicleTelemetryDto.vehicleId readings).
    apply submseteq_length, NoDup_submseteq; [apply jsSetOf_NoDup|].
    intros k. by rewrite jsSetOf_elem. }
  intros k Hk. apply (proj1 (jsSetOf_elem _ _)) in Hk. split.
  - pose proof (BatchIngestVehicle_vehicle_table readings db k) as H.
    cbn [perform] in H. rewrite H.
    destruct (vehicle db !! k); [by eexists|].
    rewrite bool_decide_eq_true_2; [by eexists|exact Hk].
  - destruct (batchIngestVehicleTelemetry_winner readings db k Hk)
      as (w & _ & -> & _).
    by eexists.
Qed.

(** Single ingests of the readings of a list, one after the other. *)
Lemma IngestVehicle_sequence readings db :
  let db' := performAll (IngestVehicle <$> readings) db in
  (forall k,
      vehicle db' !! k
      = match vehicle db !! k with
        | Some m => Some m
        | None =>
            if bool_decide (k ∈ VehicleTelemetryDto.vehicleId <$> readings)
            then Some (newVehicle k) else None
        end)
  /\ meter db' = meter db
  /\ vehicleReading db'
     = vehicleReading db
       ++ imap (fun i dto =>
                  vehicleReadingRow (length (vehicleReading db) + i) dto)
            readings
  /\ meterReading db' = meterReading db
  /\ (forall k,
         vehicleCurrentState db' !! k
         = match last (readingsOf VehicleTelemetryDto.vehicleId k readings) with
           | Some r => Some (vehicleRowOf k r)
           | None => vehicleCurrentState db !! k
           end)
  /\ meterCurrentState db' = meterCurrentState db.
Proof.
  revert db. induction readings as [|r readings IH]; intros db.
  - cbn. rewrite app_nil_r. repeat split; try done.
    intros k. by destruct (vehicle db !! k).
  - cbn zeta. unfold performAll. cbn [fmap list_fmap fold_left].
    destruct (IH (perform (IngestVehicle r) db))
      as (Hm & Hv & Hl & Hvl & Hs & Hvs).
    unfold performAll in Hm, Hv, Hl, Hvl, Hs, Hvs.
    cbn [perform] in *.
    destruct (ingestVehicleTelemetry_store r db) as (Hm1 & Hv1 & Hl1 & _).
    destruct (ingestVehicleTelemetry_tables r db) as (Hvs1 & Hvl1 & _).
    split; [|split; [|split; [|split; [|split]]]].
    + intros k. rewrite Hm, Hm1, vehicle_upsert_lookup.
      destruct (vehicle db !! k); [done|].
      destruct (bool_decide_reflect (k = VehicleTelemetryDto.vehicleId r))
        as [->|Hne].
      * rewrite (bool_decide_eq_true_2 (_ ∈ _ :: _)); [done|].
        apply list_elem_of_here.
      * apply (f_equal
                 (fun b : bool => if b then Some (newVehicle k) else None)).
        apply bool_decide_ext. rewrite elem_of_cons.
        split; [by right|]. by intros [?|?].
    + congruence.
    + rewrite Hl, Hl1, <- app_assoc. cbn. rewrite Nat.add_0_r.
      do 2 f_equal. apply imap_ext. intros i x _. cbn. f_equal.
      rewrite length_app. cbn. lia.
    + congruence.
    + intros k. rewrite Hs, ingestVehicleTelemetry_state.
      unfold readingsOf. cbn [List.filter].
      destruct (bool_decide_reflect (VehicleTelemetryDto.vehicleId r = k))
        as [<-|Hne].
      * fold (readingsOf VehicleTelemetryDto.vehicleId
                (VehicleTelemetryDto.vehicleId r) readings).
        destruct (readingsOf VehicleTelemetryDto.vehicleId
                    (VehicleTelemetryDto.vehicleId r) readings) as [|x l] eqn:E.
        -- cbn. by rewrite lookup_insert_eq.
        -- rewrite last_cons_cons.
           destruct (last (x :: l)) eqn:El; [done|].
           by apply last_None in El.
      * fold (readingsOf VehicleTelemetryDto.vehicleId k readings).
        destruct (last (readingsOf VehicleTelemetryDto.vehicleId k readings));
          [done|].
        by rewrite lookup_insert_ne.
    + congruence.
Qed.

Lemma BatchIngestVehicle_as_sequence readings db :
  StronglySorted
    (newerLater VehicleTelemetryDto.vehicleId VehicleTelemetryDto.timestamp)
    readings ->
  perform (BatchIngestVehicle readings) db
  = performAll (IngestVehicle <$> readings) db.
Proof.
  intros Hs.
  destruct (IngestVehicle_sequence readings db)
    as (Hm & Hv & Hl & Hvl & Hst & Hvs).
  cbn [perform].
  destruct (batchIngestVehicleTelemetry_store readings db) as (Hm' & Hv' & Hl').
  destruct (batchIngestVehicleTelemetry_tables readings db)
    as (Hvs' & Hvl' & _).
  apply Store_eq;
    first
      [ congruence
      | apply map_eq; intros k;
        pose proof (BatchIngestVehicle_vehicle_table readings db k) as H;
        cbn [perform] in H; by rewrite H, Hm
      | apply map_eq; intros k;
        by rewrite batchIngestVehicleTelemetry_state, Hst, keepLatest_last ].
Qed.

(** The current-state tables after one ingestion call. *)
Lemma IngestVehicle_vehicle_state dto db k :
  vehicleCurrentState (perform (IngestVehicle dto) db) !! k
  = match fold_left (keepLatest VehicleTelemetryDto.timestamp)
            (readingsOf VehicleTelemetryDto.vehicleId k
               (vehiclePayloadsOf (IngestVehicle dto))) None with
    | Some w => Some (vehicleRowOf k w)
    | None => vehicleCurrentState db !! k
    end.
Proof.
  cbn [perform vehiclePayloadsOf]. rewrite ingestVehicleTelemetry_state.
  unfold readingsOf. cbn.
  destruct (bool_decide_reflect (VehicleTelemetryDto.vehicleId dto = k))
    as [<-|Hne]; cbn.
  - by rewrite lookup_insert_eq.
  - by rewrite lookup_insert_ne.
Qed.

Lemma BatchIngestVehicle_vehicle_state readings db k :
  vehicleCurrentState (perform (BatchIngestVehicle readings) db) !! k
  = match fold_left (keepLatest VehicleTelemetryDto.timestamp)
            (readingsOf VehicleTelemetryDto.vehicleId k
               (vehiclePayloadsOf (BatchIngestVehicle readings))) None with
    | Some w => Some (vehicleRowOf k w)
    | None => vehicleCurrentState db !! k
    end.
Proof. apply batchIngestVehicleTelemetry_state. Qed.

Lemma IngestVehicle_meter_state dto db k :
  meterCurrentState (perform (IngestVehicle dto) db) !! k
  = match fold_left (keepLatest MeterTelemetryDto.timestamp)
            (readingsOf MeterTelemetryDto.meterId k
               (meterPayloadsOf (IngestVehicle dto))) None with
    | Some w => Some (meterRowOf k w)
    | None => meterCurrentState db !! k
    end.
Proof.
  cbn [perform meterPayloadsOf].
  by destruct (ingestVehicleTelemetry_tables dto db) as (-> & _).
Qed.

Lemma BatchIngestVehicle_meter_state readings db k :
  meterCurrentState (perform (BatchIngestVehicle readings) db) !! k
  = match fold_left (keepLatest MeterTelemetryDto.timestamp)
            (readingsOf MeterTelemetryDto.meterId k
               (meterPayloadsOf (BatchIngestVehicle readings))) None with
    | Some w => Some (meterRowOf k w)
    | None => meterCurrentState db !! k
    end.
Proof.
  cbn [perform meterPayloadsOf].
  by destruct (batchIngestVehicleTelemetry_tables readings db) as (-> & _).
Qed.

Lemma IngestVehicle_meter_ledger dto db :
  meterReading (perform (IngestVehicle dto) db)
  = meterReading db
    ++ imap
         (fun i dto =>
            meterReadingRow (length (meterReading db) + i) dto)
         (meterPayloadsOf (IngestVehicle dto)).
Proof.
  cbn [perform meterPayloadsOf imap].
  destruct (ingestVehicleTelemetry_tables dto db) as (_ & -> & _).
  by rewrite app_nil_r.
Qed.

Lemma BatchIngestVehicle_meter_ledger readings db :
  meterReading (perform (BatchIngestVehicle readings) db)
  = meterReading db
    ++ imap
         (fun i dto =>
            meterReadingRow (length (meterReading db) + i) dto)
         (meterPayloadsOf (BatchIngestVehicle readings)).
Proof.
  cbn [perform meterPayloadsOf imap].
  destruct (batchIngestVehicleTelemetry_tables readings db) as (_ & -> & _).
  by rewrite app_nil_r.
Qed.

Lemma IngestVehicle_vehicle_ledger dto db :
  vehicleReading (perform (IngestVehicle dto) db)
  = vehicleReading db
    ++ imap
         (fun i dto =>
            vehicleReadingRow (length (vehicleReading db) + i) dto)
         (vehiclePayloadsOf (IngestVehicle dto)).
Proof.
  cbn [perform vehiclePayloadsOf imap].
  destruct (ingestVehicleTelemetry_store dto db) as (_ & _ & -> & _).
  by rewrite Nat.add_0_r.
Qed.

Lemma BatchIngestVehicle_vehicle_ledger readings db :
  vehicleReading (perform (BatchIngestVehicle readings) db)
  = vehicleReading db
    ++ imap
         (fun i dto =>
            vehicleReadingRow (length (vehicleReading db) + i) dto)
         (vehiclePayloadsOf (BatchIngestVehicle readings)).
Proof.
  cbn [perform vehiclePayloadsOf].
  by destruct (batchIngestVehicleTelemetry_store readings db) as (_ & _ & ->).
Qed.

(** ** One ingestion call, whatever its kind, on the meter tables *)

Lemma perform_meter_table op db k :
  meter (perform op db) !! k
  = match meter db !! k with
    | Some m => Some m
    | None =>
        if bool_decide (k ∈ meterIdsOf op) then Some (newMeter k)
        else None
    end.
Proof.
  destruct op;
    first [ apply IngestMeter_meter_table
          | apply IngestVehicle_meter_table
          | apply BatchIngestMeter_meter_table
          | apply BatchIngestVehicle_meter_table ].
Qed.

Lemma perform_meter_ledger op db :
  meterReading (perform op db)
  = meterReading db
    ++ imap
         (fun i dto =>
            meterReadingRow (length (meterReading db) + i) dto)
         (meterPayloadsOf op).
Proof.
  destruct op;
    first [ apply IngestMeter_meter_ledger
          | apply IngestVehicle_meter_ledger
          | apply BatchIngestMeter_meter_ledger
          | apply BatchIngestVehicle_meter_ledger ].
Qed.

Lemma perform_meter_state op db k :
  meterCurrentState (perform op db) !! k
  = match fold_left (keepLatest MeterTelemetryDto.timestamp)
            (readingsOf MeterTelemetryDto.meterId k (meterPayloadsOf op))
            None with
    | Some w => Some (meterRowOf k w)
    | None => meterCurrentState db !! k
    end.
Proof.
  destruct op;
    first [ apply IngestMeter_meter_state
          | apply IngestVehicle_meter_state
          | apply BatchIngestMeter_meter_state
          | apply BatchIngestVehicle_meter_state ].
Qed.

Lemma readingsOf_meter_nil k (l : list MeterTelemetryDto.t) :
  k ∉ MeterTelemetryDto.meterId <$> l ->
  readingsOf MeterTelemetryDto.meterId k l = [].
Proof.
  intros Hk. induction l as [|r l IH]; [done|].
  unfold readingsOf. cbn. rewrite bool_decide_eq_false_2.
  - apply IH. intros Hin. apply Hk. by apply list_elem_of_further.
  - intros <-. apply Hk. apply list_elem_of_here.
Qed.

Lemma perform_meter_frame op db k :
  k ∉ meterIdsOf op ->
  meterCurrentState (perform op db) !! k = meterCurrentState db !! k.
Proof.
  intros Hk. rewrite perform_meter_state.
  by rewrite (readingsOf_meter_nil k _ Hk).
Qed.

Lemma perform_meterTablesAgree op db :
  meterTablesAgree db -> meterTablesAgree (perform op db).
Proof.
  intros (Hrow & Hled & Hreg).
  assert (Hwin : forall k w,
             fold_left (keepLatest MeterTelemetryDto.timestamp)
               (readingsOf MeterTelemetryDto.meterId k
                  (meterPayloadsOf op))
               None = Some w ->
             w ∈ meterPayloadsOf op /\ MeterTelemetryDto.meterId w = k).
  { intros k w Hw.
    pose proof (keepLatest_firstOfNewest MeterTelemetryDto.timestamp
                  (readingsOf MeterTelemetryDto.meterId k
                     (meterPayloadsOf op))) as H.
    rewrite Hw in H. apply firstOfNewest_elem in H.
    by apply readingsOf_key in H. }
  assert (Hnew : forall w,
             w ∈ meterPayloadsOf op ->
             exists r,
               r ∈ meterReading (perform op db) /\ meterReadingDto r = w).
  { intros w Hw. rewrite perform_meter_ledger.
    rewrite <- (meterReadingDto_rows (length (meterReading db))
                  (meterPayloadsOf op)) in Hw.
    apply list_elem_of_fmap in Hw as (r & -> & Hr).
    exists r. split; [|done]. apply elem_of_app. by right. }
  split; [|split].
  - intros k row. rewrite perform_meter_state.
    destruct (fold_left _ (readingsOf _ k (meterPayloadsOf op)) None)
      as [w|] eqn:Hw.
    + intros [= <-]. destruct (Hwin _ _ Hw) as [Hin Hk].
      destruct (Hnew _ Hin) as (r & Hr & Hdto).
      exists r. split; [done|]. rewrite Hdto. split; [|done].
      by rewrite <- Hk, <- Hdto.
    + intros Hold. destruct (Hrow _ _ Hold) as (r & Hr & Hk & Heq).
      exists r. split; [|done]. rewrite perform_meter_ledger.
      apply elem_of_app. by left.
  - intros r. rewrite perform_meter_ledger at 1.
    intros [Hr|Hr]%elem_of_app; rewrite perform_meter_state.
    + destruct (fold_left _ (readingsOf _ _ (meterPayloadsOf op)) None);
        [by eexists|]. by apply Hled.
    + assert (Hin : meterReadingDto r ∈ meterPayloadsOf op).
      { rewrite <- (meterReadingDto_rows (length (meterReading db))
                      (meterPayloadsOf op)).
        apply list_elem_of_fmap. by exists r. }
      destruct (keepLatest_winner MeterTelemetryDto.timestamp
                  (readingsOf MeterTelemetryDto.meterId
                     (MeterReading.meterId r) (meterPayloadsOf op)))
        as (w & -> & _); [|by eexists].
      intros Hnil.
      assert (Hr' : meterReadingDto r
                    ∈ readingsOf MeterTelemetryDto.meterId
                        (MeterReading.meterId r) (meterPayloadsOf op))
        by by apply readingsOf_key.
      rewrite Hnil in Hr'. by apply elem_of_nil in Hr'.
  - intros k. rewrite perform_meter_state, perform_meter_table.
    destruct (fold_left _ (readingsOf _ k (meterPayloadsOf op)) None)
      as [w|] eqn:Hw.
    + intros _. destruct (Hwin _ _ Hw) as [Hin Hk].
      destruct (meter db !! k); [by eexists|].
      rewrite bool_decide_eq_true_2; [by eexists|].
      unfold meterIdsOf. apply list_elem_of_fmap. by exists w.
    + intros Hs. destruct (Hreg _ Hs) as [m ->]. by eexists.
Qed.

(** ** One ingestion call, whatever its kind, on the vehicle tables *)

Lemma perform_vehicle_table op db k :
  vehicle (perform op db) !! k
  = match vehicle db !! k with
    | Some m => Some m
    | None =>
        if bool_decide (k ∈ vehicleIdsOf op) then Some (newVehicle k)
        else None
    end.
Proof.
  destruct op;
    first [ apply IngestVehicle_vehicle_table
          | apply IngestMeter_vehicle_table
          | apply BatchIngestVehicle_vehicle_table
          | apply BatchIngestMeter_vehicle_table ].
Qed.

Lemma perform_vehicle_ledger op db :
  vehicleReading (perform op db)
  = vehicleReading db
    ++ imap
         (fun i dto =>
            vehicleReadingRow (length (vehicleReading db) + i) dto)
         (vehiclePayloadsOf op).
Proof.
  destruct op;
    first [ apply IngestVehicle_vehicle_ledger
          | apply IngestMeter_vehicle_ledger
          | apply BatchIngestVehicle_vehicle_ledger
          | apply BatchIngestMeter_vehicle_ledger ].
Qed.

Lemma perform_vehicle_state op db k :
  vehicleCurrentState (perform op db) !! k
  = match fold_left (keepLatest VehicleTelemetryDto.timestamp)
            (readingsOf VehicleTelemetryDto.vehicleId k (vehiclePayloadsOf op))
            None with
    | Some w => Some (vehicleRowOf k w)
    | None => vehicleCurrentState db !! k
    end.
Proof.
  destruct op;
    first [ apply IngestVehicle_vehicle_state
          | apply IngestMeter_vehicle_state
          | apply BatchIngestVehicle_vehicle_state
          | apply BatchIngestMeter_vehicle_state ].
Qed.

Lemma readingsOf_vehicle_nil k (l : list VehicleTelemetryDto.t) :
  k ∉ VehicleTelemetryDto.vehicleId <$> l ->
  readingsOf VehicleTelemetryDto.vehicleId k l = [].
Proof.
  intros Hk. induction l as [|r l IH]; [done|].
  unfold readingsOf. cbn. rewrite bool_decide_eq_false_2.
  - apply IH. intros Hin. apply Hk. by apply list_elem_of_further.
  - intros <-. apply Hk. apply list_elem_of_here.
Qed.

Lemma perform_vehicle_frame op db k :
  k ∉ vehicleIdsOf op ->
  vehicleCurrentState (perform op db) !! k = vehicleCurrentState db !! k.
Proof.
  intros Hk. rewrite perform_vehicle_state.
  by rewrite (readingsOf_vehicle_nil k _ Hk).
Qed.

Lemma perform_vehicleTablesAgree op db :
  vehicleTablesAgree db -> vehicleTablesAgree (perform op db).
Proof.
  intros (Hrow & Hled & Hreg).
  assert (Hwin : forall k w,
             fold_left (keepLatest VehicleTelemetryDto.timestamp)
               (readingsOf VehicleTelemetryDto.vehicleId k
                  (vehiclePayloadsOf op))
               None = Some w ->
             w ∈ vehiclePayloadsOf op /\ VehicleTelemetryDto.vehicleId w = k).
  { intros k w Hw.
    pose proof (keepLatest_firstOfNewest VehicleTelemetryDto.timestamp
                  (readingsOf VehicleTelemetryDto.vehicleId k
                     (vehiclePayloadsOf op))) as H.
    rewrite Hw in H. apply firstOfNewest_elem in H.
    by apply readingsOf_key in H. }
  assert (Hnew : forall w,
             w ∈ vehiclePayloadsOf op ->
             exists r,
               r ∈ vehicleReading (perform op db) /\ vehicleReadingDto r = w).
  { intros w Hw. rewrite perform_vehicle_ledger.
    rewrite <- (vehicleReadingDto_rows (length (vehicleReading db))
                  (vehiclePayloadsOf op)) in Hw.
    apply list_elem_of_fmap in Hw as (r & -> & Hr).
    exists r. split; [|done]. apply elem_of_app. by right. }
  split; [|split].
  - intros k row. rewrite perform_vehicle_state.
    destruct (fold_left _ (readingsOf _ k (vehiclePayloadsOf op)) None)
      as [w|] eqn:Hw.
    + intros [= <-]. destruct (Hwin _ _ Hw) as [Hin Hk].
      destruct (Hnew _ Hin) as (r & Hr & Hdto).
      exists r. split; [done|]. rewrite Hdto. split; [|done].
      by rewrite <- Hk, <- Hdto.
    + intros Hold. destruct (Hrow _ _ Hold) as (r & Hr & Hk & Heq).
      exists r. split; [|done]. rewrite perform_vehicle_ledger.
      apply elem_of_app. by left.
  - intros r. rewrite perform_vehicle_ledger at 1.
    intros [Hr|Hr]%elem_of_app; rewrite perform_vehicle_state.
    + destruct (fold_left _ (readingsOf _ _ (vehiclePayloadsOf op)) None);
        [by eexists|]. by apply Hled.
    + assert (Hin : vehicleReadingDto r ∈ vehiclePayloadsOf op).
      { rewrite <- (vehicleReadingDto_rows (length (vehicleReading db))
                      (vehiclePayloadsOf op)).
        apply list_elem_of_fmap. by exists r. }
      destruct (keepLatest_winner VehicleTelemetryDto.timestamp
                  (readingsOf VehicleTelemetryDto.vehicleId
                     (VehicleReading.vehicleId r) (vehiclePayloadsOf op)))
        as (w & -> & _); [|by eexists].
      intros Hnil.
      assert (Hr' : vehicleReadingDto r
                    ∈ readingsOf VehicleTelemetryDto.vehicleId
                        (VehicleReading.vehicleId r) (vehiclePayloadsOf op))
        by by apply readingsOf_key.
      rewrite Hnil in Hr'. by apply elem_of_nil in Hr'.
  - intros k. rewrite perform_vehicle_state, perform_vehicle_table.
    destruct (fold_left _ (readingsOf _ k (vehiclePayloadsOf op)) None)
      as [w|] eqn:Hw.
    + intros _. destruct (Hwin _ _ Hw) as [Hin Hk].
      destruct (vehicle db !! k); [by eexists|].
      rewrite bool_decide_eq_true_2; [by eexists|].
      unfold vehicleIdsOf. apply list_elem_of_fmap. by exists w.
    + intros Hs. destruct (Hreg _ Hs) as [m ->]. by eexists.
Qed.

(** ** Auto-registration and the append-only ledgers *)

(** X1. An ingestion call, single or batch, never changes a device row that
    already exists (its name, its attributes, a vehicle's meter reference),
    creates the default row for every device id it carries that was unknown,
    and registers nothing else.  Repeating the call leaves the device tables
    as the first call left them. *)
Theorem ingestion_registers_devices (op : Operation) (db : Store) :
  (forall k,
      meter (perform op db) !! k
      = match meter db !! k with
        | Some m => Some m
        | None =>
            if bool_decide (k ∈ meterIdsOf op) then Some (newMeter k)
            else None
        end)
  /\ (forall k,
         vehicle (perform op db) !! k
         = match vehicle db !! k with
           | Some v => Some v
           | None =>
               if bool_decide (k ∈ vehicleIdsOf op) then Some (newVehicle k)
               else None
           end)
  /\ meter (perform op (perform op db)) = meter (perform op db)
  /\ vehicle (perform op (perform op db)) = vehicle (perform op db).
Proof.
  assert (Hm : forall d k,
             meter (perform op d) !! k
             = match meter d !! k with
               | Some m => Some m
               | None =>
                   if bool_decide (k ∈ meterIdsOf op) then Some (newMeter k)
                   else None
               end).
  { intros d k. destruct op;
      first [ apply IngestMeter_meter_table
            | apply IngestVehicle_meter_table
            | apply BatchIngestMeter_meter_table
            | apply BatchIngestVehicle_meter_table ]. }
  assert (Hv : forall d k,
             vehicle (perform op d) !! k
             = match vehicle d !! k with
               | Some v => Some v
               | None =>
                   if bool_decide (k ∈ vehicleIdsOf op)
                   then Some (newVehicle k) else None
               end).
  { intros d k. destruct op;
      first [ apply IngestMeter_vehicle_table
            | apply IngestVehicle_vehicle_table
            | apply BatchIngestMeter_vehicle_table
            | apply BatchIngestVehicle_vehicle_table ]. }
  split; [apply Hm|]. split; [apply Hv|]. split.
  - apply map_eq. intros k. rewrite (Hm (perform op db)), (Hm db).
    destruct (meter db !! k); [done|].
    by destruct (bool_decide (k ∈ meterIdsOf op)).
  - apply map_eq. intros k. rewrite (Hv (perform op db)), (Hv db).
    destruct (vehicle db !! k); [done|].
    by destruct (bool_decide (k ∈ vehicleIdsOf op)).
Qed.

(** X2. The ledgers are append-only and keep the input order: after an
    ingestion call each ledger consists of its former rows followed by one
    row per payload of its kind, carrying the submitted values in the order
    submitted (nothing for the other kind).  The [readingId] a single
    ingest returns is the id of the row it appended. *)
Theorem ledger_appends_in_order (op : Operation) (db : Store) :
  (exists rows,
      meterReading (perform op db) = meterReading db ++ rows
      /\ meterReadingDto <$> rows = meterPayloadsOf op)
  /\ (exists rows,
         vehicleReading (perform op db) = vehicleReading db ++ rows
         /\ vehicleReadingDto <$> rows = vehiclePayloadsOf op)
  /\ (forall dto,
         op = IngestMeter dto ->
         exists row,
           last (meterReading (perform op db)) = Some row
           /\ MeterReading.id row
              = im_readingId (snd (ingestMeterTelemetry dto db))
           /\ meterReadingDto row = dto)
  /\ (forall dto,
         op = IngestVehicle dto ->
         exists row,
           last (vehicleReading (perform op db)) = Some row
           /\ VehicleReading.id row
              = iv_readingId (snd (ingestVehicleTelemetry dto db))
           /\ vehicleReadingDto row = dto).
Proof.
  split; [|split; [|split]].
  - destruct op as [dto|dto|readings|readings]; cbn [perform meterPayloadsOf].
    + destruct (ingestMeterTelemetry_store dto db) as (_ & _ & -> & _).
      eexists. split; [done|]. cbn. by rewrite meterReadingDto_row.
    + destruct (ingestVehicleTelemetry_tables dto db) as (_ & -> & _).
      exists []. by rewrite app_nil_r.
    + destruct (batchIngestMeterTelemetry_store readings db) as (_ & _ & ->).
      eexists. split; [done|]. apply meterReadingDto_rows.
    + destruct (batchIngestVehicleTelemetry_tables readings db)
        as (_ & -> & _).
      exists []. by rewrite app_nil_r.
  - destruct op as [dto|dto|readings|readings];
      cbn [perform vehiclePayloadsOf].
    + destruct (ingestMeterTelemetry_tables dto db) as (_ & -> & _).
      exists []. by rewrite app_nil_r.
    + destruct (ingestVehicleTelemetry_store dto db) as (_ & _ & -> & _).
      eexists. split; [done|]. cbn. by rewrite vehicleReadingDto_row.
    + destruct (batchIngestMeterTelemetry_tables readings db)
        as (_ & -> & _).
      exists []. by rewrite app_nil_r.
    + destruct (batchIngestVehicleTelemetry_store readings db)
        as (_ & _ & ->).
      eexists. split; [done|]. apply vehicleReadingDto_rows.
  - intros dto ->. cbn [perform].
    destruct (ingestMeterTelemetry_store dto db) as (_ & _ & -> & ->).
    eexists. split; [apply last_snoc|]. split; [done|].
    apply meterReadingDto_row.
  - intros dto ->. cbn [perform].
    destruct (ingestVehicleTelemetry_store dto db) as (_ & _ & -> & ->).
    eexists. split; [apply last_snoc|]. split; [done|].
    apply vehicleReadingDto_row.
Qed.

(** X3. A batch answers [success] with the number of readings submitted
    and the distinct device ids of the batch, each once.  Its hot path
    writes exactly one current-state row per returned id, in the order the
    ids are returned, so never more rows than there are readings; afterwards
    every returned id is registered and has a current-state row. *)
Theorem batch_result_and_hot_writes
  (meterReadings : list MeterTelemetryDto.t)
  (vehicleReadings : list VehicleTelemetryDto.t) (db : Store) :
  (let db' := fst (batchIngestMeterTelemetry meterReadings db) in
   let res := snd (batchIngestMeterTelemetry meterReadings db) in
   bm_success res = true
   /\ bm_count res = length meterReadings
   /\ NoDup (bm_meterIds res)
   /\ (forall k,
          k ∈ bm_meterIds res
          <-> k ∈ MeterTelemetryDto.meterId <$> meterReadings)
   /\ (fold_left latestByMeterStep meterReadings []).*1 = bm_meterIds res
   /\ (length (bm_meterIds res) <= length meterReadings)%nat
   /\ (forall k,
          k ∈ bm_meterIds res ->
          is_Some (meter db' !! k) /\ is_Some (meterCurrentState db' !! k)))
  /\ (let db' := fst (batchIngestVehicleTelemetry vehicleReadings db) in
      let res := snd (batchIngestVehicleTelemetry vehicleReadings db) in
      bv_success res = true
      /\ bv_count res = length vehicleReadings
      /\ NoDup (bv_vehicleIds res)
      /\ (forall k,
             k ∈ bv_vehicleIds res
             <-> k ∈ VehicleTelemetryDto.vehicleId <$> vehicleReadings)
      /\ (fold_left latestByVehicleStep vehicleReadings []).*1
         = bv_vehicleIds res
      /\ (length (bv_vehicleIds res) <= length vehicleReadings)%nat
      /\ (forall k,
             k ∈ bv_vehicleIds res ->
             is_Some (vehicle db' !! k)
             /\ is_Some (vehicleCurrentState db' !! k))).
Proof.
  split.
  - apply batchIngestMeterTelemetry_result.
  - apply batchIngestVehicleTelemetry_result.
Qed.

(** ** Batches and single ingests *)

(** X4. When, within a batch, every later reading of a device is strictly
    newer than its earlier ones, the batch leaves the store exactly as
    ingesting its readings one by one, in input order, does: the same
    devices, the same ledger rows and the same current-state rows. *)
Theorem batch_equals_single_ingests
  (meterReadings : list MeterTelemetryDto.t)
  (vehicleReadings : list VehicleTelemetryDto.t) (db : Store) :
  StronglySorted
    (newerLater MeterTelemetryDto.meterId MeterTelemetryDto.timestamp)
    meterReadings ->
  StronglySorted
    (newerLater VehicleTelemetryDto.vehicleId VehicleTelemetryDto.timestamp)
    vehicleReadings ->
  fst (batchIngestMeterTelemetry meterReadings db)
  = fold_left (fun d dto => fst (ingestMeterTelemetry dto d)) meterReadings db
  /\ fst (batchIngestVehicleTelemetry vehicleReadings db)
     = fold_left (fun d dto => fst (ingestVehicleTelemetry dto d))
         vehicleReadings db.
Proof.
  intros Hm Hv.
  assert (Hseqm : forall l d,
             performAll (IngestMeter <$> l) d
             = fold_left (fun d dto => fst (ingestMeterTelemetry dto d)) l d).
  { induction l as [|x l IH]; intros d; [done|]. apply IH. }
  assert (Hseqv : forall l d,
             performAll (IngestVehicle <$> l) d
             = fold_left (fun d dto => fst (ingestVehicleTelemetry dto d)) l d).
  { induction l as [|x l IH]; intros d; [done|]. apply IH. }
  split.
  - rewrite <- Hseqm. exact (BatchIngestMeter_as_sequence _ db Hm).
  - rewrite <- Hseqv. exact (BatchIngestVehicle_as_sequence _ db Hv).
Qed.

Lemma batch_equals_single_ingests_witness :
  StronglySorted
    (newerLater MeterTelemetryDto.meterId MeterTelemetryDto.timestamp)
    orderedMeterBatch
  /\ StronglySorted
       (newerLater VehicleTelemetryDto.vehicleId
          VehicleTelemetryDto.timestamp)
       orderedVehicleBatch
  /\ fst (batchIngestMeterTelemetry orderedMeterBatch newerStore)
     = fold_left (fun d dto => fst (ingestMeterTelemetry dto d))
         orderedMeterBatch newerStore
  /\ fst (batchIngestVehicleTelemetry orderedVehicleBatch newerStore)
     = fold_left (fun d dto => fst (ingestVehicleTelemetry dto d))
         orderedVehicleBatch newerStore.
Proof.
  assert (Hm : StronglySorted
                 (newerLater MeterTelemetryDto.meterId
                    MeterTelemetryDto.timestamp) orderedMeterBatch).
  { repeat constructor; unfold newerLater; cbn; (discriminate || lia). }
  assert (Hv : StronglySorted
                 (newerLater VehicleTelemetryDto.vehicleId
                    VehicleTelemetryDto.timestamp) orderedVehicleBatch).
  { repeat constructor; unfold newerLater; cbn; lia. }
  split; [exact Hm|]. split; [exact Hv|].
  exact (batch_equals_single_ingests orderedMeterBatch orderedVehicleBatch
           newerStore Hm Hv).
Defined.

(** X5. An ingestion call leaves the current-state row of every device it
    carries no reading for exactly as it was, and [getCurrentState] of such
    a vehicle answers as before the call. *)
Theorem ingestion_leaves_other_devices (op : Operation) (db : Store) :
  (forall k,
      k ∉ meterIdsOf op ->
      meterCurrentState (perform op db) !! k = meterCurrentState db !! k)
  /\ (forall k,
         k ∉ vehicleIdsOf op ->
         vehicleCurrentState (perform op db) !! k
         = vehicleCurrentState db !! k
         /\ getCurrentState k (perform op db) = getCurrentState k db).
Proof.
  split.
  - intros k Hk. by apply perform_meter_frame.
  - intros k Hk. pose proof (perform_vehicle_frame op db k Hk) as H.
    split; [done|]. unfold getCurrentState. by rewrite H.
Qed.

(** ** Hot and cold storage across calls *)

Lemma associated_tables vehicleId meterId db :
  let db' := associated vehicleId meterId db in
  meter db' = meter db
  /\ meterReading db' = meterReading db
  /\ vehicleReading db' = vehicleReading db
  /\ meterCurrentState db' = meterCurrentState db
  /\ vehicleCurrentState db' = vehicleCurrentState db
  /\ forall k, is_Some (vehicle db' !! k) <-> is_Some (vehicle db !! k).
Proof.
  unfold associated, associateVehicleWithMeter, vehicle_update_meterId.
  destruct (vehicle db !! vehicleId) as [v|] eqn:Hv; cbn; [|done].
  repeat split; try done.
  - destruct (decide (k = vehicleId)) as [->|Hne].
    + intros _. by eexists.
    + by rewrite lookup_insert_ne.
  - destruct (decide (k = vehicleId)) as [->|Hne].
    + intros _. rewrite lookup_insert_eq. by eexists.
    + by rewrite lookup_insert_ne.
Qed.

Lemma serve_tablesAgree call db :
  meterTablesAgree db /\ vehicleTablesAgree db ->
  meterTablesAgree (serve call db) /\ vehicleTablesAgree (serve call db).
Proof.
  intros [Hm Hv]. destruct call as [op|vehicleId meterId]; cbn [serve].
  - split; [by apply perform_meterTablesAgree
           |by apply perform_vehicleTablesAgree].
  - destruct (associated_tables vehicleId meterId db)
      as (Ha & Hb & Hc & Hd & He & Hf).
    unfold meterTablesAgree, vehicleTablesAgree.
    rewrite Ha, Hb, Hc, Hd, He. split; [done|].
    destruct Hv as (Hv1 & Hv2 & Hv3). split; [done|]. split; [done|].
    intros k Hk. apply Hf. by apply Hv3.
Qed.

Lemma serveAll_tablesAgree calls db :
  meterTablesAgree db /\ vehicleTablesAgree db ->
  meterTablesAgree (serveAll calls db)
  /\ vehicleTablesAgree (serveAll calls db).
Proof.
  revert db. induction calls as [|call calls IH]; intros db H; [done|].
  apply IH. by apply serve_tablesAgree.
Qed.

Lemma emptyStore_tablesAgree :
  meterTablesAgree emptyStore /\ vehicleTablesAgree emptyStore.
Proof.
  split; (split; [|split]); cbn.
  - intros k row H. by rewrite lookup_empty in H.
  - intros r H. by apply elem_of_nil in H.
  - intros k [x H]. by rewrite lookup_empty in H.
  - intros k row H. by rewrite lookup_empty in H.
  - intros r H. by apply elem_of_nil in H.
  - intros k [x H]. by rewrite lookup_empty in H.
Qed.

(** X6. After any sequence of ingestion and association calls on the empty
    store, hot and cold storage agree for both kinds of device: every
    current-state row carries the values of a ledger row of its device,
    every ledger row has a current-state row for its device, and every
    device with a current-state row is registered.  In particular
    [getCurrentState] succeeds for exactly the vehicles that have a reading
    in the ledger. *)
Theorem hot_and_cold_agree (calls : list Call) :
  let db := serveAll calls emptyStore in
  meterTablesAgree db
  /\ vehicleTablesAgree db
  /\ forall vehicleId,
       (exists state, getCurrentState vehicleId db = inr state)
       <-> (exists r,
              r ∈ vehicleReading db
              /\ VehicleReading.vehicleId r = vehicleId).
Proof.
  intros db.
  destruct (serveAll_tablesAgree calls emptyStore emptyStore_tablesAgree)
    as [Hm Hv].
  fold db in Hm, Hv. split; [done|]. split; [done|].
  destruct Hv as (Hrow & Hled & _).
  intros vehicleId. unfold getCurrentState. split.
  - intros [state Hs].
    destruct (vehicleCurrentState db !! vehicleId) as [row|] eqn:E; [|done].
    destruct (Hrow _ _ E) as (r & Hr & Hk & _). by exists r.
  - intros (r & Hr & <-). destruct (Hled r Hr) as [row ->]. by eexists.
Qed.

(** ** The readings a summary is computed from *)

Lemma inPeriod_test (now t : Z) :
  ((periodStartOf now <=? t)%Z && (t <=? now)%Z = true) <-> inPeriod now t.
Proof.
  unfold inPeriod. rewrite andb_true_iff, !Z.leb_le. tauto.
Qed.

Lemma vehicleReading_findMany_spec vehicleId now db :
  let series := vehicleSeries vehicleId now db in
  (forall r,
      r ∈ series
      <-> r ∈ vehicleReading db
          /\ VehicleReading.vehicleId r = vehicleId
          /\ inPeriod now (VehicleReading.timestamp r))
  /\ ascending VehicleReading.timestamp series.
Proof.
  cbn zeta. unfold vehicleSeries, vehicleReading_findMany. split.
  - intros r. rewrite (orderByAsc_perm VehicleReading.timestamp).
    rewrite !list_elem_of_In, filter_In, <- andb_assoc, andb_true_iff.
    rewrite bool_decide_eq_true, inPeriod_test. tauto.
  - apply orderByAsc_ascending.
Qed.

Lemma meterReading_findMany_spec meterId now db :
  let series := meterReading_findMany meterId (periodStartOf now) now db in
  (forall r,
      r ∈ series
      <-> r ∈ meterReading db
          /\ MeterReading.meterId r = meterId
          /\ inPeriod now (MeterReading.timestamp r))
  /\ ascending MeterReading.timestamp series.
Proof.
  cbn zeta. unfold meterReading_findMany. split.
  - intros r. rewrite (orderByAsc_perm MeterReading.timestamp).
    rewrite !list_elem_of_In, filter_In, <- andb_assoc, andb_true_iff.
    rewrite bool_decide_eq_true, inPeriod_test. tauto.
  - apply orderByAsc_ascending.
Qed.

(** X7. The vehicle readings of a summary computed at [now] are exactly
    the ledger rows of the vehicle observed from [now] minus 24 hours to
    [now], both instants included, each once, in ascending order of
    observation time; [vehicleReadingCount] is their number.  The meter
    readings are the same selection for the vehicle's meter id, and there
    are none when the vehicle has no meter id (or an empty one). *)
Theorem summary_reads_the_period
  (vehicleId : string) (v : Vehicle.t) (now : Z) (db : Store) :
  let vehicleReadings := vehicleSeries vehicleId now db in
  let meterReadings := meterSeries v now db in
  (forall r,
      r ∈ vehicleReadings
      <-> r ∈ vehicleReading db
          /\ VehicleReading.vehicleId r = vehicleId
          /\ inPeriod now (VehicleReading.timestamp r))
  /\ ascending VehicleReading.timestamp vehicleReadings
  /\ Permutation vehicleReadings
       (List.filter
          (fun r =>
             bool_decide (VehicleReading.vehicleId r = vehicleId)
             && (periodStartOf now <=? VehicleReading.timestamp r)%Z
             && (VehicleReading.timestamp r <=? now)%Z)
          (vehicleReading db))
  /\ (forall r,
         r ∈ meterReadings
         <-> r ∈ meterReading db
             /\ truthyMeterId (Vehicle.meterId v)
                = Some (MeterReading.meterId r)
             /\ inPeriod now (MeterReading.timestamp r))
  /\ ascending MeterReading.timestamp meterReadings
  /\ (truthyMeterId (Vehicle.meterId v) = None -> meterReadings = [])
  /\ match getPerformanceSummary vehicleId now db with
     | inr s =>
         PerformanceSummaryDto.vehicleReadingCount s
         = length (vehicleSeries vehicleId now db)
     | inl _ => vehicle db !! vehicleId = None
     end.
Proof.
  cbn zeta.
  destruct (vehicleReading_findMany_spec vehicleId now db) as [Hmem Hasc].
  split; [exact Hmem|]. split; [exact Hasc|].
  split; [apply orderByAsc_perm|].
  unfold meterSeries, meterReadingsFor.
  destruct (truthyMeterId (Vehicle.meterId v)) as [m|] eqn:Hm.
  - destruct (meterReading_findMany_spec m now db) as [Hmem' Hasc'].
    split.
    { intros r. rewrite Hmem'. split.
      - intros (? & <- & ?). done.
      - intros (? & [= <-] & ?). done. }
    split; [exact Hasc'|]. split; [done|].
    destruct (vehicle db !! vehicleId) as [v'|] eqn:Hv.
    + by rewrite (getPerformanceSummary_found _ _ _ _ Hv).
    + unfold getPerformanceSummary. by rewrite Hv.
  - split.
    { intros r. rewrite elem_of_nil. split; [done|by intros (_ & ? & _)]. }
    split; [constructor|]. split; [done|].
    destruct (vehicle db !! vehicleId) as [v'|] eqn:Hv.
    + by rewrite (getPerformanceSummary_found _ _ _ _ Hv).
    + unfold getPerformanceSummary. by rewrite Hv.
Qed.

Lemma filter_none {A : Type} (f : A -> bool) (l : list A) :
  Forall (fun x => f x = false) l -> List.filter f l = [].
Proof.
  induction 1 as [|x l Hx _ IH]; [done|]. cbn. by rewrite Hx.
Qed.

Lemma vehicleSeries_perform op vehicleId now db :
  Forall
    (fun dto =>
       VehicleTelemetryDto.vehicleId dto <> vehicleId
       \/ ~ inPeriod now (VehicleTelemetryDto.timestamp dto))
    (vehiclePayloadsOf op) ->
  vehicleSeries vehicleId now (perform op db) = vehicleSeries vehicleId now db.
Proof.
  intros Hp. unfold vehicleSeries, vehicleReading_findMany.
  rewrite perform_vehicle_ledger, List.filter_app.
  rewrite (filter_none _ (imap _ _)); [by rewrite app_nil_r|].
  rewrite <- (vehicleReadingDto_rows (length (vehicleReading db))
                (vehiclePayloadsOf op)) in Hp.
  apply Forall_fmap in Hp. eapply Forall_impl; [exact Hp|].
  intros r Hr. cbn in Hr. rewrite <- andb_assoc. apply andb_false_iff.
  destruct Hr as [Hr|Hr].
  - left. by apply bool_decide_eq_false_2.
  - right. apply not_true_is_false. intros Ht. apply Hr.
    by apply inPeriod_test.
Qed.

Lemma meterSeries_perform op v now db :
  Forall
    (fun dto =>
       truthyMeterId (Vehicle.meterId v) <> Some (MeterTelemetryDto.meterId dto)
       \/ ~ inPeriod now (MeterTelemetryDto.timestamp dto))
    (meterPayloadsOf op) ->
  meterSeries v now (perform op db) = meterSeries v now db.
Proof.
  intros Hp. unfold meterSeries, meterReadingsFor.
  destruct (truthyMeterId (Vehicle.meterId v)) as [m|]; [|done].
  unfold meterReading_findMany.
  rewrite perform_meter_ledger, List.filter_app.
  rewrite (filter_none _ (imap _ _)); [by rewrite app_nil_r|].
  rewrite <- (meterReadingDto_rows (length (meterReading db))
                (meterPayloadsOf op)) in Hp.
  apply Forall_fmap in Hp. eapply Forall_impl; [exact Hp|].
  intros r Hr. cbn in Hr. rewrite <- andb_assoc. apply andb_false_iff.
  destruct Hr as [Hr|Hr].
  - left. apply bool_decide_eq_false_2. congruence.
  - right. apply not_true_is_false. intros Ht. apply Hr.
    by apply inPeriod_test.
Qed.

(** X8. The summary of a registered vehicle depends only on the readings
    of that vehicle and of its meter that fall in the period: an ingestion
    call, single or batch, whose vehicle payloads are for other vehicles or
    observed outside the period, and whose meter payloads are for other
    meters or observed outside the period, leaves the summary computed at
    [now] unchanged. *)
Theorem summary_ignores_other_readings
  (op : Operation) (vehicleId : string) (v : Vehicle.t) (now : Z)
  (db : Store) :
  vehicle db !! vehicleId = Some v ->
  Forall
    (fun dto =>
       VehicleTelemetryDto.vehicleId dto <> vehicleId
       \/ ~ inPeriod now (VehicleTelemetryDto.timestamp dto))
    (vehiclePayloadsOf op) ->
  Forall
    (fun dto =>
       truthyMeterId (Vehicle.meterId v) <> Some (MeterTelemetryDto.meterId dto)
       \/ ~ inPeriod now (MeterTelemetryDto.timestamp dto))
    (meterPayloadsOf op) ->
  getPerformanceSummary vehicleId now (perform op db)
  = getPerformanceSummary vehicleId now db.
Proof.
  intros Hv Hvp Hmp.
  assert (Hv' : vehicle (perform op db) !! vehicleId = Some v).
  { by rewrite perform_vehicle_table, Hv. }
  rewrite (getPerformanceSummary_found _ _ _ _ Hv).
  rewrite (getPerformanceSummary_found _ _ _ _ Hv').
  unfold unroundedRatio.
  by rewrite (vehicleSeries_perform _ _ _ _ Hvp),
    (meterSeries_perform _ _ _ _ Hmp).
Qed.

Lemma summary_ignores_other_readings_witness :
  vehicle scenarioStore !! "VEH-001"
  = Some (Vehicle.mk "VEH-001" "Vehicle VEH-001" None (Some "METER-001"))
  /\ Forall
       (fun dto =>
          VehicleTelemetryDto.vehicleId dto <> "VEH-001"
          \/ ~ inPeriod 3600000 (VehicleTelemetryDto.timestamp dto))
       (vehiclePayloadsOf unrelatedBatch)
  /\ getPerformanceSummary "VEH-001" 3600000
       (perform unrelatedBatch scenarioStore)
     = getPerformanceSummary "VEH-001" 3600000 scenarioStore.
Proof.
  assert (Hv : vehicle scenarioStore !! "VEH-001"
               = Some (Vehicle.mk "VEH-001" "Vehicle VEH-001" None
                         (Some "METER-001")))
    by (vm_compute; reflexivity).
  assert (Hp : Forall
                 (fun dto =>
                    VehicleTelemetryDto.vehicleId dto <> "VEH-001"
                    \/ ~ inPeriod 3600000 (VehicleTelemetryDto.timestamp dto))
                 (vehiclePayloadsOf unrelatedBatch)).
  { constructor; [left; discriminate|].
    constructor; [|constructor].
    right. unfold inPeriod, periodStartOf. cbn. lia. }
  split; [exact Hv|]. split; [exact Hp|].
  apply (summary_ignores_other_readings unrelatedBatch "VEH-001" _ 3600000
           scenarioStore Hv Hp).
  constructor.
Defined.

(** ** Totals, ratio and averages *)

Lemma totalAcConsumedOf_short (meterReadings : list MeterReading.t) :
  (length meterReadings <= 1)%nat -> totalAcConsumedOf meterReadings == 0.
Proof.
  destruct meterReadings as [|a [|b l]]; cbn [length]; intros Hlen;
    [reflexivity| |lia].
  unfold totalAcConsumedOf. cbn.
  destruct (Qltb _ 0); [reflexivity|]. ring.
Qed.

Lemma efficiencyRatioOf_no_ac (dc ac : Q) :
  ac == 0 -> efficiencyRatioOf dc ac = 0.
Proof.
  intros Hac. unfold efficiencyRatioOf.
  destruct (Qltb_spec 0 ac) as [Hpos|_]; [|done]. lra.
Qed.

(** X9. Without AC data the ratio is 0 and the status HEALTHY, whatever
    was delivered: when the period holds at most one reading of the
    vehicle's meter (none at all when no meter is associated, or when the
    associated id has no readings), the summary reports
    [totalAcConsumed = 0], [efficiencyRatio = 0] and HEALTHY. *)
Theorem summary_without_ac_data
  (vehicleId : string) (v : Vehicle.t) (now : Z) (db : Store) :
  vehicle db !! vehicleId = Some v ->
  (length (meterSeries v now db) <= 1)%nat ->
  exists s,
    getPerformanceSummary vehicleId now db = inr s
    /\ PerformanceSummaryDto.totalAcConsumed s == 0
    /\ PerformanceSummaryDto.efficiencyRatio s == 0
    /\ PerformanceSummaryDto.efficiencyStatus s = HEALTHY.
Proof.
  intros Hv Hlen. eexists.
  split; [exact (getPerformanceSummary_found _ _ _ _ Hv)|].
  cbn [PerformanceSummaryDto.totalAcConsumed
         PerformanceSummaryDto.efficiencyRatio
         PerformanceSummaryDto.efficiencyStatus].
  pose proof (totalAcConsumedOf_short _ Hlen) as Hac.
  unfold unroundedRatio. rewrite (efficiencyRatioOf_no_ac _ _ Hac).
  split; [|split; [reflexivity|reflexivity]].
  rewrite (round2_proper _ _ Hac). reflexivity.
Qed.

Lemma summary_without_ac_data_witness :
  vehicle newerStore !! "VEH-001"
  = Some (Vehicle.mk "VEH-001" "Vehicle VEH-001" None None)
  /\ (length (meterSeries (Vehicle.mk "VEH-001" "Vehicle VEH-001" None None)
                7200000 newerStore) <= 1)%nat
  /\ exists s,
       getPerformanceSummary "VEH-001" 7200000 newerStore = inr s
       /\ PerformanceSummaryDto.totalAcConsumed s == 0
       /\ PerformanceSummaryDto.efficiencyRatio s == 0
       /\ PerformanceSummaryDto.efficiencyStatus s = HEALTHY.
Proof.
  split; [vm_compute; reflexivity|]. split; [cbn; lia|].
  apply (summary_without_ac_data "VEH-001"
           (Vehicle.mk "VEH-001" "Vehicle VEH-001" None None)
           7200000 newerStore).
  - vm_compute. reflexivity.
  - cbn. lia.
Defined.

Lemma sumNonNegativeDeltas_ge_difference (a : Q) (l : list Q) :
  List.last (a :: l) 0 - a <= sumNonNegativeDeltas (a :: l).
Proof.
  revert a. induction l as [|b l IH]; intros a.
  - cbn. lra.
  - change (List.last (a :: b :: l) 0) with (List.last (b :: l) 0).
    change (sumNonNegativeDeltas (a :: b :: l))
      with (Qmax 0 (b - a) + sumNonNegativeDeltas (b :: l)).
    pose proof (IH b). pose proof (Q.le_max_r 0 (b - a)). lra.
Qed.

Lemma sumNonNegativeDeltas_sorted (a : Q) (l : list Q) :
  Sorted Qle (a :: l) ->
  sumNonNegativeDeltas (a :: l) == List.last (a :: l) 0 - a.
Proof.
  revert a. induction l as [|b l IH]; intros a Hs.
  - cbn. lra.
  - change (List.last (a :: b :: l) 0) with (List.last (b :: l) 0).
    change (sumNonNegativeDeltas (a :: b :: l))
      with (Qmax 0 (b - a) + sumNonNegativeDeltas (b :: l)).
    apply Sorted_inv in Hs as [Hs Hhd]. apply HdRel_inv in Hhd.
    rewrite (IH b Hs), Q.max_r by lra. lra.
Qed.

Lemma cumulativeDelta_bounds (r : list Q) :
  0 <= cumulativeDelta r
  /\ cumulativeDelta r <= sumNonNegativeDeltas r
  /\ (Sorted Qle r ->
      cumulativeDelta r == List.last r 0 - List.hd 0 r
      /\ cumulativeDelta r == sumNonNegativeDeltas r).
Proof.
  split; [apply cumulativeDelta_nonneg|].
  destruct r as [|a l]; [cbn; split; [lra|]; intros _; split; lra|].
  pose proof (sumNonNegativeDeltas_ge_difference a l) as Hge.
  unfold cumulativeDelta. cbn [List.hd].
  destruct (Qle_bool 0 (List.last (a :: l) 0 - a)) eqn:E.
  - split; [done|]. intros Hs. split; [reflexivity|].
    by rewrite sumNonNegativeDeltas_sorted.
  - split; [lra|]. intros Hs.
    pose proof (sumNonNegativeDeltas_sorted a l Hs) as Heq.
    pose proof (sumNonNegativeDeltas_nonneg (a :: l)) as Hnn.
    assert (Hle : 0 <= List.last (a :: l) 0 - a) by lra.
    apply Qle_bool_iff in Hle. congruence.
Qed.

(** X10. Each energy total is never negative and never exceeds the sum of
    the positive steps of its counter.  For a counter that never decreases
    over the series it is the last value minus the first, which is then
    also that sum; a decrease in the middle of a series whose last value is
    not below its first is therefore not corrected. *)
Theorem energy_totals_bounds
  (vehicleReadings : list VehicleReading.t)
  (meterReadings : list MeterReading.t) :
  let dc := VehicleReading.kwhDeliveredDc <$> vehicleReadings in
  let ac := MeterReading.kwhConsumedAc <$> meterReadings in
  0 <= totalDcDeliveredOf vehicleReadings
  /\ totalDcDeliveredOf vehicleReadings <= sumNonNegativeDeltas dc
  /\ (Sorted Qle dc ->
      totalDcDeliveredOf vehicleReadings == List.last dc 0 - List.hd 0 dc
      /\ totalDcDeliveredOf vehicleReadings == sumNonNegativeDeltas dc)
  /\ (0 <= List.last dc 0 - List.hd 0 dc ->
      totalDcDeliveredOf vehicleReadings == List.last dc 0 - List.hd 0 dc)
  /\ 0 <= totalAcConsumedOf meterReadings
  /\ totalAcConsumedOf meterReadings <= sumNonNegativeDeltas ac
  /\ (Sorted Qle ac ->
      totalAcConsumedOf meterReadings == List.last ac 0 - List.hd 0 ac
      /\ totalAcConsumedOf meterReadings == sumNonNegativeDeltas ac)
  /\ (0 <= List.last ac 0 - List.hd 0 ac ->
      totalAcConsumedOf meterReadings == List.last ac 0 - List.hd 0 ac).
Proof.
  intros dc ac.
  assert (Hdirect : forall r,
             0 <= List.last r 0 - List.hd 0 r ->
             cumulativeDelta r == List.last r 0 - List.hd 0 r).
  { intros [|a l]; cbn [List.hd]; [cbn; lra|]. intros H.
    unfold cumulativeDelta. apply Qle_bool_iff in H. by rewrite H. }
  destruct (cumulativeDelta_bounds dc) as (H1 & H2 & H3).
  destruct (cumulativeDelta_bounds ac) as (H4 & H5 & H6).
  pose proof (totalDcDeliveredOf_cumulativeDelta vehicleReadings) as Edc.
  pose proof (totalAcConsumedOf_cumulativeDelta meterReadings) as Eac.
  fold dc in Edc. fold ac in Eac.
  repeat split; try (rewrite Edc); try (rewrite Eac); try done.
  - by apply H3.
  - by apply H3.
  - by apply Hdirect.
  - by apply H6.
  - by apply H6.
  - by apply Hdirect.
Qed.

(** ** Averages and counts *)

Lemma Qsum_bounds (lo hi : Q) (l : list Q) :
  Forall (fun x => lo <= x /\ x <= hi) l ->
  inject_Z (Z.of_nat (length l)) * lo <= Qsum l
  /\ Qsum l <= inject_Z (Z.of_nat (length l)) * hi.
Proof.
  induction 1 as [|x l [Hlo Hhi] _ IH].
  - change (inject_Z (Z.of_nat (length (@nil Q)))) with 0.
    change (Qsum []) with 0. lra.
  - change (Qsum (x :: l)) with (x + Qsum l).
    change (length (x :: l)) with (S (length l)).
    rewrite Nat2Z.inj_succ, <- Z.add_1_r, inject_Z_plus.
    change (inject_Z 1) with 1. lra.
Qed.

Lemma mean_bounds (lo hi : Q) (l : list Q) :
  lo <= 0 -> 0 <= hi ->
  Forall (fun x => lo <= x /\ x <= hi) l ->
  lo <= mean l /\ mean l <= hi.
Proof.
  intros Hlo Hhi Hall. destruct l as [|x l]; [cbn; lra|].
  unfold mean. destruct (Qsum_bounds lo hi _ Hall) as [H1 H2].
  set (n := inject_Z (Z.of_nat (length (x :: l)))) in *.
  assert (Hn : 0 < n).
  { unfold n. change 0 with (inject_Z 0). rewrite <- Zlt_Qlt. cbn. lia. }
  split.
  - apply Qle_shift_div_l; [done|lra].
  - apply Qle_shift_div_r; [done|lra].
Qed.

Lemma round2_mono (x y : Q) : x <= y -> round2 x <= round2 y.
Proof.
  intros Hxy. unfold round2, Math_round.
  apply Qmult_le_compat_r; [|by vm_compute].
  rewrite <- Zle_Qle. apply Qfloor_resp_le. lra.
Qed.

Lemma round2_inject_Z (z : Z) : round2 (inject_Z z) == inject_Z z.
Proof.
  unfold round2, Math_round.
  assert (H : Qfloor (inject_Z z * 100 + (1 # 2)) = (z * 100)%Z).
  { apply Z.le_antisymm.
    - apply Z.lt_succ_r. rewrite Zlt_Qlt.
      eapply Qle_lt_trans; [apply Qfloor_le|].
      rewrite <- Z.add_1_r, inject_Z_plus, inject_Z_mult.
      change (inject_Z 100) with 100. change (inject_Z 1) with 1. lra.
    - assert (Hf : (Qfloor (inject_Z (z * 100))
                    <= Qfloor (inject_Z z * 100 + (1 # 2)))%Z).
      { apply Qfloor_resp_le. rewrite inject_Z_mult.
        change (inject_Z 100) with 100. lra. }
      by rewrite Qfloor_Z in Hf. }
  rewrite H, inject_Z_mult. change (inject_Z 100) with 100. field.
Qed.

Lemma round2_between (lo hi : Z) (x : Q) :
  inject_Z lo <= x -> x <= inject_Z hi ->
  inject_Z lo <= round2 x /\ round2 x <= inject_Z hi.
Proof.
  intros Hlo Hhi. split.
  - rewrite <- (round2_inject_Z lo). by apply round2_mono.
  - rewrite <- (round2_inject_Z hi). by apply round2_mono.
Qed.


Lemma activeVehicleStatesOf_rows now db row :
  row ∈ activeVehicleStatesOf now db ->
  exists k, vehicleCurrentState db !! k = Some row.
Proof.
  unfold activeVehicleStatesOf, vehicleCurrentState_findMany.
  rewrite list_elem_of_In, filter_In, <- list_elem_of_In, list_elem_of_fmap.
  intros [[[k x] [-> Hin]] _]. exists k. by apply elem_of_map_to_list.
Qed.

Lemma avgFleetSoc_between (lo hi : Z) (now : Z) (db : Store) :
  (lo <= 0)%Z -> (0 <= hi)%Z ->
  (forall k row,
      vehicleCurrentState db !! k = Some row ->
      inject_Z lo <= VehicleCurrentState.soc row
      /\ VehicleCurrentState.soc row <= inject_Z hi) ->
  inject_Z lo <= FleetStats.avgFleetSoc (getFleetStats now db)
  /\ FleetStats.avgFleetSoc (getFleetStats now db) <= inject_Z hi.
Proof.
  intros Hlo Hhi Hrows.
  assert (Hlo' : inject_Z lo <= 0)
    by (change 0 with (inject_Z 0); by rewrite <- Zle_Qle).
  assert (Hhi' : 0 <= inject_Z hi)
    by (change 0 with (inject_Z 0); by rewrite <- Zle_Qle).
  assert (E : FleetStats.avgFleetSoc (getFleetStats now db)
              == round2 (mean (VehicleCurrentState.soc
                                 <$> activeVehicleStatesOf now db))).
  { apply round2_proper. apply (average_mean VehicleCurrentState.soc). }
  rewrite E.
  assert (Hall : Forall
                   (fun x => inject_Z lo <= x /\ x <= inject_Z hi)
                   (VehicleCurrentState.soc
                      <$> activeVehicleStatesOf now db)).
  { apply Forall_fmap, Forall_forall. intros row Hrow.
    destruct (activeVehicleStatesOf_rows _ _ _ Hrow) as [k Hk].
    exact (Hrows k row Hk). }
  apply round2_between; by apply (mean_bounds _ _ _ Hlo' Hhi').
Qed.

Lemma avgFleetBatteryTemp_between (lo hi : Z) (now : Z) (db : Store) :
  (lo <= 0)%Z -> (0 <= hi)%Z ->
  (forall k row,
      vehicleCurrentState db !! k = Some row ->
      inject_Z lo <= VehicleCurrentState.batteryTemp row
      /\ VehicleCurrentState.batteryTemp row <= inject_Z hi) ->
  inject_Z lo <= FleetStats.avgFleetBatteryTemp (getFleetStats now db)
  /\ FleetStats.avgFleetBatteryTemp (getFleetStats now db) <= inject_Z hi.
Proof.
  intros Hlo Hhi Hrows.
  assert (Hlo' : inject_Z lo <= 0)
    by (change 0 with (inject_Z 0); by rewrite <- Zle_Qle).
  assert (Hhi' : 0 <= inject_Z hi)
    by (change 0 with (inject_Z 0); by rewrite <- Zle_Qle).
  assert (E : FleetStats.avgFleetBatteryTemp (getFleetStats now db)
              == round2 (mean (VehicleCurrentState.batteryTemp
                                 <$> activeVehicleStatesOf now db))).
  { apply round2_proper.
    apply (average_mean VehicleCurrentState.batteryTemp). }
  rewrite E.
  assert (Hall : Forall
                   (fun x => inject_Z lo <= x /\ x <= inject_Z hi)
                   (VehicleCurrentState.batteryTemp
                      <$> activeVehicleStatesOf now db)).
  { apply Forall_fmap, Forall_forall. intros row Hrow.
    destruct (activeVehicleStatesOf_rows _ _ _ Hrow) as [k Hk].
    exact (Hrows k row Hk). }
  apply round2_between; by apply (mean_bounds _ _ _ Hlo' Hhi').
Qed.



Lemma filter_length_mono {A : Type} (f g : A -> bool) (l : list A) :
  (forall x, f x = true -> g x = true) ->
  (length (List.filter f l) <= length (List.filter g l))%nat.
Proof.
  intros Hfg. induction l as [|x l IH]; cbn; [done|].
  destruct (f x) eqn:Hf.
  - rewrite (Hfg x Hf). cbn. lia.
  - destruct (g x); cbn; lia.
Qed.

(** X12. On every store reached from the empty one by ingestion and
    association calls, the active counts of the fleet statistics never
    exceed the totals, and the totals are the numbers of registered devices.
    On any store, asking at a later instant can only lower the active
    counts. *)
Theorem fleet_counts (calls : list Call) (now later : Z) :
  let db := serveAll calls emptyStore in
  let stats := getFleetStats now db in
  FleetStats.totalVehicles stats = size (vehicle db)
  /\ FleetStats.totalMeters stats = size (meter db)
  /\ (FleetStats.activeVehicles stats <= FleetStats.totalVehicles stats)%nat
  /\ (FleetStats.activeMeters stats <= FleetStats.totalMeters stats)%nat
  /\ forall anyStore,
       (now <= later)%Z ->
       (FleetStats.activeVehicles (getFleetStats later anyStore)
        <= FleetStats.activeVehicles (getFleetStats now anyStore))%nat
       /\ (FleetStats.activeMeters (getFleetStats later anyStore)
           <= FleetStats.activeMeters (getFleetStats now anyStore))%nat.
Proof.
  intros db stats.
  destruct (serveAll_tablesAgree calls emptyStore emptyStore_tablesAgree)
    as [(_ & _ & Hm) (_ & _ & Hv)].
  fold db in Hm, Hv.
  split; [done|]. split; [done|]. split; [|split].
  - cbn. unfold activeVehicleStatesOf, vehicleCurrentState_findMany.
    etransitivity; [apply filter_length_le|].
    rewrite length_fmap, length_map_to_list.
    rewrite <- (size_dom (D := gset string) (vehicleCurrentState db)).
    rewrite <- (size_dom (D := gset string) (vehicle db)).
    apply subseteq_size. intros k Hk. apply elem_of_dom.
    apply Hv. by apply elem_of_dom.
  - cbn. unfold activeMeterStatesOf, meterCurrentState_findMany.
    etransitivity; [apply filter_length_le|].
    rewrite length_fmap, length_map_to_list.
    rewrite <- (size_dom (D := gset string) (meterCurrentState db)).
    rewrite <- (size_dom (D := gset string) (meter db)).
    apply subseteq_size. intros k Hk. apply elem_of_dom.
    apply Hm. by apply elem_of_dom.
  - intros anyStore Hle. cbn. split.
    + apply filter_length_mono. intros x. rewrite !Z.geb_le. lia.
    + apply filter_length_mono. intros x. rewrite !Z.geb_le. lia.
Qed.

(** ** Association *)

Lemma associated_again vehicleId m1 m2 db :
  associated vehicleId m2 (associated vehicleId m1 db)
  = associated vehicleId m2 db.
Proof.
  unfold associated, associateVehicleWithMeter, vehicle_update_meterId.
  destruct (vehicle db !! vehicleId) as [v|] eqn:Hv; cbn; [|by rewrite Hv].
  rewrite lookup_insert_eq. cbn. by rewrite insert_insert_eq.
Qed.

(** X13. Association composes as a replacement: associating a vehicle a
    second time leaves the store exactly as the second association alone
    does.  An association changes neither the current state any vehicle
    reports nor the rows the fleet statistics scan.  For a registered
    vehicle, the next summary names the new meter id and computes its AC
    total from the readings of that meter in the period (from none for the
    empty id), and later ingestion calls keep the reference. *)
Theorem association_replaces
  (vehicleId m1 m2 : string) (now : Z) (db : Store) :
  associated vehicleId m2 (associated vehicleId m1 db)
  = associated vehicleId m2 db
  /\ (forall k,
         getCurrentState k (associated vehicleId m1 db) = getCurrentState k db)
  /\ activeVehicleStatesOf now (associated vehicleId m1 db)
     = activeVehicleStatesOf now db
  /\ activeMeterStatesOf now (associated vehicleId m1 db)
     = activeMeterStatesOf now db
  /\ forall v,
       vehicle db !! vehicleId = Some v ->
       (exists s,
           getPerformanceSummary vehicleId now (associated vehicleId m1 db)
           = inr s
           /\ PerformanceSummaryDto.meterId s = Some m1
           /\ PerformanceSummaryDto.totalAcConsumed s
              = round2
                  (totalAcConsumedOf
                     (if isNotEmpty m1
                      then meterReading_findMany m1 (periodStartOf now) now db
                      else []))
           /\ PerformanceSummaryDto.totalDcDelivered s
              = round2 (totalDcDeliveredOf (vehicleSeries vehicleId now db)))
       /\ forall op,
            Vehicle.meterId
              <$> vehicle (perform op (associated vehicleId m1 db))
                    !! vehicleId
            = Some (Some m1).
Proof.
  split; [apply associated_again|].
  destruct (associated_tables vehicleId m1 db)
    as (Ha & Hb & Hc & Hd & He & Hf).
  split; [|split; [|split]].
  - intros k. unfold getCurrentState. by rewrite He.
  - unfold activeVehicleStatesOf, vehicleCurrentState_findMany.
    by rewrite He.
  - unfold activeMeterStatesOf, meterCurrentState_findMany. by rewrite Hd.
  - intros v Hv.
    assert (Hv' : vehicle (associated vehicleId m1 db) !! vehicleId
                  = Some (Vehicle.mk (Vehicle.vehicleId v) (Vehicle.name v)
                            (Vehicle.batteryCapacity v) (Some m1))).
    { unfold associated, associateVehicleWithMeter, vehicle_update_meterId.
      rewrite Hv. cbn. by rewrite lookup_insert_eq. }
    split.
    + eexists. split; [exact (getPerformanceSummary_found _ _ _ _ Hv')|].
      cbn [PerformanceSummaryDto.meterId
             PerformanceSummaryDto.totalAcConsumed
             PerformanceSummaryDto.totalDcDelivered Vehicle.meterId].
      split; [done|]. split.
      * unfold meterSeries, meterReadingsFor, truthyMeterId.
        cbn [Vehicle.meterId]. unfold meterReading_findMany.
        rewrite Hb. by destruct (isNotEmpty m1).
      * unfold vehicleSeries, vehicleReading_findMany. by rewrite Hc.
    + intros op. by rewrite perform_vehicle_table, Hv'.
Qed.

(** ** Cleaning the database *)

(** X14. [cleanDatabase] refuses to run when [NODE_ENV] is "production":
    it throws and deletes nothing.  In every other environment, also an
    unset one, it empties the six tables whatever they held, so that
    afterwards no vehicle is known to the analytics and the fleet statistics
    are all zero. *)
Theorem cleanDatabase_contract (NODE_ENV : option string) (db : Store)
  (now : Z) (vehicleId : string) :
  match cleanDatabase NODE_ENV db with
  | inl message =>
      NODE_ENV = Some "production"
      /\ message = "Cannot clean database in production"
  | inr db' =>
      NODE_ENV <> Some "production"
      /\ db' = emptyStore
      /\ getCurrentState vehicleId db'
         = inl (NotFoundException
                  ("No current state found for vehicle " +:+ vehicleId))
      /\ getPerformanceSummary vehicleId now db'
         = inl (NotFoundException
                  ("Vehicle " +:+ vehicleId +:+ " not found"))
      /\ getFleetStats now db' = FleetStats.mk 0 0 0 0 (round2 0) (round2 0)
  end.
Proof.
  unfold cleanDatabase.
  destruct (bool_decide_reflect (NODE_ENV = Some "production")) as [->|Hne].
  - done.
  - split; [done|]. split; [done|].
    cbn. unfold getCurrentState, getPerformanceSummary. cbn.
    rewrite !lookup_empty. split; [done|]. split; [done|].
    unfold getFleetStats, activeVehicleStatesOf, activeMeterStatesOf,
      vehicleCurrentState_findMany, meterCurrentState_findMany.
    cbn. by rewrite !map_to_list_empty.
Qed.

(** ** Validation in front of the single-reading routes *)

Lemma isNotEmpty_true (s : string) : isNotEmpty s = true <-> s <> "".
Proof.
  unfold isNotEmpty. rewrite negb_true_iff, bool_decide_eq_false. tauto.
Qed.

Lemma validateMeterTelemetry_bounds dto :
  validateMeterTelemetry dto = true <-> meterPayloadInBounds dto.
Proof.
  unfold validateMeterTelemetry, meterPayloadInBounds.
  rewrite !andb_true_iff, isNotEmpty_true, !Qle_bool_iff. tauto.
Qed.

Lemma validateVehicleTelemetry_bounds dto :
  validateVehicleTelemetry dto = true <-> vehiclePayloadInBounds dto.
Proof.
  unfold validateVehicleTelemetry, vehiclePayloadInBounds.
  rewrite !andb_true_iff, isNotEmpty_true, !Qle_bool_iff. tauto.
Qed.

Lemma handle_rowsInBounds req db :
  rowsInBounds db -> rowsInBounds (handle req db).
Proof.
  intros [Hm Hv]. destruct req as [dto|dto]; cbn [handle].
  - unfold IngestionController.ingestMeterTelemetry.
    destruct (validateMeterTelemetry dto) eqn:Hval; [|done].
    apply validateMeterTelemetry_bounds in Hval as (_ & H1 & H2 & H3).
    destruct (ingestMeterTelemetry dto db) as [db' res] eqn:E.
    assert (Hdb : db' = fst (ingestMeterTelemetry dto db)) by by rewrite E.
    subst db'. split.
    + intros k row. rewrite ingestMeterTelemetry_state.
      destruct (decide (MeterTelemetryDto.meterId dto = k)) as [<-|Hne].
      * rewrite lookup_insert_eq. by intros [= <-].
      * rewrite lookup_insert_ne by done. apply Hm.
    + destruct (ingestMeterTelemetry_tables dto db) as (-> & _). apply Hv.
  - unfold IngestionController.ingestVehicleTelemetry.
    destruct (validateVehicleTelemetry dto) eqn:Hval; [|done].
    apply validateVehicleTelemetry_bounds in Hval
      as (_ & H1 & H2 & H3 & H4 & H5).
    destruct (ingestVehicleTelemetry dto db) as [db' res] eqn:E.
    assert (Hdb : db' = fst (ingestVehicleTelemetry dto db)) by by rewrite E.
    subst db'. split.
    + destruct (ingestVehicleTelemetry_tables dto db) as (-> & _). apply Hm.
    + intros k row. rewrite ingestVehicleTelemetry_state.
      destruct (decide (VehicleTelemetryDto.vehicleId dto = k)) as [<-|Hne].
      * rewrite lookup_insert_eq. by intros [= <-].
      * rewrite lookup_insert_ne by done. apply Hv.
Qed.

Lemma handleAll_rowsInBounds reqs db :
  rowsInBounds db -> rowsInBounds (handleAll reqs db).
Proof.
  revert db. induction reqs as [|req reqs IH]; intros db H; [done|].
  apply IH. by apply handle_rowsInBounds.
Qed.

(** X15. The single-reading routes accept a payload exactly when it
    satisfies the bounds its class declares (a non-empty id, energy at
    least 0, voltage in [0, 500], state of charge in [0, 100], battery
    temperature in [-50, 100]) and then answer as the service does; any
    other payload is answered with a bad-request error and reaches no
    table.  Hence, after any sequence of such requests on the empty store,
    every current-state row is within these bounds, and so are the fleet
    averages. *)
Theorem validated_rows_stay_in_bounds (reqs : list Request) (now : Z) :
  (forall dto db,
      match IngestionController.ingestMeterTelemetry dto db with
      | inr r => meterPayloadInBounds dto /\ r = ingestMeterTelemetry dto db
      | inl e =>
          ~ meterPayloadInBounds dto
          /\ e = BadRequestException
          /\ handle (PostMeter dto) db = db
      end)
  /\ (forall dto db,
         match IngestionController.ingestVehicleTelemetry dto db with
         | inr r =>
             vehiclePayloadInBounds dto /\ r = ingestVehicleTelemetry dto db
         | inl e =>
             ~ vehiclePayloadInBounds dto
             /\ e = BadRequestException
             /\ handle (PostVehicle dto) db = db
         end)
  /\ rowsInBounds (handleAll reqs emptyStore)
  /\ 0 <= FleetStats.avgFleetSoc (getFleetStats now (handleAll reqs emptyStore))
  /\ FleetStats.avgFleetSoc (getFleetStats now (handleAll reqs emptyStore))
     <= 100
  /\ -50 <= FleetStats.avgFleetBatteryTemp
              (getFleetStats now (handleAll reqs emptyStore))
  /\ FleetStats.avgFleetBatteryTemp
       (getFleetStats now (handleAll reqs emptyStore)) <= 100.
Proof.
  split; [|split].
  - intros dto db. cbn [handle].
    unfold IngestionController.ingestMeterTelemetry.
    destruct (validateMeterTelemetry dto) eqn:Hval.
    + split; [by apply validateMeterTelemetry_bounds|done].
    + split; [|done]. intros H%validateMeterTelemetry_bounds. congruence.
  - intros dto db. cbn [handle].
    unfold IngestionController.ingestVehicleTelemetry.
    destruct (validateVehicleTelemetry dto) eqn:Hval.
    + split; [by apply validateVehicleTelemetry_bounds|done].
    + split; [|done]. intros H%validateVehicleTelemetry_bounds. congruence.
  - assert (Hrows : rowsInBounds (handleAll reqs emptyStore)).
    { apply handleAll_rowsInBounds. split; intros k row H; cbn in H;
        by rewrite lookup_empty in H. }
    split; [exact Hrows|]. destruct Hrows as [_ Hv].
    destruct (avgFleetSoc_between 0 100 now (handleAll reqs emptyStore))
      as [H1 H2]; [lia|lia| |].
    { intros k row Hk. destruct (Hv k row Hk) as (? & ? & _). done. }
    destruct (avgFleetBatteryTemp_between (-50) 100 now
                (handleAll reqs emptyStore)) as [H3 H4]; [lia|lia| |].
    { intros k row Hk. destruct (Hv k row Hk) as (_ & _ & _ & ? & ?). done. }
    done.
Qed.

(** ** The last call decides the hot row *)

(** X16. After an ingestion call that carries readings for a device, the
    [lastTimestamp] of the device's current-state row is the newest
    observation timestamp among the readings of that call, whatever the
    row held before, also something newer; a call that carries nothing for
    the device leaves it.  The timestamps accepted for the device grow by
    exactly those the call carried. *)
Theorem last_call_decides_lastTimestamp
  (device : Device) (op : Operation) (db : Store) :
  lastTimestampOf device (perform op db)
  = match maximum (carriedFor device op) with
    | Some newest => Some newest
    | None => lastTimestampOf device db
    end
  /\ timestampsOf device (perform op db)
     = timestampsOf device db ++ carriedFor device op
  /\ (forall newest,
         maximum (carriedFor device op) = Some newest ->
         newest ∈ carriedFor device op
         /\ Forall (fun t => (t <= newest)%Z) (carriedFor device op)).
Proof.
  destruct (perform_step device op db) as [H1 H2].
  split; [exact H1|]. split; [exact H2|].
  intros newest Hmax. by apply maximum_Some.
Qed.

(** ** Ratio and status *)

Lemma efficiencyStatusOf_mono (r1 r2 : Q) :
  0 < r1 -> r1 <= r2 ->
  (severity (efficiencyStatusOf r2) <= severity (efficiencyStatusOf r1))%nat.
Proof.
  intros Hpos Hle.
  unfold efficiencyStatusOf, EFFICIENCY_THRESHOLD_CRITICAL,
    EFFICIENCY_THRESHOLD_WARNING.
  destruct (Qltb_spec 0 r1), (Qltb_spec 0 r2), (Qltb_spec r1 75),
    (Qltb_spec r2 75), (Qltb_spec r1 85), (Qltb_spec r2 85);
    cbn; try lia; lra.
Qed.

(** X17. For a positive AC total the status never gets worse when more DC
    energy is delivered, nor when less AC energy is drawn for the same DC
    energy: the ratio grows with the DC total and shrinks with the AC total,
    and the classification is monotone on positive ratios.  (At a ratio of
    exactly 0 the status is HEALTHY, so the monotonicity stops there.) *)
Theorem status_monotone (dc1 dc2 ac1 ac2 : Q) :
  0 < dc1 -> dc1 <= dc2 -> 0 < ac2 -> ac2 <= ac1 ->
  efficiencyRatioOf dc1 ac1 <= efficiencyRatioOf dc2 ac2
  /\ (severity (efficiencyStatusOf (efficiencyRatioOf dc2 ac2))
      <= severity (efficiencyStatusOf (efficiencyRatioOf dc1 ac1)))%nat.
Proof.
  intros Hdc1 Hdc Hac2 Hac.
  assert (Hac1 : 0 < ac1) by lra.
  assert (Hr : efficiencyRatioOf dc1 ac1 <= efficiencyRatioOf dc2 ac2).
  { unfold efficiencyRatioOf.
    destruct (Qltb_spec 0 ac1) as [_|?]; [|lra].
    destruct (Qltb_spec 0 ac2) as [_|?]; [|lra].
    apply Qmult_le_compat_r; [|lra].
    apply Qle_shift_div_l; [done|].
    assert (E : dc1 / ac1 * ac2 == (dc1 * ac2) / ac1) by (field; lra).
    rewrite E. apply Qle_shift_div_r; [done|]. nra. }
  split; [exact Hr|]. apply efficiencyStatusOf_mono; [|exact Hr].
  unfold efficiencyRatioOf. destruct (Qltb_spec 0 ac1) as [_|?]; [|lra].
  assert (0 < dc1 / ac1) by (apply Qlt_shift_div_l; lra). lra.
Qed.

Lemma status_monotone_witness :
  0 < 4 /\ 4 <= 5 /\ 0 < 5 /\ 5 <= 6
  /\ efficiencyRatioOf 4 6 <= efficiencyRatioOf 5 5
  /\ (severity (efficiencyStatusOf (efficiencyRatioOf 5 5))
      <= severity (efficiencyStatusOf (efficiencyRatioOf 4 6)))%nat.
Proof.
  assert (H1 : 0 < 4) by lra. assert (H2 : 4 <= 5) by lra.
  assert (H3 : 0 < 5) by lra. assert (H4 : 5 <= 6) by lra.
  split; [exact H1|]. split; [exact H2|]. split; [exact H3|].
  split; [exact H4|]. exact (status_monotone 4 5 6 5 H1 H2 H3 H4).
Defined.

(** ** The order of the ledger *)

Lemma filter_Permutation {A : Type} (f : A -> bool) (l l' : list A) :
  Permutation l l' -> Permutation (List.filter f l) (List.filter f l').
Proof.
  induction 1 as [|x l l' _ IH|x y l|l1 l2 l3 _ IH1 _ IH2]; cbn.
  - done.
  - destruct (f x); [by constructor|done].
  - destruct (f x), (f y); try done. apply perm_swap.
  - by etransitivity.
Qed.

Lemma NoDup_fmap_eq {A B : Type} (f : A -> B) (l : list A) (x y : A) :
  NoDup (f <$> l) -> x ∈ l -> y ∈ l -> f x = f y -> x = y.
Proof.
  induction l as [|a l IH]; intros Hnd Hx Hy Hf.
  - by apply elem_of_nil in Hx.
  - cbn in Hnd. apply NoDup_cons in Hnd as [Ha Hnd].
    apply elem_of_cons in Hx as [->|Hx]; apply elem_of_cons in Hy as [->|Hy].
    + done.
    + exfalso. apply Ha. rewrite Hf. apply list_elem_of_fmap. by exists y.
    + exfalso. apply Ha. rewrite <- Hf. apply list_elem_of_fmap. by exists x.
    + by apply IH.
Qed.

Lemma orderByAsc_unique {A : Type} (ts : A -> Z) (l l' : list A) :
  Permutation l l' -> NoDup (ts <$> l) ->
  orderByAsc ts l = orderByAsc ts l'.
Proof.
  intros Hp Hnd.
  apply (StronglySorted_unique_strong (fun a b => (ts a <= ts b)%Z)).
  - intros x1 x2 H1 H2 Hle Hge.
    rewrite (orderByAsc_perm ts l) in H1.
    rewrite (orderByAsc_perm ts l'), <- Hp in H2.
    apply (NoDup_fmap_eq ts l); [done..|lia].
  - apply orderByAsc_ascending.
  - apply orderByAsc_ascending.
  - by rewrite !orderByAsc_perm.
Qed.

(** X18. The summary does not depend on the order in which the ledgers
    hold their rows: for two stores with the same vehicle row whose ledgers
    are permutations of each other, the summaries computed at the same
    instant are equal, provided the readings of the period carry pairwise
    distinct observation timestamps (for equal timestamps the order of a
    range query is not determined by its [orderBy]). *)
Theorem summary_independent_of_ledger_order
  (vehicleId : string) (v : Vehicle.t) (now : Z) (db db' : Store) :
  vehicle db !! vehicleId = Some v ->
  vehicle db' !! vehicleId = Some v ->
  Permutation (vehicleReading db) (vehicleReading db') ->
  Permutation (meterReading db) (meterReading db') ->
  NoDup (VehicleReading.timestamp <$> vehicleSeries vehicleId now db) ->
  NoDup (MeterReading.timestamp <$> meterSeries v now db) ->
  getPerformanceSummary vehicleId now db
  = getPerformanceSummary vehicleId now db'.
Proof.
  intros Hv Hv' Hpv Hpm Hndv Hndm.
  assert (Ev : vehicleSeries vehicleId now db
               = vehicleSeries vehicleId now db').
  { unfold vehicleSeries, vehicleReading_findMany in *.
    apply orderByAsc_unique; [by apply filter_Permutation|].
    by rewrite (orderByAsc_perm VehicleReading.timestamp) in Hndv. }
  assert (Em : meterSeries v now db = meterSeries v now db').
  { unfold meterSeries, meterReadingsFor in *.
    destruct (truthyMeterId (Vehicle.meterId v)) as [m|]; [|done].
    unfold meterReading_findMany in *.
    apply orderByAsc_unique; [by apply filter_Permutation|].
    by rewrite (orderByAsc_perm MeterReading.timestamp) in Hndm. }
  rewrite (getPerformanceSummary_found _ _ _ _ Hv).
  rewrite (getPerformanceSummary_found _ _ _ _ Hv').
  unfold unroundedRatio. by rewrite Ev, Em.
Qed.

Lemma summary_independent_of_ledger_order_witness :
  Permutation (vehicleReading scenarioStore)
    (vehicleReading scenarioStoreReversed)
  /\ Permutation (meterReading scenarioStore)
       (meterReading scenarioStoreReversed)
  /\ getPerformanceSummary "VEH-001" 3600000 scenarioStore
     = getPerformanceSummary "VEH-001" 3600000 scenarioStoreReversed.
Proof.
  assert (Hpv : Permutation (vehicleReading scenarioStore)
                  (vehicleReading scenarioStoreReversed))
    by (symmetry; apply reverse_Permutation).
  assert (Hpm : Permutation (meterReading scenarioStore)
                  (meterReading scenarioStoreReversed))
    by (symmetry; apply reverse_Permutation).
  split; [exact Hpv|]. split; [exact Hpm|].
  apply (summary_independent_of_ledger_order "VEH-001"
           (Vehicle.mk "VEH-001" "Vehicle VEH-001" None (Some "METER-001"))
           3600000 scenarioStore scenarioStoreReversed);
    [vm_compute; reflexivity|vm_compute; reflexivity|exact Hpv|exact Hpm| |].
  - apply (bool_decide_unpack _). vm_compute. exact I.
  - apply (bool_decide_unpack _). vm_compute. exact I.
Defined.

(** ** Repeating a call *)

(** X19. Ingestion upserts but does not deduplicate: repeating an
    ingestion call leaves the current-state tables and the fleet statistics
    as the first call left them, while each ledger receives the payloads of
    the call a second time. *)
Theorem repeated_call_appends_again (op : Operation) (now : Z) (db : Store) :
  let once := perform op db in
  let twice := perform op (perform op db) in
  meterCurrentState twice = meterCurrentState once
  /\ vehicleCurrentState twice = vehicleCurrentState once
  /\ getFleetStats now twice = getFleetStats now once
  /\ meterReadingDto <$> meterReading twice
     = (meterReadingDto <$> meterReading db)
       ++ meterPayloadsOf op ++ meterPayloadsOf op
  /\ vehicleReadingDto <$> vehicleReading twice
     = (vehicleReadingDto <$> vehicleReading db)
       ++ vehiclePayloadsOf op ++ vehiclePayloadsOf op.
Proof.
  intros once twice.
  assert (Hms : meterCurrentState twice = meterCurrentState once).
  { apply map_eq. intros k. unfold twice, once.
    rewrite (perform_meter_state op (perform op db)),
      (perform_meter_state op db).
    by destruct (fold_left _ (readingsOf _ k (meterPayloadsOf op)) None). }
  assert (Hvs : vehicleCurrentState twice = vehicleCurrentState once).
  { apply map_eq. intros k. unfold twice, once.
    rewrite (perform_vehicle_state op (perform op db)),
      (perform_vehicle_state op db).
    by destruct (fold_left _ (readingsOf _ k (vehiclePayloadsOf op)) None). }
  assert (Hm : meter twice = meter once).
  { apply map_eq. intros k. unfold twice, once.
    rewrite (perform_meter_table op (perform op db)),
      (perform_meter_table op db).
    destruct (meter db !! k); [done|].
    by destruct (bool_decide (k ∈ meterIdsOf op)). }
  assert (Hv : vehicle twice = vehicle once).
  { apply map_eq. intros k. unfold twice, once.
    rewrite (perform_vehicle_table op (perform op db)),
      (perform_vehicle_table op db).
    destruct (vehicle db !! k); [done|].
    by destruct (bool_decide (k ∈ vehicleIdsOf op)). }
  split; [exact Hms|]. split; [exact Hvs|]. split; [|split].
  - unfold getFleetStats, activeVehicleStatesOf, activeMeterStatesOf,
      vehicleCurrentState_findMany, meterCurrentState_findMany.
    by rewrite Hms, Hvs, Hm, Hv.
  - unfold twice. rewrite (perform_meter_ledger op (perform op db)).
    rewrite fmap_app, meterReadingDto_rows, (perform_meter_ledger op db).
    by rewrite fmap_app, meterReadingDto_rows, <- app_assoc.
  - unfold twice. rewrite (perform_vehicle_ledger op (perform op db)).
    rewrite fmap_app, vehicleReadingDto_rows, (perform_vehicle_ledger op db).
    by rewrite fmap_app, vehicleReadingDto_rows, <- app_assoc.
Qed.
